(** * VibeMatch: access control and match-suggestion pipeline

    A shallow embedding of the server routes ([server/routes.ts]), the
    persistence layer ([server/storage.ts]), the matching service
    ([server/aiMatchingService.ts]) and the dashboard's display-time
    computations ([ProjectDashboard], [TasksSection], [TeamSection]),
    followed by the properties the design specification states about them.

    Conventions.
    - A table is the list of its rows.  A [SELECT] returns rows in table
      order; the handlers below consume result sets only through [some],
      [find] on the primary key, [filter] and [map], none of which depends
      on the [ORDER BY] of the query.
    - A nullable column is an [option]; a JavaScript value tested for
      truthiness is given its own predicate ([truthy_str], [truthy_opt]).
    - Timestamps are integers (milliseconds); identifiers generated by the
      database ([gen_random_uuid()]) and the clock ([new Date()]) are inputs
      of the handler that needs them.
    - A string that is stored or compared is a [string] of characters from
      U+0001 to U+00FF, one per [ascii], so that its length is the one the
      request schemas and [varchar(n)] count (PostgreSQL text has no NUL).
      The [limit] parameter, whose characters [parseInt] inspects, is given
      by its UTF-16 code units. *)

From Stdlib Require Import ZArith QArith String Ascii List Lia Sorted Permutation.
From stdpp Require Import base decidable option list strings gmap sorting.

Local Open Scope string_scope.
Local Open Scope Z_scope.

(* set_solver clears hypotheses by name; harmless where they are absent. *)
#[local] Set Warnings "-clear-no-such-hyp".

(** ** JavaScript primitives used by the handlers *)

Module Js.

(** [!!s] for a string: every string but the empty one is truthy. *)
Definition truthy_str (s : string) : bool :=
  match s with EmptyString => false | String _ _ => true end.

(** [!!v] for a value that is [undefined]/[null] or a string. *)
Definition truthy_opt (v : option string) : bool :=
  match v with None => false | Some s => truthy_str s end.

(** [a === b] on strings and on nullable strings. *)
Definition str_eq (a b : string) : bool := bool_decide (a = b).
Definition opt_eq (a b : option string) : bool := bool_decide (a = b).

(** The UTF-16 code units of a string of characters below U+0100. *)
Definition units (s : string) : list N := N_of_ascii <$> list_ascii_of_string s.

(** [!!s] for a string given by its code units, or [undefined]. *)
Definition truthy_units (s : option (list N)) : bool :=
  match s with Some (_ :: _) => true | _ => false end.

(** White space and line terminators, which [parseInt] skips: TAB to CR,
    SPACE, NBSP, the other space separators of Unicode, LS, PS and the
    byte-order mark. *)
Definition is_ws (c : N) : bool :=
  ((9 <=? c) && (c <=? 13) || (c =? 32) || (c =? 160) || (c =? 5760)
   || (8192 <=? c) && (c <=? 8202) || (c =? 8232) || (c =? 8233)
   || (c =? 8239) || (c =? 8287) || (c =? 12288) || (c =? 65279))%N.

Definition digit_of (c : N) : option Z :=
  if ((48 <=? c) && (c <=? 57))%N then Some (Z.of_N c - 48) else None.

Fixpoint skip_ws (s : list N) : list N :=
  match s with
  | c :: r => if is_ws c then skip_ws r else s
  | [] => []
  end.

(** The longest prefix of decimal digits, read as a number; [acc] is
    [None] as long as no digit has been read. *)
Fixpoint digits (s : list N) (acc : option Z) : option Z :=
  match s with
  | c :: r =>
      match digit_of c with
      | Some d => digits r (Some (10 * default 0 acc + d))
      | None => acc
      end
  | [] => acc
  end.

(** [parseInt(s, 10)]; [None] stands for [NaN].  JavaScript returns a
    double, which for a very long digit string is a rounded value or
    [Infinity]; every caller below clamps the result to a small
    interval, which both values leave on the same side. *)
Definition parseInt (s : list N) : option Z :=
  match skip_ws s with
  | c :: r =>
      if (c =? 45)%N then Z.opp <$> digits r None           (* a leading "-" *)
      else if (c =? 43)%N then digits r None                (* a leading "+" *)
      else digits (c :: r) None
  | [] => None
  end.

End Js.

(** ** JSON values of a request body *)

Module Json.

(** A value, as far as a handler and the database driver tell values
    apart: [null]; a string; or a boolean, number, array or object, of which
    a handler sees the truthiness and the driver the text it sends. *)
Inductive t :=
| Null
| Str (s : string)
| Other (truthy : bool) (text : string).

(** [!!v] for the value of a key; [None] is a key the object does not have. *)
Definition truthy (v : option t) : bool :=
  match v with
  | None | Some Null => false
  | Some (Str s) => Js.truthy_str s
  | Some (Other b _) => b
  end.

(** The text node-postgres sends for a value; [null] is sent as NULL. *)
Definition text (v : t) : option string :=
  match v with Null => None | Str s => Some s | Other _ s => Some s end.

End Json.

#[global] Instance json_eq_dec : EqDecision Json.t.
Proof. solve_decision. Defined.

(** ** Data model ([shared/schema.ts]) *)

Module Profile.
Record t := mk {
  id : string;
  userId : option string;
  name : string;
  role : string;                 (* 'coder', 'investor', 'technical' *)
  avatar : option string;
  tagline : option string;
  location : option string;
  tags : option (list string);
}.
End Profile.

Module Project.
Record t := mk {
  id : string;
  name : string;
  description : option string;
  vibeCodeId : string;
  status : string;
}.
End Project.

Module ProjectMember.
Record t := mk {
  id : string;
  projectId : string;
  profileId : string;
  role : string;                 (* 'technical', 'investor' *)
  compensationType : string;     (* 'money', 'ownership' *)
  compensationAmount : option string;
  ownershipPercentage : option string;
  hasAccess : bool;
  joinedAt : option Z;
}.
End ProjectMember.

Module CodeRepository.
Record t := mk {
  id : string;
  projectId : string;
  uploadedBy : string;
  name : string;
  fileUrl : string;
}.
End CodeRepository.

Module Task.
Record t := mk {
  id : string;
  projectId : string;
  title : string;
  assignedTo : option string;
  createdBy : string;
  status : string;               (* 'todo', 'in-progress', 'completed' *)
}.
End Task.

Module Contribution.
Record t := mk {
  id : string;
  projectId : string;
  contributorId : string;
  type : string;
  hoursSpent : option Z;
  valueScore : option Z;         (* integer("value_score").default(0) *)
}.
End Contribution.

Module Match.
Record t := mk {
  id : string;
  initiatorId : string;
  receiverId : string;
  status : string;               (* 'pending', 'accepted', 'rejected' *)
  matchType : string;
  matchReason : option string;
  message : option string;
  createdAt : option Z;
  respondedAt : option Z;
}.
End Match.

#[global] Instance profile_eq_dec : EqDecision Profile.t.
Proof. solve_decision. Defined.
#[global] Instance project_eq_dec : EqDecision Project.t.
Proof. solve_decision. Defined.
#[global] Instance member_eq_dec : EqDecision ProjectMember.t.
Proof. solve_decision. Defined.
#[global] Instance task_eq_dec : EqDecision Task.t.
Proof. solve_decision. Defined.
#[global] Instance match_eq_dec : EqDecision Match.t.
Proof. solve_decision. Defined.

(** The database: one list of rows per table. *)
Record Db := mkDb {
  profiles : list Profile.t;
  projects : list Project.t;
  projectMembers : list ProjectMember.t;
  codeRepositories : list CodeRepository.t;
  tasks : list Task.t;
  contributions : list Contribution.t;
  matches : list Match.t;
}.

(** ** Persistence layer ([server/storage.ts], class [DbStorage]) *)

(** The value of a timestamp key of an update: [null]; a [Date], which is
    an invalid date when it has no time; or another JSON value, of which a
    handler sees the truthiness and the time of [new Date(v)], if that is a
    valid date. *)
Inductive TimeValue :=
| TNull
| TDate (time : option Z)
| TJson (truthy : bool) (date : option Z).

(** [InsertMatch]: the match columns a client may supply on creation
    ([id], [createdAt] and [respondedAt] are omitted from the schema). *)
Module InsertMatch.
Record t := mk {
  initiatorId : string;
  receiverId : string;
  status : option string;        (* column default 'pending' *)
  matchType : string;
  matchReason : option string;
  message : option string;
}.
End InsertMatch.

(** The object handed to [updateMatch]: typed [Partial<InsertMatch>], it is
    the body of the request, which is not validated, with its [respondedAt]
    replaced.  It is given by the values of the keys that name a column of
    [matches], [None] for a key it does not have; the statement ignores any
    other key. *)
Module MatchUpdate.
Record t := mk {
  id : option Json.t;
  initiatorId : option Json.t;
  receiverId : option Json.t;
  status : option Json.t;
  matchType : option Json.t;
  matchReason : option Json.t;
  message : option Json.t;
  createdAt : option TimeValue;
  respondedAt : option TimeValue;
}.
End MatchUpdate.

Module Storage.

Definition getProfile (db : Db) (id : string) : option Profile.t :=
  head (filter (λ p, Profile.id p = id) (profiles db)).

(** [user_id] is [unique()], so the [ORDER BY created_at DESC LIMIT 1] of
    the query selects among at most one row. *)
Definition getProfileByUserId (db : Db) (userId : string) : option Profile.t :=
  head (filter (λ p, Profile.userId p = Some userId) (profiles db)).

Definition getAllProfiles (db : Db) : list Profile.t := profiles db.

Definition getProject (db : Db) (id : string) : option Project.t :=
  head (filter (λ p, Project.id p = id) (projects db)).

Definition getProjectsByVibeCoder (db : Db) (vibeCodeId : string) : list Project.t :=
  filter (λ p, Project.vibeCodeId p = vibeCodeId) (projects db).

Definition getProjectMembers (db : Db) (projectId : string) : list ProjectMember.t :=
  filter (λ m, ProjectMember.projectId m = projectId) (projectMembers db).

Definition getProjectMember (db : Db) (id : string) : option ProjectMember.t :=
  head (filter (λ m, ProjectMember.id m = id) (projectMembers db)).

Definition set_hasAccess (b : bool) (m : ProjectMember.t) : ProjectMember.t :=
  ProjectMember.mk (ProjectMember.id m) (ProjectMember.projectId m)
    (ProjectMember.profileId m) (ProjectMember.role m)
    (ProjectMember.compensationType m) (ProjectMember.compensationAmount m)
    (ProjectMember.ownershipPercentage m) b (ProjectMember.joinedAt m).

Definition with_projectMembers (db : Db) (l : list ProjectMember.t) : Db :=
  mkDb (profiles db) (projects db) l (codeRepositories db) (tasks db)
    (contributions db) (matches db).

Definition with_matches (db : Db) (l : list Match.t) : Db :=
  mkDb (profiles db) (projects db) (projectMembers db) (codeRepositories db)
    (tasks db) (contributions db) l.

Definition with_profiles (db : Db) (l : list Profile.t) : Db :=
  mkDb l (projects db) (projectMembers db) (codeRepositories db)
    (tasks db) (contributions db) (matches db).

(** [UPDATE project_members SET has_access = b WHERE id = ... RETURNING *];
    the route passes an object with the single key [hasAccess]. *)
Definition updateProjectMember (db : Db) (id : string) (hasAccess : bool)
  : option ProjectMember.t * Db :=
  let upd m := if decide (ProjectMember.id m = id) then set_hasAccess hasAccess m else m in
  let rows := upd <$> projectMembers db in
  (head (filter (λ m, ProjectMember.id m = id) rows), with_projectMembers db rows).

Definition getCodeRepositoriesByProject (db : Db) (projectId : string) :=
  filter (λ r, CodeRepository.projectId r = projectId) (codeRepositories db).

Definition getTasksByProject (db : Db) (projectId : string) : list Task.t :=
  filter (λ t, Task.projectId t = projectId) (tasks db).

Definition getContributionsByProject (db : Db) (projectId : string) :=
  filter (λ c, Contribution.projectId c = projectId) (contributions db).

(** [WHERE initiator_id = profileId OR receiver_id = profileId]. *)
Definition getMatches (db : Db) (profileId : string) : list Match.t :=
  filter (λ m, Match.initiatorId m = profileId ∨ Match.receiverId m = profileId)
    (matches db).

(** Both profile columns of [matches] reference [profiles.id]. *)
Definition profile_exists (db : Db) (id : string) : bool :=
  bool_decide (Exists (λ p, Profile.id p = id) (profiles db)).

Fixpoint all_spaces (s : string) : bool :=
  match s with
  | EmptyString => true
  | String c r => Ascii.eqb c " " && all_spaces r
  end.

(** What is stored of a string assigned to a [varchar(n)] column: the
    string when it has at most [n] characters, and its first [n] characters
    when those in excess are all spaces; any other string is refused. *)
Fixpoint varchar (n : nat) (s : string) : option string :=
  match s, n with
  | EmptyString, _ => Some EmptyString
  | String c r, S n' => String c <$> varchar n' r
  | String _ _, O => if all_spaces s then Some EmptyString else None
  end.
#[global] Arguments varchar : simpl never.

(** [INSERT INTO matches ... RETURNING *]: [None] when the statement is
    refused, by a foreign key or by the length of [status] or [match_type].
    The fresh [id] and [createdAt] come from the database. *)
Definition createMatch (db : Db) (newId : string) (now : Z) (m : InsertMatch.t)
  : option (Match.t * Db) :=
  if profile_exists db (InsertMatch.initiatorId m) && profile_exists db (InsertMatch.receiverId m)
  then
    status ← varchar 20 (default "pending" (InsertMatch.status m));
    matchType ← varchar 20 (InsertMatch.matchType m);
    let row := Match.mk newId (InsertMatch.initiatorId m) (InsertMatch.receiverId m)
                 status matchType
                 (InsertMatch.matchReason m) (InsertMatch.message m) (Some now) None in
    Some (row, with_matches db (matches db ++ [row]))
  else None.

(** The text sent for a key; [None] when the key is missing or holds
    [null]. *)
Definition sent (v : option Json.t) : option string := v ≫= Json.text.

(** The times [toISOString] writes in the form the database reads: those of
    the years 1 to 9999. *)
Definition min_time : Z := -62135596800000.
Definition max_time : Z := 253402300799999.

(** A timestamp key the driver can send: it calls [toISOString], which a
    value that is no [Date] does not have and which throws for an invalid
    date. *)
Definition encodable (v : option TimeValue) : bool :=
  match v with
  | None | Some TNull => true
  | Some (TDate (Some t)) => (min_time <=? t) && (t <=? max_time)
  | Some (TDate None) | Some (TJson _ _) => false
  end.

(** The text of the key fits a [varchar(20)] column. *)
Definition fits20 (v : option Json.t) : bool :=
  match sent v with
  | Some s => bool_decide (is_Some (varchar 20 s))
  | None => true
  end.

(** What is checked before any row is touched. *)
Definition plannable (u : MatchUpdate.t) : bool :=
  encodable (MatchUpdate.createdAt u) && encodable (MatchUpdate.respondedAt u)
  && fits20 (MatchUpdate.status u) && fits20 (MatchUpdate.matchType u).

(** The key does not set a column that is [NOT NULL] to [null]. *)
Definition not_null (v : option Json.t) : bool := negb (bool_decide (v = Some Json.Null)).

(** The key, if it sets a profile column, names a profile. *)
Definition fk_ok (db : Db) (v : option Json.t) : bool :=
  from_option (profile_exists db) true (sent v).

(** The key, if it sets the primary key, keeps it unique. *)
Definition pk_ok (db : Db) (id : string) (v : option Json.t) : bool :=
  from_option (λ s, bool_decide (s = id ∨ s ∉ Match.id <$> matches db)) true (sent v).

(** What is checked on the row that is updated. *)
Definition constraints_ok (db : Db) (id : string) (u : MatchUpdate.t) : bool :=
  not_null (MatchUpdate.id u) && not_null (MatchUpdate.initiatorId u)
  && not_null (MatchUpdate.receiverId u) && not_null (MatchUpdate.status u)
  && not_null (MatchUpdate.matchType u)
  && fk_ok db (MatchUpdate.initiatorId u) && fk_ok db (MatchUpdate.receiverId u)
  && pk_ok db id (MatchUpdate.id u).

Definition set_time (new : option TimeValue) (old : option Z) : option Z :=
  match new with
  | None => old
  | Some (TDate (Some t)) => Some t
  | Some _ => None
  end.

(** What a statement that has passed the checks writes into a row. *)
Definition apply_update (u : MatchUpdate.t) (m : Match.t) : Match.t :=
  Match.mk
    (default (Match.id m) (sent (MatchUpdate.id u)))
    (default (Match.initiatorId m) (sent (MatchUpdate.initiatorId u)))
    (default (Match.receiverId m) (sent (MatchUpdate.receiverId u)))
    (default (Match.status m) (sent (MatchUpdate.status u) ≫= varchar 20))
    (default (Match.matchType m) (sent (MatchUpdate.matchType u) ≫= varchar 20))
    (from_option Json.text (Match.matchReason m) (MatchUpdate.matchReason u))
    (from_option Json.text (Match.message m) (MatchUpdate.message u))
    (set_time (MatchUpdate.createdAt u) (Match.createdAt m))
    (set_time (MatchUpdate.respondedAt u) (Match.respondedAt m)).

(** The object has none of the keys: there is nothing to put in the [SET]
    clause, and no statement is built. *)
Definition no_values (u : MatchUpdate.t) : bool :=
  match u with
  | MatchUpdate.mk None None None None None None None None None => true
  | _ => false
  end.

(** [UPDATE matches SET ... WHERE id = ... RETURNING *]: the outer [None]
    when the statement cannot be built or sent, or the database refuses it;
    the inner one when no row has the id. *)
Definition updateMatch (db : Db) (id : string) (u : MatchUpdate.t)
  : option (option Match.t * Db) :=
  if no_values u then None
  else if negb (plannable u) then None
  else if negb (bool_decide (Exists (λ m, Match.id m = id) (matches db))) then Some (None, db)
  else if constraints_ok db id u then
    let upd m := if decide (Match.id m = id) then apply_update u m else m in
    Some (head (apply_update u <$> filter (λ m, Match.id m = id) (matches db)),
          with_matches db (upd <$> matches db))
  else None.

End Storage.

(** ** Sorting and slicing, as [Array.prototype.sort] and [slice] do *)

(** [l.sort((a, b) => key(b) - key(a))]: descending in [key], and stable
    (ECMAScript 2019), so equal keys keep their input order.  A stable
    sort has one possible result; insertion sort computes it. *)
Section sort_desc.
Context {A : Type} (key : A → Z).

Fixpoint insert_desc (x : A) (l : list A) : list A :=
  match l with
  | [] => [x]
  | y :: l' => if key x <? key y then y :: insert_desc x l' else x :: y :: l'
  end.

Definition sort_desc (l : list A) : list A := foldr insert_desc [] l.
End sort_desc.

(** [l.slice(0, n)] for an integer [n]: a negative [n] counts from the end. *)
Definition slice0 {A} (l : list A) (n : Z) : list A :=
  if 0 <=? n then take (Z.to_nat n) l
  else take (length l - Z.to_nat (- n)) l.

(** ** Matching service ([server/aiMatchingService.ts]) *)

Module AiMatchingService.

Module MatchCandidate.
Record t := mk {
  profile : Profile.t;
  projects : list Project.t;
}.
End MatchCandidate.

Record MatchResult := mkResult {
  profileId : string;
  matchScore : Z;
  matchReason : string;
  matchType : string;
}.

(** What [await openai.chat.completions.create(...)] does: the promise
    rejects, or it resolves and [choices[0]?.message?.content] is read. *)
Inductive Completion :=
| Rejected
| Resolved (content : option string).

(** What [JSON.parse(content)] followed by [aiResponse.matches || []]
    gives: a syntax error; a value on which the property access or the
    later [.filter] throws a [TypeError]; an object without a truthy
    [matches]; or an array of results. *)
Inductive Parsed :=
| SyntaxError
| NotUsable
| NoMatches
| Matches (l : list MatchResult).

Section service.
(** The text-generation service, as a function of what the prompt is
    built from, and the JSON reader of the run time. *)
Variable create : Profile.t → list Project.t → list MatchCandidate.t → Completion.
Variable JSON_parse : string → Parsed.

Definition post_filter (matches : list MatchResult) (limit : Z) : list MatchResult :=
  slice0 (sort_desc matchScore (filter (λ m, 50 ≤ matchScore m) matches)) limit.

Definition generateMatches (currentUser : Profile.t) (currentUserProjects : list Project.t)
    (candidates : list MatchCandidate.t) (limit : Z) : list MatchResult :=
  match candidates with
  | [] => []
  | _ :: _ =>
      (* try { ... } catch (error) { return []; } *)
      match create currentUser currentUserProjects candidates with
      | Rejected => []
      | Resolved content =>
          if Js.truthy_opt content then
            match JSON_parse (default EmptyString content) with
            | SyntaxError | NotUsable => []
            | NoMatches => post_filter [] limit
            | Matches l => post_filter l limit
            end
          else []
      end
  end.
End service.

End AiMatchingService.

(** ** HTTP handlers ([server/routes.ts]) *)

Module Routes.
Import AiMatchingService.

(** One suggestion of the response: [{ ...match, profile }]. *)
Record Suggestion := mkSuggestion {
  result : MatchResult;
  enriched : option Profile.t;
}.

Inductive Payload :=
| JError (error : string)
| JMember (m : ProjectMember.t)
| JMembers (l : list ProjectMember.t)
| JRepositories (l : list CodeRepository.t)
| JTasks (l : list Task.t)
| JContributions (l : list Contribution.t)
| JMatch (m : Match.t)
| JSuggestions (l : list Suggestion).

Record Response := mkResponse { status : Z; json : Payload }.

(** Calls that leave the handler: statements sent to the database and
    requests to the matching service, in the order they are made. *)
Inductive Event :=
| EGetProfile (id : string)
| EGetProfileByUserId (userId : string)
| EGetAllProfiles
| ECreateProfile (userId : string)
| EGetProject (id : string)
| EGetProjectsByVibeCoder (id : string)
| EGetProjectMembers (projectId : string)
| EGetProjectMember (id : string)
| EUpdateProjectMember (id : string)
| EGetCodeRepositoriesByProject (projectId : string)
| EGetTasksByProject (projectId : string)
| EGetContributionsByProject (projectId : string)
| EGetMatches (profileId : string)
| ECreateMatch
| EUpdateMatch (id : string)
| EGenerateMatches (candidates : list MatchCandidate.t) (limit : Z).

Record World := mkWorld { db : Db; trace : list Event }.

(** A handler body: it answers the request ([return res.status(..)]),
    throws into the enclosing [catch], or goes on with a value. *)
Inductive Step (A : Type) :=
| Reply (r : Response)
| Throw
| Continue (a : A).
Arguments Reply {A} r.
Arguments Throw {A}.
Arguments Continue {A} a.

Definition Handler (A : Type) : Type := World → Step A * World.

#[global] Instance handler_ret : MRet Handler := λ A a w, (Continue a, w).
#[global] Instance handler_bind : MBind Handler := λ A B k m w,
  match m w with
  | (Continue a, w') => k a w'
  | (Reply r, w') => (Reply r, w')
  | (Throw, w') => (Throw, w')
  end.
Definition reply {A} (code : Z) (p : Payload) : Handler A :=
  λ w, (Reply (mkResponse code p), w).
Definition throw {A} : Handler A := λ w, (Throw, w).

(** A read of the database, recorded in the trace. *)
Definition query {A} (e : Event) (f : Db → A) : Handler A :=
  λ w, (Continue (f (db w)), mkWorld (db w) (trace w ++ [e])).
(** A statement that changes the database, or is refused ([None]). *)
Definition exec {A} (e : Event) (f : Db → option (A * Db)) : Handler A :=
  λ w, match f (db w) with
       | Some (a, db') => (Continue a, mkWorld db' (trace w ++ [e]))
       | None => (Throw, mkWorld (db w) (trace w ++ [e]))
       end.

Fixpoint mapM {A B} (f : A → Handler B) (l : list A) : Handler (list B) :=
  match l with
  | [] => mret []
  | x :: l' => y ← f x; ys ← mapM f l'; mret (y :: ys)
  end.

(** [app.verb(path, async (req, res) => { try { body } catch { res.status(code).json(...) } })] *)
Definition route (body : Handler Response) (caught : Response) (w : World)
  : Response * World :=
  match body w with
  | (Continue r, w') => (r, w')
  | (Reply r, w') => (r, w')
  | (Throw, w') => (caught, w')
  end.

Record Request := mkRequest {
  x_user_id : option string;      (* req.headers['x-user-id'] *)
  claims_sub : option string;     (* req.user?.claims?.sub *)
  param : string;                 (* the :id, :projectId or :profileId of the path *)
  query_role : option string;     (* req.query.role *)
  query_limit : option (list N);  (* String(req.query.limit), as code units *)
}.

(** The body of [PATCH /api/project-members/:id] as the client may send
    it; [b_hasAccess] is [None] when the key is missing or not a boolean. *)
Record MemberBody := mkMemberBody {
  b_hasAccess : option bool;
  b_profileId : option string;
  b_projectId : option string;
  b_role : option string;
  b_compensationType : option string;
}.

(** [z.object({ hasAccess: z.boolean() }).parse(body)]: unknown keys are
    stripped, the result has the single key [hasAccess]. *)
Definition updateSchema_parse (body : MemberBody) : option bool := b_hasAccess body.

(** The body of [POST /api/matches]: the values of the keys the schema
    knows, [None] for a key the body does not have.  Other keys are
    stripped; a body that is no object has none of the keys. *)
Record MatchBody := mkMatchBody {
  mb_initiatorId : option Json.t;
  mb_receiverId : option Json.t;
  mb_status : option Json.t;
  mb_matchType : option Json.t;
  mb_matchReason : option Json.t;
  mb_message : option Json.t;
}.

(** [z.string()], with [.max(n)] for a [varchar(n)] column. *)
Definition z_string (max : option nat) (v : option Json.t) : option string :=
  match v with
  | Some (Json.Str s) =>
      match max with
      | Some n => if decide (String.length s ≤ n)%nat then Some s else None
      | None => Some s
      end
  | _ => None
  end.

(** [.optional()], for a column that is not null and has a default. *)
Definition z_optional (max : option nat) (v : option Json.t) : option (option string) :=
  match v with
  | None => Some None
  | Some _ => Some <$> z_string max v
  end.

(** [.nullable().optional()], for a column that may be null. *)
Definition z_nullable (v : option Json.t) : option (option string) :=
  match v with
  | None | Some Json.Null => Some None
  | Some _ => Some <$> z_string None v
  end.

(** [insertMatchSchema.parse(req.body)], [None] when it throws. *)
Definition insertMatchSchema_parse (body : MatchBody) : option InsertMatch.t :=
  initiatorId ← z_string None (mb_initiatorId body);
  receiverId ← z_string None (mb_receiverId body);
  status ← z_optional (Some 20%nat) (mb_status body);
  matchType ← z_string (Some 20%nat) (mb_matchType body);
  matchReason ← z_nullable (mb_matchReason body);
  message ← z_nullable (mb_message body);
  Some (InsertMatch.mk initiatorId receiverId status matchType matchReason message).

Section handlers.
(** [process.env.NODE_ENV]. *)
Variable NODE_ENV : option string.
(** The [isAuthenticated] middleware of [./replitAuth]. *)
Variable isAuthenticated : Request → bool.
(** The row the database returns when [resolveCurrentProfile] inserts a
    profile for a development user, [None] when it refuses the insert. *)
Variable inserted_profile : string → option Profile.t.
(** The matching service's collaborators. *)
Variable create : Profile.t → list Project.t → list MatchCandidate.t → Completion.
Variable JSON_parse : string → Parsed.

Definition devEnv : bool :=
  Js.opt_eq NODE_ENV (Some "development") || Js.opt_eq NODE_ENV (Some "test").

Definition unauthenticated : Response := mkResponse 401 (JError "Unauthorized").

Definition resolveCurrentProfile (req : Request) : Handler (option Profile.t) :=
  let hasDevHeader := Js.truthy_opt (x_user_id req) in
  let allowDevAuth := devEnv || hasDevHeader in
  let userId :=
    if allowDevAuth && Js.truthy_opt (x_user_id req) then x_user_id req
    else if Js.truthy_opt (claims_sub req) then claims_sub req
    else None in
  match userId with
  | None => mret None
  | Some userId =>
      profile ← query (EGetProfileByUserId userId)
                  (λ db, Storage.getProfileByUserId db userId);
      match profile with
      | Some p => mret (Some p)
      | None =>
          if allowDevAuth && hasDevHeader then
            newProfile ← exec (ECreateProfile userId)
              (λ db, row ← inserted_profile userId;
                     Some (row, Storage.with_profiles db (profiles db ++ [row])));
            mret (Some newProfile)
          else mret None
      end
  end.

(** *** Project sub-resources *)

Definition get_project_members (req : Request) : World → Response * World :=
  route (members ← query (EGetProjectMembers (param req))
                     (λ db, Storage.getProjectMembers db (param req));
         mret (mkResponse 200 (JMembers members)))
        (mkResponse 500 (JError "Failed to fetch project members")).

Definition get_project_repositories (req : Request) : World → Response * World :=
  route (repos ← query (EGetCodeRepositoriesByProject (param req))
                   (λ db, Storage.getCodeRepositoriesByProject db (param req));
         mret (mkResponse 200 (JRepositories repos)))
        (mkResponse 500 (JError "Failed to fetch repositories")).

Definition get_project_tasks (req : Request) : World → Response * World :=
  route (tasks ← query (EGetTasksByProject (param req))
                   (λ db, Storage.getTasksByProject db (param req));
         mret (mkResponse 200 (JTasks tasks)))
        (mkResponse 500 (JError "Failed to fetch tasks")).

Definition get_project_contributions (req : Request) : World → Response * World :=
  route (contributions ← query (EGetContributionsByProject (param req))
                           (λ db, Storage.getContributionsByProject db (param req));
         mret (mkResponse 200 (JContributions contributions)))
        (mkResponse 500 (JError "Failed to fetch contributions")).

(** *** [PATCH /api/project-members/:id] *)

Definition patch_project_member (req : Request) (body : MemberBody)
  : World → Response * World :=
  route (
    let currentUserId := x_user_id req in
    if negb (Js.truthy_opt currentUserId) then
      reply 401 (JError "Authentication required")
    else
    match updateSchema_parse body with
    | None => reply 400 (JError "Invalid request data")
    | Some validatedData =>
        memberToUpdate ← query (EGetProjectMember (param req))
                           (λ db, Storage.getProjectMember db (param req));
        match memberToUpdate with
        | None => reply 404 (JError "Member not found")
        | Some memberToUpdate =>
            project ← query (EGetProject (ProjectMember.projectId memberToUpdate))
                        (λ db, Storage.getProject db (ProjectMember.projectId memberToUpdate));
            match project with
            | None => reply 404 (JError "Project not found")
            | Some project =>
                if negb (Js.opt_eq currentUserId (Some (Project.vibeCodeId project))) then
                  reply 403 (JError "Only the project owner can update member access")
                else
                  member ← exec (EUpdateProjectMember (param req))
                             (λ db, Some (Storage.updateProjectMember db (param req) validatedData));
                  match member with
                  | None => reply 404 (JError "Member not found")
                  | Some member => mret (mkResponse 200 (JMember member))
                  end
            end
        end
    end)
    (mkResponse 400 (JError "Failed to update member")).

(** *** [POST /api/matches] *)

Definition is_pending_between (initiatorId receiverId : string) (m : Match.t) : bool :=
  (Js.str_eq (Match.initiatorId m) initiatorId && Js.str_eq (Match.receiverId m) receiverId
     && Js.str_eq (Match.status m) "pending")
  || (Js.str_eq (Match.initiatorId m) receiverId && Js.str_eq (Match.receiverId m) initiatorId
     && Js.str_eq (Match.status m) "pending").

Definition post_match (body : MatchBody) (newId : string) (now : Z)
  : World → Response * World :=
  route (
    match insertMatchSchema_parse body with
    | None => throw
    | Some matchData =>
        existingMatches ← query (EGetMatches (InsertMatch.initiatorId matchData))
                            (λ db, Storage.getMatches db (InsertMatch.initiatorId matchData));
        let hasPendingMatch :=
          existsb (is_pending_between (InsertMatch.initiatorId matchData)
                     (InsertMatch.receiverId matchData)) existingMatches in
        if hasPendingMatch then
          reply 409 (JError "A pending match request already exists between these users")
        else
          match_ ← exec ECreateMatch (λ db, Storage.createMatch db newId now matchData);
          mret (mkResponse 201 (JMatch match_))
    end)
    (mkResponse 400 (JError "Invalid match data")).

(** *** [PATCH /api/matches/:id] *)

(** [req.body.status && req.body.status !== 'pending'] *)
Definition leaves_pending (status : option Json.t) : bool :=
  Json.truthy status && negb (bool_decide (status = Some (Json.Str "pending"))).

(** [if (updateData.respondedAt)] *)
Definition time_truthy (v : option TimeValue) : bool :=
  match v with
  | Some (TDate _) => true
  | Some (TJson truthy _) => truthy
  | Some TNull | None => false
  end.

(** [new Date(v)] *)
Definition new_Date (v : TimeValue) : TimeValue :=
  match v with
  | TJson _ date => TDate date
  | TDate time => TDate time
  | TNull => TDate (Some 0)
  end.

Definition updateData (body : MatchUpdate.t) (now : Z) : MatchUpdate.t :=
  let respondedAt :=
    if time_truthy (MatchUpdate.respondedAt body)
    then new_Date <$> MatchUpdate.respondedAt body
    else if leaves_pending (MatchUpdate.status body) then Some (TDate (Some now))
    else MatchUpdate.respondedAt body in
  MatchUpdate.mk (MatchUpdate.id body) (MatchUpdate.initiatorId body)
    (MatchUpdate.receiverId body) (MatchUpdate.status body) (MatchUpdate.matchType body)
    (MatchUpdate.matchReason body) (MatchUpdate.message body)
    (MatchUpdate.createdAt body) respondedAt.

Definition patch_match (req : Request) (body : MatchUpdate.t) (now : Z)
  : World → Response * World :=
  if negb (isAuthenticated req) then λ w, (unauthenticated, w) else
  route (
    currentProfile ← resolveCurrentProfile req;
    match currentProfile with
    | None => reply 401 (JError "Unauthorized: Profile not found")
    | Some currentProfile =>
        existingMatches ← query (EGetMatches (Profile.id currentProfile))
                            (λ db, Storage.getMatches db (Profile.id currentProfile));
        match head (filter (λ m, Match.id m = param req) existingMatches) with
        | None => reply 404 (JError "Match not found")
        | Some match_ =>
            if leaves_pending (MatchUpdate.status body)
               && negb (Js.str_eq (Match.receiverId match_) (Profile.id currentProfile))
            then reply 403 (JError "Forbidden: Only the match receiver can accept or reject")
            else
              updatedMatch ← exec (EUpdateMatch (param req))
                               (λ db, Storage.updateMatch db (param req) (updateData body now));
              match updatedMatch with
              | None => reply 404 (JError "Match not found")
              | Some m => mret (mkResponse 200 (JMatch m))
              end
        end
    end)
    (mkResponse 400 (JError "Failed to update match")).

(** *** [GET /api/matches/suggestions/:profileId] *)

(** [Math.min(Math.max(1, isNaN(parsedLimit) ? 10 : parsedLimit), 20)]
    with [parsedLimit = limit ? parseInt(limit, 10) : 10]. *)
Definition maxResults (limit : option (list N)) : Z :=
  let parsedLimit :=
    if Js.truthy_units limit then Js.parseInt (default [] limit) else Some 10 in
  Z.min (Z.max 1 (default 10 parsedLimit)) 20.

Definition role_compatible (currentRole role : string) : bool :=
  if Js.str_eq currentRole "coder" then
    Js.str_eq role "investor" || Js.str_eq role "technical"
  else if Js.str_eq currentRole "investor" then Js.str_eq role "coder"
  else if Js.str_eq currentRole "technical" then Js.str_eq role "coder"
  else false.

(** The callback of the first [candidateProfiles.filter]. *)
Definition eligible (currentProfile : Profile.t) (profileId : string)
    (role : option string) (p : Profile.t) : bool :=
  if Js.str_eq (Profile.id p) profileId then false
  else if Js.truthy_opt role && negb (Js.opt_eq (Some (Profile.role p)) role) then false
  else role_compatible (Profile.role currentProfile) (Profile.role p).

Definition existingMatchIds (profileId : string) (existingMatches : list Match.t)
  : gset string :=
  list_to_set ((λ m, if Js.str_eq (Match.initiatorId m) profileId
                     then Match.receiverId m else Match.initiatorId m)
               <$> existingMatches).

(** Both filters of the handler, on the rows it has read. *)
Definition candidateProfiles (currentProfile : Profile.t) (profileId : string)
    (role : option string) (allProfiles : list Profile.t)
    (existingMatches : list Match.t) : list Profile.t :=
  filter (λ p, Profile.id p ∉ existingMatchIds profileId existingMatches)
    (filter (λ p, eligible currentProfile profileId role p) allProfiles).

(** The [score] computed in the [map] before the sort. *)
Definition score (currentProfile candidate : Profile.t) : Z :=
  let userTags : gset string := list_to_set (default [] (Profile.tags currentProfile)) in
  let candidateTags := default [] (Profile.tags candidate) in
  let overlap := length (filter (λ tag, tag ∈ userTags) candidateTags) in
  let score := 0 + Z.of_nat overlap * 10 in
  if Js.truthy_opt (Profile.location currentProfile)
     && Js.opt_eq (Profile.location candidate) (Profile.location currentProfile)
  then score + 5 else score.

Definition rankedCandidates (currentProfile : Profile.t)
    (candidateProfiles : list Profile.t) : list Profile.t :=
  fst <$> slice0 (sort_desc snd ((λ candidate, (candidate, score currentProfile candidate))
                                   <$> candidateProfiles)) 20.

Definition projects_of (profile : Profile.t) : Handler (list Project.t) :=
  if Js.str_eq (Profile.role profile) "coder" then
    query (EGetProjectsByVibeCoder (Profile.id profile))
      (λ db, Storage.getProjectsByVibeCoder db (Profile.id profile))
  else mret [].

Definition call_generateMatches (currentProfile : Profile.t)
    (currentUserProjects : list Project.t) (candidates : list MatchCandidate.t)
    (limit : Z) : Handler (list MatchResult) :=
  λ w, (Continue (generateMatches create JSON_parse currentProfile currentUserProjects
                    candidates limit),
        mkWorld (db w) (trace w ++ [EGenerateMatches candidates limit])).

Definition get_suggestions (req : Request) : World → Response * World :=
  if negb (isAuthenticated req) then λ w, (unauthenticated, w) else
  route (
    let profileId := param req in
    let role := query_role req in
    let currentUserId :=
      if devEnv then x_user_id req
      else if Js.truthy_opt (claims_sub req) then claims_sub req
      else None in
    if negb (Js.truthy_opt currentUserId) then reply 401 (JError "Unauthorized") else
    let userId := default EmptyString currentUserId in
    currentProfile ← query (EGetProfileByUserId userId)
                       (λ db, Storage.getProfileByUserId db userId);
    match currentProfile with
    | None => reply 404 (JError "Profile not found")
    | Some currentProfile =>
        if negb (Js.str_eq (Profile.id currentProfile) profileId) then
          reply 403 (JError "Forbidden: Cannot access another user's suggestions")
        else
          let maxResults := maxResults (query_limit req) in
          currentUserProjects ←
            (if Js.str_eq (Profile.role currentProfile) "coder" then
               query (EGetProjectsByVibeCoder profileId)
                 (λ db, Storage.getProjectsByVibeCoder db profileId)
             else mret []);
          allProfiles ← query EGetAllProfiles Storage.getAllProfiles;
          existingMatches ← query (EGetMatches profileId)
                              (λ db, Storage.getMatches db profileId);
          let rankedCandidates :=
            rankedCandidates currentProfile
              (candidateProfiles currentProfile profileId role allProfiles existingMatches) in
          candidates ← mapM (λ profile, projects ← projects_of profile;
                                        mret (MatchCandidate.mk profile projects))
                         rankedCandidates;
          aiMatches ← call_generateMatches currentProfile currentUserProjects
                        candidates maxResults;
          enrichedMatches ← mapM (λ match_,
                                    profile ← query (EGetProfile (AiMatchingService.profileId match_))
                                                (λ db, Storage.getProfile db
                                                         (AiMatchingService.profileId match_));
                                    mret (mkSuggestion match_ profile))
                              aiMatches;
          mret (mkResponse 200 (JSuggestions enrichedMatches))
    end)
    (mkResponse 500 (JError "Failed to generate match suggestions")).

End handlers.

End Routes.

(** ** Dashboard ([ProjectDashboard], [TasksSection], [TeamSection]) *)

Module Client.

(** *** Access tier, computed in the page from the fetched rows *)

Definition isOwner (currentUserId : string) (project : Project.t) : bool :=
  Js.str_eq currentUserId (Project.vibeCodeId project).

Definition currentMember (currentUserId : string) (members : list ProjectMember.t)
  : option ProjectMember.t :=
  head (filter (λ m, ProjectMember.profileId m = currentUserId) members).

Definition isTeamMember (currentUserId : string) (project : Project.t)
    (members : list ProjectMember.t) : bool :=
  isOwner currentUserId project || bool_decide (is_Some (currentMember currentUserId members)).

(** [isOwner || (currentMember?.hasAccess ?? false)] *)
Definition hasFullAccess (currentUserId : string) (project : Project.t)
    (members : list ProjectMember.t) : bool :=
  isOwner currentUserId project
  || from_option ProjectMember.hasAccess false (currentMember currentUserId members).

(** [TasksSection]: [hasFullAccess ? tasks : tasks.filter(t => t.assignedTo === currentUserId)] *)
Definition visibleTasks (hasFullAccess : bool) (tasks : list Task.t)
    (currentUserId : string) : list Task.t :=
  if hasFullAccess then tasks
  else filter (λ t, Task.assignedTo t = Some currentUserId) tasks.

(** [TeamSection]: [hasFullAccess ? members : members.filter(m => m.profileId === currentUserId)] *)
Definition visibleMembers (hasFullAccess : bool) (members : list ProjectMember.t)
    (currentUserId : string) : list ProjectMember.t :=
  if hasFullAccess then members
  else filter (λ m, ProjectMember.profileId m = currentUserId) members.

(** *** IP value distribution *)

(** [c.valueScore || 0] *)
Definition value_of (c : Contribution.t) : Z := default 0 (Contribution.valueScore c).

(** [contributions?.reduce((sum, c) => sum + (c.valueScore || 0), 0) || 0];
    [contributions] is [undefined] until the query has answered. *)
Definition totalValue (contributions : option (list Contribution.t)) : Z :=
  from_option (foldl (λ sum c, sum + value_of c) 0) 0 contributions.

(** The object built by the second [reduce], a map from contributor id to
    the sum of that contributor's scores. *)
Definition contributorValues (contributions : option (list Contribution.t))
  : gmap string Z :=
  from_option
    (foldl (λ acc c,
              let current := default 0 (acc !! Contribution.contributorId c) in
              <[Contribution.contributorId c := current + value_of c]> acc) ∅)
    ∅ contributions.

Record Share := mkShare {
  contributorId : string;
  percentage : Q;
  value : Z;
}.

(** [Object.entries(contributorValues).map(...)]; the division is the
    exact quotient, which the page computes in double precision. *)
Definition contributorPercentages (contributions : option (list Contribution.t))
  : list Share :=
  let totalValue := totalValue contributions in
  (λ '(id, value),
     mkShare id
       (if 0 <? totalValue then (inject_Z value / inject_Z totalValue * 100)%Q else 0%Q)
       value)
  <$> map_to_list (contributorValues contributions).

End Client.

(** ** Analytics ([server/storage.ts], [GET /api/analytics/overview]) *)

Module Analytics.

(** [SELECT role, cast(count( * ) as integer) FROM profiles GROUP BY role]:
    one row per role that occurs.  The database chooses the order of the
    groups; here it is that of first occurrence. *)
Definition getUserCountByRole (db : Db) : list (string * Z) :=
  (λ role, (role, Z.of_nat (length (filter (λ p, Profile.role p = role) (profiles db)))))
  <$> remove_dups (Profile.role <$> profiles db).

(** [result[0]?.count || 0] of [SELECT count( * ) FROM projects]. *)
Definition getProjectCount (db : Db) : Z := Z.of_nat (length (projects db)).

(** [getMatchCount(status?)]: the rows in that state, all rows when
    [status] is missing or empty. *)
Definition getMatchCount (db : Db) (status : option string) : Z :=
  if Js.truthy_opt status
  then Z.of_nat (length (filter (λ m, Some (Match.status m) = status) (matches db)))
  else Z.of_nat (length (matches db)).

Record Overview := mkOverview {
  totalUsers : Z;
  vibeCoders : Z;
  investors : Z;
  techLeads : Z;
  projectsHosted : Z;
  matchesMade : Z;
  totalConnections : Z;
}.

(** [usersByRole.find(r => r.role === role)?.count || 0] *)
Definition count_of (role : string) (usersByRole : list (string * Z)) : Z :=
  from_option snd 0 (head (filter (λ r, fst r = role) usersByRole)).

(** The object the handler builds from the four answers of the storage. *)
Definition overview_of (usersByRole : list (string * Z))
    (projectCount totalMatches acceptedMatches : Z) : Overview :=
  mkOverview (foldl (λ sum item, sum + snd item) 0 usersByRole)
    (count_of "coder" usersByRole) (count_of "investor" usersByRole)
    (count_of "technical" usersByRole)
    projectCount acceptedMatches totalMatches.

Definition overview (db : Db) : Overview :=
  overview_of (getUserCountByRole db) (getProjectCount db)
    (getMatchCount db None) (getMatchCount db (Some "accepted")).

End Analytics.

(** ** The matches page ([Matches], a reader of [GET /api/matches/:profileId]) *)

Module MatchesPage.

(** [GET /api/matches/:profileId]: the handler answers any caller with the
    rows of [storage.getMatches]. *)
Definition get_matches (req : Routes.Request) (w : Routes.World)
  : (Z * list Match.t) * Routes.World :=
  ((200, Storage.getMatches (Routes.db w) (Routes.param req)),
   Routes.mkWorld (Routes.db w)
     (Routes.trace w ++ [Routes.EGetMatches (Routes.param req)])).

Record EnrichedMatch := mkEnriched {
  row : Match.t;
  initiatorProfile : option Profile.t;
  receiverProfile : option Profile.t;
}.

(** [profiles?.find(p => p.userId === user?.id)] for a signed-in user. *)
Definition currentUserProfile (profiles : list Profile.t) (userId : string)
  : option Profile.t :=
  head (filter (λ p, Profile.userId p = Some userId) profiles).

Definition find_profile (profiles : list Profile.t) (id : string) : option Profile.t :=
  head (filter (λ p, Profile.id p = id) profiles).

Definition enrichedMatches (rawMatches : list Match.t) (profiles : list Profile.t)
  : list EnrichedMatch :=
  (λ m, mkEnriched m (find_profile profiles (Match.initiatorId m))
          (find_profile profiles (Match.receiverId m)))
  <$> rawMatches.

Definition pendingReceived (enriched : list EnrichedMatch) (me : Profile.t)
  : list EnrichedMatch :=
  filter (λ m, Match.status (row m) = "pending" ∧ Match.receiverId (row m) = Profile.id me)
    enriched.

Definition pendingSent (enriched : list EnrichedMatch) (me : Profile.t)
  : list EnrichedMatch :=
  filter (λ m, Match.status (row m) = "pending" ∧ Match.initiatorId (row m) = Profile.id me)
    enriched.

Definition accepted (enriched : list EnrichedMatch) : list EnrichedMatch :=
  filter (λ m, Match.status (row m) = "accepted") enriched.

(** The profile a card shows; without one the card is not drawn. *)
Definition otherProfile (m : EnrichedMatch) (isReceiver : bool) : option Profile.t :=
  if isReceiver then initiatorProfile m else receiverProfile m.

End MatchesPage.

(** ** The task board and progress ([TasksSection], [ProjectDashboard]) *)

Module TaskBoard.

Definition todoTasks (visibleTasks : list Task.t) : list Task.t :=
  filter (λ t, Task.status t = "todo") visibleTasks.
Definition inProgressTasks (visibleTasks : list Task.t) : list Task.t :=
  filter (λ t, Task.status t = "in-progress") visibleTasks.
Definition completedTasks (visibleTasks : list Task.t) : list Task.t :=
  filter (λ t, Task.status t = "completed") visibleTasks.

(** [ProjectDashboard]: [tasks] is [undefined] until the query has answered.
    [tasks?.filter(t => t.status === 'completed').length || 0] *)
Definition completedCount (tasks : option (list Task.t)) : Z :=
  from_option (λ l, Z.of_nat (length (filter (λ t, Task.status t = "completed") l))) 0 tasks.

(** [tasks?.length || 0] *)
Definition totalTasks (tasks : option (list Task.t)) : Z :=
  from_option (λ l, Z.of_nat (length l)) 0 tasks.

(** [totalTasks > 0 ? (completedTasks / totalTasks) * 100 : 0], as an exact
    quotient. *)
Definition taskProgress (tasks : option (list Task.t)) : Q :=
  if 0 <? totalTasks tasks
  then (inject_Z (completedCount tasks) / inject_Z (totalTasks tasks) * 100)%Q
  else 0%Q.

End TaskBoard.

(** ** The profile filter ([FilterSidebar]) *)

Module FilterSidebar.

Record FilterOptions := mkFilters {
  roles : list string;
  skills : list string;
  availability : list string;
}.

(** [l.includes(x) ? l.filter(y => y !== x) : [...l, x]] *)
Definition toggle (x : string) (l : list string) : list string :=
  if bool_decide (x ∈ l) then filter (λ y, y ≠ x) l else l ++ [x].

Definition toggleRole (filters : FilterOptions) (role : string) : FilterOptions :=
  mkFilters (toggle role (roles filters)) (skills filters) (availability filters).

Definition toggleSkill (filters : FilterOptions) (skill : string) : FilterOptions :=
  mkFilters (roles filters) (toggle skill (skills filters)) (availability filters).

Definition clearFilters : FilterOptions := mkFilters [] [] [].

End FilterSidebar.

(** * Vocabulary of the properties *)

Module Spec.
Import Routes AiMatchingService Client.

(** [a] may stand before [b] in a list sorted in descending order of [key]. *)
Definition desc {A : Type} (key : A → Z) (a b : A) : Prop := key b ≤ key a.

(** [h] answers nothing itself: it returns [g db] and leaves the database
    as it is, after the calls [ev db]. *)
Definition reads {A} (h : Handler A) (g : Db → A) (ev : Db → list Event) : Prop :=
  ∀ w, h w = (Continue (g (db w)), mkWorld (db w) (trace w ++ ev (db w))).

Section suggestions.
Variable NODE_ENV : option string.
Variable create : Profile.t → list Project.t → list MatchCandidate.t → Completion.
Variable JSON_parse : string → Parsed.

(** The caller's user id, as the handler derives it from the request. *)
Definition currentUserId (req : Request) : option string :=
  if devEnv NODE_ENV then x_user_id req
  else if Js.truthy_opt (claims_sub req) then claims_sub req
  else None.

(** The profiles left by the two filters, on the rows of [d]. *)
Definition eligibleProfiles (d : Db) (currentProfile : Profile.t) (req : Request)
  : list Profile.t :=
  candidateProfiles currentProfile (param req) (query_role req)
    (Storage.getAllProfiles d) (Storage.getMatches d (param req)).

Definition projects_in (d : Db) (profile : Profile.t) : list Project.t :=
  if Js.str_eq (Profile.role profile) "coder"
  then Storage.getProjectsByVibeCoder d (Profile.id profile) else [].

(** The candidates handed to [generateMatches]. *)
Definition handed (d : Db) (currentProfile : Profile.t) (req : Request)
  : list MatchCandidate.t :=
  (λ p, MatchCandidate.mk p (projects_in d p))
  <$> rankedCandidates currentProfile (eligibleProfiles d currentProfile req).

Definition ownProjects (d : Db) (currentProfile : Profile.t) (req : Request)
  : list Project.t :=
  if Js.str_eq (Profile.role currentProfile) "coder"
  then Storage.getProjectsByVibeCoder d (param req) else [].

Definition aiMatches (d : Db) (currentProfile : Profile.t) (req : Request)
  : list MatchResult :=
  generateMatches create JSON_parse currentProfile (ownProjects d currentProfile req)
    (handed d currentProfile req) (maxResults (query_limit req)).

Definition suggestions (d : Db) (currentProfile : Profile.t) (req : Request)
  : list Suggestion :=
  (λ m, mkSuggestion m (Storage.getProfile d (profileId m)))
  <$> aiMatches d currentProfile req.

Definition projects_events (profile : Profile.t) : list Event :=
  if Js.str_eq (Profile.role profile) "coder"
  then [EGetProjectsByVibeCoder (Profile.id profile)] else [].

(** The calls of a request that is served, after the caller's profile has
    been looked up. *)
Definition pipeline_events (d : Db) (currentProfile : Profile.t) (req : Request)
  : list Event :=
  ((if Js.str_eq (Profile.role currentProfile) "coder"
    then [EGetProjectsByVibeCoder (param req)] else [])
   ++ [EGetAllProfiles; EGetMatches (param req)]
   ++ concat (projects_events
                <$> rankedCandidates currentProfile (eligibleProfiles d currentProfile req))
   ++ [EGenerateMatches (handed d currentProfile req) (maxResults (query_limit req))]
   ++ ((λ m, EGetProfile (profileId m)) <$> aiMatches d currentProfile req))%list.

End suggestions.

(** Some match row, in whatever state, links profiles [a] and [b]. *)
Definition connected (d : Db) (a b : string) : Prop :=
  ∃ m, m ∈ matches d ∧
       ((Match.initiatorId m = a ∧ Match.receiverId m = b)
        ∨ (Match.initiatorId m = b ∧ Match.receiverId m = a)).

(** The role rule: a builder with investors and technical leads, an
    investor with builders, a technical lead with builders. *)
Definition compatible (requester candidate : string) : Prop :=
  (requester = "coder" ∧ (candidate = "investor" ∨ candidate = "technical"))
  ∨ (requester = "investor" ∧ candidate = "coder")
  ∨ (requester = "technical" ∧ candidate = "coder").

(** What is required of a profile [p] suggested to [currentProfile]. *)
Definition acceptable (d : Db) (currentProfile : Profile.t) (req : Request)
    (p : Profile.t) : Prop :=
  Profile.id p ≠ param req
  ∧ ¬ connected d (param req) (Profile.id p)
  ∧ compatible (Profile.role currentProfile) (Profile.role p)
  ∧ (∀ role, query_role req = Some role → role ≠ EmptyString → Profile.role p = role).

(** [id] is the primary key of [profiles]. *)
Definition profiles_keyed (d : Db) : Prop := NoDup (Profile.id <$> profiles d).

Definition is_generate (e : Event) : bool :=
  match e with EGenerateMatches _ _ => true | _ => false end.

(** The database calls that fetch candidates and matches, and the call to the
    matching service. *)
Definition is_pipeline_call (e : Event) : bool :=
  match e with
  | EGetAllProfiles | EGetMatches _ | EGetProjectsByVibeCoder _
  | EGetProfile _ | EGenerateMatches _ _ => true
  | _ => false
  end.

(** What the endpoint guarantees about an answer [l] to [req] in world [w],
    whose final world is [w']: the requester owns the requested profile; one
    call to the matching service was made, with candidates [cands]; each of
    them is [acceptable]; and so is the profile attached to every result that
    names one of them. *)
Definition only_acceptable (req : Request) (w w' : World) (l : list Suggestion) : Prop :=
  ∃ currentProfile cands limit evs,
    currentProfile ∈ profiles (db w)
    ∧ Profile.id currentProfile = param req
    ∧ trace w' = (trace w ++ evs)%list
    ∧ filter is_generate evs = [EGenerateMatches cands limit]
    ∧ (∀ c, c ∈ cands → acceptable (db w) currentProfile req (MatchCandidate.profile c))
    ∧ (cands = [] → l = [])
    ∧ (profiles_keyed (db w) →
       ∀ s, s ∈ l → profileId (result s) ∈ (Profile.id ∘ MatchCandidate.profile <$> cands) →
            ∃ p, enriched s = Some p ∧ acceptable (db w) currentProfile req p).





(** What one request may do, with the calls it makes. *)
Inductive outcome NODE_ENV (isAuthenticated : Request → bool) create JSON_parse
    (req : Request) (d : Db) : Response → list Event → Prop :=
| out_unauthenticated :
    isAuthenticated req = false →
    outcome NODE_ENV isAuthenticated create JSON_parse req d unauthenticated []
| out_unauthorized :
    isAuthenticated req = true → Js.truthy_opt (currentUserId NODE_ENV req) = false →
    outcome NODE_ENV isAuthenticated create JSON_parse req d
      (mkResponse 401 (JError "Unauthorized")) []
| out_not_found u :
    isAuthenticated req = true → currentUserId NODE_ENV req = Some u →
    Js.truthy_str u = true → Storage.getProfileByUserId d u = None →
    outcome NODE_ENV isAuthenticated create JSON_parse req d
      (mkResponse 404 (JError "Profile not found")) [EGetProfileByUserId u]
| out_forbidden u currentProfile :
    isAuthenticated req = true → currentUserId NODE_ENV req = Some u →
    Js.truthy_str u = true → Storage.getProfileByUserId d u = Some currentProfile →
    Profile.id currentProfile ≠ param req →
    outcome NODE_ENV isAuthenticated create JSON_parse req d
      (mkResponse 403 (JError "Forbidden: Cannot access another user's suggestions"))
      [EGetProfileByUserId u]
| out_served u currentProfile :
    isAuthenticated req = true → currentUserId NODE_ENV req = Some u →
    Js.truthy_str u = true → Storage.getProfileByUserId d u = Some currentProfile →
    Profile.id currentProfile = param req →
    outcome NODE_ENV isAuthenticated create JSON_parse req d
      (mkResponse 200 (JSuggestions (suggestions create JSON_parse d currentProfile req)))
      (EGetProfileByUserId u :: pipeline_events create JSON_parse d currentProfile req).

(** The call to the text-generation service fails, returns no content, or
    returns content that is not JSON (or is JSON the handler cannot use). *)
Definition upstream_failure
    (create : Profile.t → list Project.t → list MatchCandidate.t → Completion)
    (JSON_parse : string → Parsed)
    (currentUser : Profile.t) (currentUserProjects : list Project.t)
    (candidates : list MatchCandidate.t) : Prop :=
  match create currentUser currentUserProjects candidates with
  | Rejected => True
  | Resolved None => True
  | Resolved (Some content) =>
      content = EmptyString ∨ JSON_parse content = SyntaxError
      ∨ JSON_parse content = NotUsable
  end.

(** A match row in state 'pending' links [a] and [b], in either direction. *)
Definition pending_between (d : Db) (a b : string) : Prop :=
  ∃ m, m ∈ matches d ∧ Match.status m = "pending"
       ∧ ((Match.initiatorId m = a ∧ Match.receiverId m = b)
          ∨ (Match.initiatorId m = b ∧ Match.receiverId m = a)).

(** [row'] is [row] but for its [hasAccess] flag. *)
Definition same_but_hasAccess (row row' : ProjectMember.t) : Prop :=
  ProjectMember.id row' = ProjectMember.id row
  ∧ ProjectMember.projectId row' = ProjectMember.projectId row
  ∧ ProjectMember.profileId row' = ProjectMember.profileId row
  ∧ ProjectMember.role row' = ProjectMember.role row
  ∧ ProjectMember.compensationType row' = ProjectMember.compensationType row
  ∧ ProjectMember.compensationAmount row' = ProjectMember.compensationAmount row
  ∧ ProjectMember.ownershipPercentage row' = ProjectMember.ownershipPercentage row
  ∧ ProjectMember.joinedAt row' = ProjectMember.joinedAt row.

(** Every table but [project_members] is the same in [d] and [d']. *)
Definition same_but_members (d d' : Db) : Prop :=
  profiles d' = profiles d ∧ projects d' = projects d
  ∧ codeRepositories d' = codeRepositories d ∧ tasks d' = tasks d
  ∧ contributions d' = contributions d ∧ matches d' = matches d.

(** [d'] is [d] with the flag of the rows of id [id] set to [b], each row
    at its place. *)
Definition access_set (id : string) (b : bool) (d d' : Db) : Prop :=
  same_but_members d d'
  ∧ length (projectMembers d') = length (projectMembers d)
  ∧ ∀ i row, projectMembers d !! i = Some row →
      ∃ row', projectMembers d' !! i = Some row'
              ∧ same_but_hasAccess row row'
              ∧ (ProjectMember.id row ≠ id → row' = row)
              ∧ (ProjectMember.id row = id → ProjectMember.hasAccess row' = b).

(** The four ways the handler refuses a request, and the one way it serves it. *)
Inductive member_outcome (req : Request) (body : MemberBody) (d : Db)
  : Response → Db → Prop :=
| mo_unauthenticated :
    Js.truthy_opt (x_user_id req) = false →
    member_outcome req body d (mkResponse 401 (JError "Authentication required")) d
| mo_invalid :
    Js.truthy_opt (x_user_id req) = true → updateSchema_parse body = None →
    member_outcome req body d (mkResponse 400 (JError "Invalid request data")) d
| mo_no_member hasAccess :
    Js.truthy_opt (x_user_id req) = true → updateSchema_parse body = Some hasAccess →
    Storage.getProjectMember d (param req) = None →
    member_outcome req body d (mkResponse 404 (JError "Member not found")) d
| mo_no_project hasAccess member :
    Js.truthy_opt (x_user_id req) = true → updateSchema_parse body = Some hasAccess →
    Storage.getProjectMember d (param req) = Some member →
    Storage.getProject d (ProjectMember.projectId member) = None →
    member_outcome req body d (mkResponse 404 (JError "Project not found")) d
| mo_forbidden hasAccess member project :
    Js.truthy_opt (x_user_id req) = true → updateSchema_parse body = Some hasAccess →
    Storage.getProjectMember d (param req) = Some member →
    Storage.getProject d (ProjectMember.projectId member) = Some project →
    x_user_id req ≠ Some (Project.vibeCodeId project) →
    member_outcome req body d
      (mkResponse 403 (JError "Only the project owner can update member access")) d
| mo_updated hasAccess member project row :
    updateSchema_parse body = Some hasAccess →
    Storage.getProjectMember d (param req) = Some member →
    Storage.getProject d (ProjectMember.projectId member) = Some project →
    x_user_id req = Some (Project.vibeCodeId project) →
    (Storage.updateProjectMember d (param req) hasAccess).1 = Some row →
    member_outcome req body d (mkResponse 200 (JMember row))
      (Storage.updateProjectMember d (param req) hasAccess).2.

(** What is claimed of the answer [r] and final world [w'] of a member-access
    request: it succeeds only for the owner of the member's project and then
    sets the flag of the addressed row and nothing else; any other answer
    leaves the database as it was; and a well-formed request by someone
    else, for an existing member of an existing project, is answered 403. *)
Definition owner_only (req : Request) (body : MemberBody) (w : World)
    (r : Response) (w' : World) : Prop :=
  (status r = 200 →
   ∃ member project hasAccess,
     Storage.getProjectMember (db w) (param req) = Some member
     ∧ Storage.getProject (db w) (ProjectMember.projectId member) = Some project
     ∧ x_user_id req = Some (Project.vibeCodeId project)
     ∧ b_hasAccess body = Some hasAccess
     ∧ access_set (param req) hasAccess (db w) (db w'))
  ∧ (status r ≠ 200 → db w' = db w)
  ∧ (∀ caller hasAccess member project,
       x_user_id req = Some caller → caller ≠ EmptyString →
       b_hasAccess body = Some hasAccess →
       Storage.getProjectMember (db w) (param req) = Some member →
       Storage.getProject (db w) (ProjectMember.projectId member) = Some project →
       (caller ≠ Project.vibeCodeId project →
        r = mkResponse 403 (JError "Only the project owner can update member access")
        ∧ db w' = db w)
       ∧ (caller = Project.vibeCodeId project → status r = 200)).

(** [id] is the primary key of [matches]. *)
Definition matches_keyed (d : Db) : Prop := NoDup (Match.id <$> matches d).

(** The statement of [updateMatch], applied to each row. *)
Definition updated (id : string) (u : MatchUpdate.t) (x : Match.t) : Match.t :=
  if decide (Match.id x = id) then Storage.apply_update u x else x.

(** The body asks for a status that is no falsy value and is not
    'pending': a string other than the empty one and 'pending', or a
    boolean, number, array or object that is truthy. *)
Definition asks_other_status (body : MatchUpdate.t) : Prop :=
  (∃ s, MatchUpdate.status body = Some (Json.Str s) ∧ s ≠ EmptyString ∧ s ≠ "pending")
  ∨ (∃ text, MatchUpdate.status body = Some (Json.Other true text)).

(** The body has no [respondedAt], or one that is falsy. *)
Definition no_response_time (body : MatchUpdate.t) : Prop :=
  MatchUpdate.respondedAt body = None ∨ MatchUpdate.respondedAt body = Some TNull
  ∨ ∃ date, MatchUpdate.respondedAt body = Some (TJson false date).

(** What is claimed of the answer [r] and the final world [w'] when the
    caller [currentProfile] patches the match row [m] with [body] at time
    [now]: an answer other than 200 leaves the match rows as they were; a
    caller who is no party to the match is answered 404; a request that asks
    for another status succeeds only for the receiver, and is answered 403
    for an initiator who is not the receiver; and on success the row is
    replaced by a row [m'] whose status and response time are as stated. *)
Definition receiver_rule (currentProfile : Profile.t) (m : Match.t) (body : MatchUpdate.t)
    (now : Z) (w : World) (r : Response) (w' : World) : Prop :=
  (status r ≠ 200 → matches (db w') = matches (db w))
  ∧ (Match.initiatorId m ≠ Profile.id currentProfile →
     Match.receiverId m ≠ Profile.id currentProfile → status r = 404)
  ∧ (asks_other_status body →
     (status r = 200 → Match.receiverId m = Profile.id currentProfile)
     ∧ (Match.initiatorId m = Profile.id currentProfile →
        Match.receiverId m ≠ Profile.id currentProfile → status r = 403))
  ∧ (status r = 200 →
     ∃ m',
       r = mkResponse 200 (JMatch m')
       ∧ m' = Storage.apply_update (updateData body now) m
       ∧ matches (db w') = updated (Match.id m) (updateData body now) <$> matches (db w)
       ∧ (MatchUpdate.status body = None → Match.status m' = Match.status m)
       ∧ (∀ s, MatchUpdate.status body = Some (Json.Str s) → (String.length s ≤ 20)%nat →
               Match.status m' = s)
       ∧ (∀ t, MatchUpdate.respondedAt body = Some (TJson true (Some t)) →
               Match.respondedAt m' = Some t)
       ∧ MatchUpdate.respondedAt body ≠ Some (TJson true None)
       ∧ (no_response_time body → asks_other_status body → Match.respondedAt m' = Some now)
       ∧ (¬ asks_other_status body →
          (MatchUpdate.respondedAt body = None → Match.respondedAt m' = Match.respondedAt m)
          ∧ (MatchUpdate.respondedAt body = Some TNull → Match.respondedAt m' = None)
          ∧ ∀ date, MatchUpdate.respondedAt body ≠ Some (TJson false date))).

Definition Zsum (l : list Z) : Z := foldr Z.add 0 l.

(** The scores a contributor has earned, a missing score counting 0. *)
Definition earned (id : string) (cs : list Contribution.t) : Z :=
  Zsum (value_of <$> filter (λ c, Contribution.contributorId c = id) cs).

Definition step (acc : gmap string Z) (c : Contribution.t) : gmap string Z :=
  <[Contribution.contributorId c :=
      default 0 (acc !! Contribution.contributorId c) + value_of c]> acc.

(** The characters that may stand before a number (the white space and
    line terminators of ECMAScript), as code units. *)
Definition white_space : list N :=
  [9; 10; 11; 12; 13; 32; 160; 5760; 8192; 8193; 8194; 8195; 8196; 8197; 8198;
   8199; 8200; 8201; 8202; 8232; 8233; 8239; 8287; 12288; 65279]%N.

Definition is_space (c : N) : Prop := c ∈ white_space.
Definition is_digit (c : N) : Prop := (48 ≤ c ≤ 57)%N.
Definition is_sign (c : N) : Prop := c = 45%N ∨ c = 43%N.

(** The number a string of decimal digits denotes. *)
Definition decimal (ds : list N) : Z := foldl (λ n c, 10 * n + (Z.of_N c - 48)) 0 ds.

Definition starts_with (P : N → Prop) (s : list N) : Prop :=
  match s with c :: _ => P c | [] => False end.

(** [s] reads as white space [ws], an optional sign, digits [ds] and a rest
    that begins with no digit; when there is neither sign nor digit, the
    rest begins with no white space or sign either. *)
Definition reads_as_number (s ws sign ds rest : list N) : Prop :=
  s = (ws ++ sign ++ ds ++ rest)%list
  ∧ Forall is_space ws
  ∧ (sign = [] ∨ sign = [45%N] ∨ sign = [43%N])
  ∧ Forall is_digit ds
  ∧ ¬ starts_with is_digit rest
  ∧ (sign = [] → ds = [] → ¬ starts_with (λ c, is_space c ∨ is_sign c) rest).

(** The limit claimed for a parameter that reads so: 10 without digits,
    and otherwise the number, clamped to [1, 20]. *)
Definition claimed_limit (sign ds : list N) : Z :=
  match ds with
  | [] => 10
  | _ :: _ =>
      Z.min (Z.max 1 (if decide (sign = [45%N]) then - decimal ds else decimal ds)) 20
  end.

End Spec.

(** * Vocabulary of the further properties *)

Module SpecMore.
Import Routes AiMatchingService Client Spec.

(** The statement of [updateProjectMember], applied to each row. *)
Definition set_access (id : string) (b : bool) (m : ProjectMember.t) : ProjectMember.t :=
  if decide (ProjectMember.id m = id) then Storage.set_hasAccess b m else m.

(** What the request schema of [POST /api/matches] requires of a body, and
    the values [md] it passes on: strings for the two profiles and the match
    type, the latter of at most 20 characters; a status that is missing or a
    string of at most 20 characters; a reason and a message that are
    missing, [null] or strings. *)
Definition accepted_body (body : MatchBody) (md : InsertMatch.t) : Prop :=
  mb_initiatorId body = Some (Json.Str (InsertMatch.initiatorId md))
  ∧ mb_receiverId body = Some (Json.Str (InsertMatch.receiverId md))
  ∧ match InsertMatch.status md with
    | Some s => mb_status body = Some (Json.Str s) ∧ (String.length s ≤ 20)%nat
    | None => mb_status body = None
    end
  ∧ (mb_matchType body = Some (Json.Str (InsertMatch.matchType md))
     ∧ (String.length (InsertMatch.matchType md) ≤ 20)%nat)
  ∧ match InsertMatch.matchReason md with
    | Some s => mb_matchReason body = Some (Json.Str s)
    | None => mb_matchReason body = None ∨ mb_matchReason body = Some Json.Null
    end
  ∧ match InsertMatch.message md with
    | Some s => mb_message body = Some (Json.Str s)
    | None => mb_message body = None ∨ mb_message body = Some Json.Null
    end.

(** The id a match row of id [id] has after an update: the text of the
    [id] key of the update object, if it has one that is not [null]. *)
Definition new_id (id : string) (u : MatchUpdate.t) : string :=
  match MatchUpdate.id u with
  | Some (Json.Str s) | Some (Json.Other _ s) => s
  | Some Json.Null | None => id
  end.


(** The statements that change the database. *)
Definition is_write (e : Event) : bool :=
  match e with
  | ECreateProfile _ | EUpdateProjectMember _ | ECreateMatch | EUpdateMatch _ => true
  | _ => false
  end.

(** A task in one of the three states the board has a column for. *)
Definition on_board (t : Task.t) : Prop :=
  Task.status t = "todo" ∨ Task.status t = "in-progress" ∨ Task.status t = "completed".


(** The number of profiles with a role. *)
Definition has_role (role : string) (db : Db) : Z :=
  Z.of_nat (length (filter (λ p, Profile.role p = role) (profiles db))).

(** Two requests that differ at most in the [x-user-id] header. *)
Definition same_but_header (req req' : Request) : Prop :=
  claims_sub req = claims_sub req' ∧ param req = param req'
  ∧ query_role req = query_role req' ∧ query_limit req = query_limit req'.

End SpecMore.

(** * A small database, used to evaluate the handlers *)

Module Demo.
Import Routes AiMatchingService.

Definition alice : Profile.t :=
  Profile.mk "p-alice" (Some "u-alice") "Alice" "coder" None None
    (Some "Berlin") (Some ["React"; "AI"]).
Definition bob : Profile.t :=
  Profile.mk "p-bob" (Some "u-bob") "Bob" "investor" None None
    (Some "Berlin") (Some ["AI"; "SaaS"]).
Definition carol : Profile.t :=
  Profile.mk "p-carol" (Some "u-carol") "Carol" "investor" None None
    (Some "Paris") (Some ["Mobile"]).
Definition dave : Profile.t :=
  Profile.mk "p-dave" (Some "u-dave") "Dave" "technical" None None None None.
Definition erin : Profile.t :=
  Profile.mk "p-erin" (Some "u-erin") "Erin" "coder" None None None None.


(** A profile whose tag list repeats a tag. *)
Definition heidi : Profile.t :=
  Profile.mk "p-heidi" (Some "u-heidi") "Heidi" "investor" None None
    None (Some ["AI"; "AI"]).

Definition atlas : Project.t :=
  Project.mk "prj-atlas" "Atlas" None "p-alice" "active".

Definition dave_member : ProjectMember.t :=
  ProjectMember.mk "mem-dave" "prj-atlas" "p-dave" "technical" "ownership"
    None (Some "5.00") false None.
Definition bob_member : ProjectMember.t :=
  ProjectMember.mk "mem-bob" "prj-atlas" "p-bob" "investor" "money"
    (Some "1000.00") None true None.

Definition task_dave : Task.t :=
  Task.mk "t1" "prj-atlas" "Set up CI" (Some "p-dave") "p-alice" "todo".
Definition task_bob : Task.t :=
  Task.mk "t2" "prj-atlas" "Review term sheet" (Some "p-bob") "p-alice" "todo".

(** Alice has asked Dave to connect; Dave has not answered. *)
Definition alice_dave : Match.t :=
  Match.mk "m1" "p-alice" "p-dave" "pending" "technical" None None (Some 1000) None.

Definition store : Db :=
  mkDb [alice; bob; carol; dave; erin] [atlas] [dave_member; bob_member] []
    [task_dave; task_bob] [] [alice_dave].

Definition world : World := mkWorld store [].

Definition NODE_ENV : option string := Some "development".
Definition isAuthenticated (_ : Request) : bool := true.
Definition no_insert (_ : string) : option Profile.t := None.

(** A request made with the development header of user [u]. *)
Definition request (u path : string) : Request := mkRequest (Some u) None path None None.

(** A service that answers with the text [reply], and a reader that
    understands it as the result list [answer]. *)
Definition create (_ : Profile.t) (_ : list Project.t) (_ : list MatchCandidate.t)
  : Completion := Resolved (Some "reply").
Definition reads_as (answer : list MatchResult) (_ : string) : Parsed := Matches answer.

Definition alice_request : Request := request "u-alice" "p-alice".
Definition answer_bob : list MatchResult :=
  [mkResult "p-bob" 85 "shared interest in AI" "investment"].
Definition answer_self : list MatchResult :=
  [mkResult "p-alice" 90 "self" "collaboration";
   mkResult "p-dave" 80 "connected" "technical"].
Definition bob_asks_for_alice : Request := request "u-bob" "p-alice".
(** Alice's request with [?role=], the parameter present and empty. *)
Definition alice_request_empty_role : Request :=
  mkRequest (Some "u-alice") None "p-alice" (Some EmptyString) None.

(** Erin is no member of Atlas, Dave is a member without access. *)
Definition erin_reads_atlas : Request := request "p-erin" "prj-atlas".
Definition dave_reads_atlas : Request := request "p-dave" "prj-atlas".

(** One contribution with a negative score. *)
Definition debit : option (list Contribution.t) :=
  Some [Contribution.mk "c1" "prj-atlas" "p-dave" "code" None (Some (-5))].
(** Two contributors; one score is missing. *)
Definition ledger : option (list Contribution.t) :=
  Some [Contribution.mk "c1" "prj-atlas" "p-dave" "code" (Some 4) (Some 30);
        Contribution.mk "c2" "prj-atlas" "p-bob" "funding" None (Some 10);
        Contribution.mk "c3" "prj-atlas" "p-dave" "design" None None].

(** Requests on Alice's pending request to Dave, and bodies for them. *)
Definition alice_on_m1 : Request := request "u-alice" "m1".
Definition bob_on_m1 : Request := request "u-bob" "m1".
Definition dave_on_m1 : Request := request "u-dave" "m1".
(** [{ respondedAt: 1500 }], [{ status: 'accepted' }], [{ status: 'rejected' }],
    [{ status: '' }] and [{ status: 'accepted', id: 'm-hijack' }]. *)
Definition stamp : MatchUpdate.t :=
  MatchUpdate.mk None None None None None None None None (Some (TJson true (Some 1500))).
Definition accept : MatchUpdate.t :=
  MatchUpdate.mk None None None (Some (Json.Str "accepted")) None None None None None.
Definition reject : MatchUpdate.t :=
  MatchUpdate.mk None None None (Some (Json.Str "rejected")) None None None None None.
Definition blank : MatchUpdate.t :=
  MatchUpdate.mk None None None (Some (Json.Str EmptyString)) None None None None None.
Definition hijack : MatchUpdate.t :=
  MatchUpdate.mk (Some (Json.Str "m-hijack")) None None (Some (Json.Str "accepted"))
    None None None None None.
Definition patch (req : Request) (body : MatchUpdate.t) (now : Z) (w : World)
  : Response * World :=
  patch_match NODE_ENV isAuthenticated no_insert req body now w.
Definition accepted_at (t : Z) : Match.t :=
  Match.mk "m1" "p-alice" "p-dave" "accepted" "technical" None None (Some 1000) (Some t).

(** The owner's page sends the owner's profile id in the header. *)
Definition alice_grants_dave : Request := request "p-alice" "mem-dave".
Definition bob_grants_dave : Request := request "p-bob" "mem-dave".
Definition grant : MemberBody := mkMemberBody (Some true) None None (Some "investor") None.

(** Dave, who has a pending request from Alice, asks Alice to connect. *)
Definition dave_asks_alice : MatchBody :=
  mkMatchBody (Some (Json.Str "p-dave")) (Some (Json.Str "p-alice")) None
    (Some (Json.Str "technical")) None None.
Definition dave_asks_alice_data : InsertMatch.t :=
  InsertMatch.mk "p-dave" "p-alice" None "technical" None None.

(** Bob asks Alice to connect. *)
Definition bob_asks_alice : MatchBody :=
  mkMatchBody (Some (Json.Str "p-bob")) (Some (Json.Str "p-alice")) None
    (Some (Json.Str "investment")) None None.
Definition bob_asks_alice_data : InsertMatch.t :=
  InsertMatch.mk "p-bob" "p-alice" None "investment" None None.
Definition bob_alice : Match.t :=
  Match.mk "m2" "p-bob" "p-alice" "pending" "investment" None None (Some 2000) None.
Definition run_suggestions (answer : list MatchResult) : Response * World :=
  get_suggestions NODE_ENV isAuthenticated create (reads_as answer) alice_request world.

(** Alice's request with [?limit=%202nd]. *)
Definition alice_request_limit : Request :=
  mkRequest (Some "u-alice") None "p-alice" None (Some (Js.units " 2nd")).
(** An answer with three scores of 50 or more, and one below. *)
Definition answer_four : list MatchResult :=
  [mkResult "p-carol" 60 "investor" "investment";
   mkResult "p-dave" 45 "weak" "technical";
   mkResult "p-bob" 85 "shared interest in AI" "investment";
   mkResult "p-erin" 70 "builder" "collaboration"].

(** An answer with a score below 50, in no particular order. *)
Definition answer_mixed : list MatchResult :=
  [mkResult "p-carol" 60 "investor" "investment";
   mkResult "p-dave" 45 "weak" "technical";
   mkResult "p-bob" 85 "shared interest in AI" "investment"].
(** A service that cannot be reached. *)
Definition unreachable (_ : Profile.t) (_ : list Project.t) (_ : list MatchCandidate.t)
  : Completion := Rejected.
(** What Alice's request hands to the service, and the calls it makes. *)
Definition alice_candidates : list MatchCandidate.t :=
  [MatchCandidate.mk bob []; MatchCandidate.mk carol []].

End Demo.

(** * Properties *)

Import Spec.

(** ** The stable descending sort *)

Section sort_desc_facts.
Context {A : Type} (key : A → Z).

Lemma insert_desc_perm x l : insert_desc key x l ≡ₚ x :: l.
Proof.
  induction l as [|y l IH]; simpl; [done|].
  destruct (key x <? key y); [|done].
  by rewrite IH, Permutation_swap.
Qed.

Lemma sort_desc_perm l : sort_desc key l ≡ₚ l.
Proof.
  induction l as [|x l IH]; simpl; [done|].
  by rewrite insert_desc_perm, IH.
Qed.


Lemma insert_desc_sorted x l :
  StronglySorted (desc key) l → StronglySorted (desc key) (insert_desc key x l).
Proof.
  induction 1 as [|y l Hl IH Hy]; simpl.
  - repeat constructor.
  - destruct (key x <? key y) eqn:E.
    + apply Z.ltb_lt in E. constructor; [done|].
      rewrite insert_desc_perm. constructor; [unfold desc; lia | done].
    + apply Z.ltb_ge in E. constructor; [by constructor|].
      constructor; [done|].
      eapply Forall_impl; [exact Hy|]. unfold desc. intros; lia.
Qed.

Lemma sort_desc_sorted l : StronglySorted (desc key) (sort_desc key l).
Proof.
  induction l as [|x l IH]; simpl; [constructor | by apply insert_desc_sorted].
Qed.

(** Stability: the elements of any one key keep their input order. *)
Lemma insert_desc_stable k x l :
  StronglySorted (desc key) l →
  filter (λ a, key a = k) (insert_desc key x l) = filter (λ a, key a = k) (x :: l).
Proof.
  induction 1 as [|y l Hl IH Hy]; simpl; [done|].
  destruct (key x <? key y) eqn:E; [|done].
  apply Z.ltb_lt in E.
  rewrite !filter_cons. rewrite IH. rewrite filter_cons.
  destruct (decide (key y = k)), (decide (key x = k)); try done; lia.
Qed.

Lemma sort_desc_stable k l :
  filter (λ a, key a = k) (sort_desc key l) = filter (λ a, key a = k) l.
Proof.
  induction l as [|x l IH]; simpl; [done|].
  rewrite insert_desc_stable by apply sort_desc_sorted.
  by rewrite !filter_cons, IH.
Qed.


Lemma sorted_take n l : StronglySorted (desc key) l → StronglySorted (desc key) (take n l).
Proof.
  intros Hs. rewrite <- (take_drop n l) in Hs.
  by apply StronglySorted_app_1_l in Hs.
Qed.
End sort_desc_facts.

Lemma slice0_take {A} (l : list A) (n : Z) : 0 ≤ n → slice0 l n = take (Z.to_nat n) l.
Proof. intros Hn. unfold slice0. by rewrite (proj2 (Z.leb_le 0 n)). Qed.

(** ** Handlers that only read *)

Module HandlerFacts.
Import Routes.

Lemma reads_ret {A} (a : A) : reads (mret a) (λ _, a) (λ _, []).
Proof. intros [d t]. unfold mret, handler_ret. simpl. by rewrite app_nil_r. Qed.

Lemma reads_query {A} e (f : Db → A) : reads (query e f) f (λ _, [e]).
Proof. by intros [d t]. Qed.

Lemma reads_bind {A B} (m : Handler A) (k : A → Handler B) g ev g' ev' :
  reads m g ev → (∀ a, reads (k a) (g' a) (ev' a)) →
  reads (m ≫= k) (λ d, g' (g d) d) (λ d, (ev d ++ ev' (g d) d)%list).
Proof.
  intros Hm Hk w. unfold mbind, handler_bind. rewrite Hm, Hk. simpl.
  by rewrite app_assoc.
Qed.

Lemma reads_mapM {A B} (f : A → Handler B) g ev l :
  (∀ x, reads (f x) (g x) (ev x)) →
  reads (mapM f l) (λ d, (λ x, g x d) <$> l) (λ d, concat ((λ x, ev x d) <$> l)).
Proof.
  intros Hf. induction l as [|x l IH]; simpl.
  - apply reads_ret.
  - intros w. unfold mbind, handler_bind. rewrite Hf, IH. simpl.
    unfold mret, handler_ret. simpl. by rewrite app_assoc.
Qed.

End HandlerFacts.

(** ** The suggestion endpoint in closed form *)

Module SuggestionFacts.
Import Routes AiMatchingService HandlerFacts.

Section suggestions.
Variable NODE_ENV : option string.
Variable isAuthenticated : Request → bool.
Variable create : Profile.t → list Project.t → list MatchCandidate.t → Completion.
Variable JSON_parse : string → Parsed.

Lemma reads_projects_of profile :
  reads (projects_of profile) (λ d, projects_in d profile) (λ _, projects_events profile).
Proof.
  unfold projects_of, projects_in, projects_events.
  destruct (Js.str_eq _ _); [apply reads_query | apply reads_ret].
Qed.

Lemma bind_reads {A B} (m : Handler A) (k : A → Handler B) g ev w :
  reads m g ev → (m ≫= k) w = k (g (db w)) (mkWorld (db w) (trace w ++ ev (db w))).
Proof. intros H. unfold mbind, handler_bind. by rewrite H. Qed.

Lemma route_query {A} e (f : Db → A) (k : A → Handler Response) c w :
  route (query e f ≫= k) c w
  = route (k (f (db w))) c (mkWorld (db w) (trace w ++ [e])).
Proof. done. Qed.

Lemma reads_ownProjects currentProfile req :
  reads (if Js.str_eq (Profile.role currentProfile) "coder"
         then query (EGetProjectsByVibeCoder (param req))
                (λ d, Storage.getProjectsByVibeCoder d (param req))
         else mret [])
    (λ d, ownProjects d currentProfile req)
    (λ _, if Js.str_eq (Profile.role currentProfile) "coder"
          then [EGetProjectsByVibeCoder (param req)] else []).
Proof.
  unfold ownProjects.
  destruct (Js.str_eq _ _); [apply reads_query | apply reads_ret].
Qed.

Lemma reads_candidates l :
  reads (mapM (λ profile, projects ← projects_of profile;
                          mret (MatchCandidate.mk profile projects)) l)
    (λ d, (λ p, MatchCandidate.mk p (projects_in d p)) <$> l)
    (λ _, concat (projects_events <$> l)).
Proof.
  apply (reads_mapM _ (λ p d, MatchCandidate.mk p (projects_in d p)) (λ p _, projects_events p)).
  intros profile w. erewrite bind_reads by apply reads_projects_of.
  unfold mret, handler_ret. done.
Qed.

Lemma reads_enrich (l : list MatchResult) :
  reads (mapM (λ match_,
                 profile ← query (EGetProfile (profileId match_))
                             (λ d, Storage.getProfile d (profileId match_));
                 mret (mkSuggestion match_ profile)) l)
    (λ d, (λ m, mkSuggestion m (Storage.getProfile d (profileId m))) <$> l)
    (λ _, (λ m, EGetProfile (profileId m)) <$> l).
Proof.
  intros w.
  rewrite (reads_mapM _ (λ m d, mkSuggestion m (Storage.getProfile d (profileId m)))
             (λ m _, [EGetProfile (profileId m)])).
  - do 3 f_equal. cbn beta.
    induction l as [|m l IH]; [done|]. rewrite !fmap_cons. simpl. by rewrite IH.
  - intros m w'. erewrite bind_reads by apply reads_query. done.
Qed.

Lemma get_suggestions_served req w u currentProfile :
  isAuthenticated req = true →
  currentUserId NODE_ENV req = Some u → Js.truthy_str u = true →
  Storage.getProfileByUserId (db w) u = Some currentProfile →
  Profile.id currentProfile = param req →
  get_suggestions NODE_ENV isAuthenticated create JSON_parse req w
  = (mkResponse 200 (JSuggestions (suggestions create JSON_parse (db w) currentProfile req)),
     mkWorld (db w) (trace w ++ EGetProfileByUserId u
                                 :: pipeline_events create JSON_parse (db w) currentProfile req)).
Proof.
  intros Hauth Hu Ht Hp Hid.
  unfold get_suggestions. rewrite Hauth. cbn [negb]. cbv zeta.
  fold (currentUserId NODE_ENV req). rewrite Hu.
  cbn [Js.truthy_opt default from_option id]. rewrite Ht. cbn [negb].
  rewrite route_query. rewrite Hp.
  unfold Js.str_eq at 1. rewrite bool_decide_eq_true_2 by done. cbn [negb].
  unfold route.
  erewrite bind_reads by apply reads_ownProjects. cbn [db trace].
  erewrite bind_reads by apply reads_query. cbn [db trace].
  erewrite bind_reads by apply reads_query. cbn [db trace].
  erewrite bind_reads by apply reads_candidates. cbn [db trace].
  unfold mbind at 1, handler_bind at 1, call_generateMatches at 1. cbn [db trace].
  erewrite bind_reads by apply reads_enrich. cbn [db trace].
  unfold mret, handler_ret, suggestions, aiMatches, handed, eligibleProfiles, pipeline_events.
  f_equal. f_equal. rewrite <- !app_assoc. done.
Qed.

(** Every answer of the endpoint that carries suggestions was served along
    the path of [get_suggestions_served]. *)
Lemma get_suggestions_inv req w l :
  json (get_suggestions NODE_ENV isAuthenticated create JSON_parse req w).1 = JSuggestions l →
  ∃ u currentProfile,
    isAuthenticated req = true ∧ currentUserId NODE_ENV req = Some u ∧ Js.truthy_str u = true ∧
    Storage.getProfileByUserId (db w) u = Some currentProfile ∧
    Profile.id currentProfile = param req ∧
    l = suggestions create JSON_parse (db w) currentProfile req.
Proof.
  destruct (isAuthenticated req) eqn:Hauth.
  2:{ unfold get_suggestions. rewrite Hauth. simpl. discriminate. }
  destruct (currentUserId NODE_ENV req) as [u|] eqn:Hu.
  2:{ unfold get_suggestions. rewrite Hauth. cbn [negb]. cbv zeta.
      fold (currentUserId NODE_ENV req). rewrite Hu. simpl. discriminate. }
  destruct (Js.truthy_str u) eqn:Ht.
  2:{ unfold get_suggestions. rewrite Hauth. cbn [negb]. cbv zeta.
      fold (currentUserId NODE_ENV req). rewrite Hu. cbn [Js.truthy_opt]. rewrite Ht.
      simpl. discriminate. }
  destruct (Storage.getProfileByUserId (db w) u) as [cp|] eqn:Hp.
  2:{ unfold get_suggestions. rewrite Hauth. cbn [negb]. cbv zeta.
      fold (currentUserId NODE_ENV req). rewrite Hu.
      cbn [Js.truthy_opt default from_option id]. rewrite Ht. cbn [negb].
      rewrite route_query, Hp. simpl. discriminate. }
  destruct (decide (Profile.id cp = param req)) as [Hid|Hid].
  2:{ unfold get_suggestions. rewrite Hauth. cbn [negb]. cbv zeta.
      fold (currentUserId NODE_ENV req). rewrite Hu.
      cbn [Js.truthy_opt default from_option id]. rewrite Ht. cbn [negb].
      rewrite route_query, Hp.
      unfold Js.str_eq at 1. rewrite bool_decide_eq_false_2 by done.
      simpl. discriminate. }
  rewrite (get_suggestions_served req w u cp) by done. simpl.
  intros [= <-]. by exists u, cp.
Qed.

(** The caller is not the owner of the requested profile: the lookup of the
    caller's profile is the only call made. *)
Lemma get_suggestions_403 req w u currentProfile :
  isAuthenticated req = true →
  currentUserId NODE_ENV req = Some u → Js.truthy_str u = true →
  Storage.getProfileByUserId (db w) u = Some currentProfile →
  Profile.id currentProfile ≠ param req →
  get_suggestions NODE_ENV isAuthenticated create JSON_parse req w
  = (mkResponse 403 (JError "Forbidden: Cannot access another user's suggestions"),
     mkWorld (db w) (trace w ++ [EGetProfileByUserId u])).
Proof.
  intros Hauth Hu Ht Hp Hid.
  unfold get_suggestions. rewrite Hauth. cbn [negb]. cbv zeta.
  fold (currentUserId NODE_ENV req). rewrite Hu.
  cbn [Js.truthy_opt default from_option id]. rewrite Ht. cbn [negb].
  rewrite route_query, Hp.
  unfold Js.str_eq at 1. by rewrite bool_decide_eq_false_2 by done.
Qed.

End suggestions.
End SuggestionFacts.

(** ** What the two candidate filters guarantee *)

Module CandidateFacts.
Import Routes AiMatchingService SuggestionFacts.

Lemma str_eq_true a b : Js.str_eq a b = true ↔ a = b.
Proof. unfold Js.str_eq. apply bool_decide_eq_true. Qed.

Lemma str_eq_false a b : Js.str_eq a b = false ↔ a ≠ b.
Proof. unfold Js.str_eq. apply bool_decide_eq_false. Qed.

Lemma truthy_str_true s : Js.truthy_str s = true ↔ s ≠ EmptyString.
Proof. destruct s; simpl; split; congruence. Qed.

Lemma role_compatible_spec a b : role_compatible a b = true → compatible a b.
Proof.
  unfold role_compatible, compatible.
  destruct (Js.str_eq a "coder") eqn:E1.
  { apply str_eq_true in E1. rewrite orb_true_iff, !str_eq_true. tauto. }
  destruct (Js.str_eq a "investor") eqn:E2.
  { apply str_eq_true in E2. rewrite str_eq_true. tauto. }
  destruct (Js.str_eq a "technical") eqn:E3; [|done].
  apply str_eq_true in E3. rewrite str_eq_true. tauto.
Qed.

Lemma eligible_spec currentProfile profileId role p :
  eligible currentProfile profileId role p = true →
  Profile.id p ≠ profileId
  ∧ compatible (Profile.role currentProfile) (Profile.role p)
  ∧ (∀ r, role = Some r → r ≠ EmptyString → Profile.role p = r).
Proof.
  unfold eligible.
  destruct (Js.str_eq (Profile.id p) profileId) eqn:E1; [done|].
  apply str_eq_false in E1.
  destruct (Js.truthy_opt role && negb (Js.opt_eq (Some (Profile.role p)) role)) eqn:E2; [done|].
  intros Hc. split_and!; [done | by apply role_compatible_spec |].
  intros r -> Hr. apply andb_false_iff in E2 as [E2|E2].
  - simpl in E2. apply truthy_str_true in Hr. congruence.
  - apply negb_false_iff in E2. unfold Js.opt_eq in E2.
    apply bool_decide_eq_true in E2. congruence.
Qed.

Lemma existingMatchIds_connected d profileId x :
  x ≠ profileId → connected d profileId x →
  x ∈ existingMatchIds profileId (Storage.getMatches d profileId).
Proof.
  intros Hx (m & Hm & Hends). unfold existingMatchIds.
  apply elem_of_list_to_set, list_elem_of_fmap. exists m. split.
  - destruct Hends as [[Hi Hr]|[Hi Hr]].
    + by rewrite (proj2 (str_eq_true _ _) Hi).
    + rewrite (proj2 (str_eq_false (Match.initiatorId m) profileId)); congruence.
  - unfold Storage.getMatches. apply list_elem_of_filter. split; [|done]. tauto.
Qed.

Lemma candidateProfiles_spec d currentProfile req p :
  p ∈ eligibleProfiles d currentProfile req →
  p ∈ profiles d ∧ acceptable d currentProfile req p.
Proof.
  unfold eligibleProfiles, candidateProfiles, Storage.getAllProfiles.
  rewrite !list_elem_of_filter. intros (Hnot & Hel & Hin).
  apply Is_true_true in Hel. apply eligible_spec in Hel as (Hself & Hrole & Hfilter).
  split; [done|]. split_and!; try done.
  intros Hc. apply Hnot. by apply existingMatchIds_connected.
Qed.

Lemma rankedCandidates_subset currentProfile l p :
  p ∈ rankedCandidates currentProfile l → p ∈ l.
Proof.
  unfold rankedCandidates. rewrite slice0_take by lia.
  intros Hp. apply list_elem_of_fmap in Hp as ([q s] & -> & Hq).
  apply elem_of_take in Hq as (i & Hq & _). apply list_elem_of_lookup_2 in Hq.
  rewrite sort_desc_perm in Hq.
  apply list_elem_of_fmap in Hq as (c & [= -> _] & Hc). done.
Qed.

Lemma handed_acceptable d currentProfile req c :
  c ∈ handed d currentProfile req →
  MatchCandidate.profile c ∈ profiles d ∧ acceptable d currentProfile req (MatchCandidate.profile c).
Proof.
  unfold handed. intros Hc. apply list_elem_of_fmap in Hc as (p & -> & Hp).
  apply rankedCandidates_subset in Hp. by apply candidateProfiles_spec.
Qed.

Lemma getProfile_keyed d p :
  profiles_keyed d → p ∈ profiles d → Storage.getProfile d (Profile.id p) = Some p.
Proof.
  unfold profiles_keyed, Storage.getProfile. generalize (profiles d) as l.
  induction l as [|q l IH]; intros Hnd Hp; [by apply elem_of_nil in Hp|].
  rewrite fmap_cons in Hnd. apply NoDup_cons in Hnd as [Hq Hnd].
  rewrite filter_cons. apply elem_of_cons in Hp as [->|Hp].
  - by rewrite decide_True.
  - rewrite decide_False; [by apply IH|].
    intros Heq. apply Hq. rewrite Heq. apply list_elem_of_fmap. by exists p.
Qed.

End CandidateFacts.

(** ** The calls to the matching service made by one request *)

Module TraceFacts.
Import Routes AiMatchingService SuggestionFacts.

Lemma filter_generate_projects (l : list Profile.t) :
  filter is_generate (concat (projects_events <$> l)) = [].
Proof.
  induction l as [|p l IH]; [done|].
  rewrite fmap_cons. simpl. rewrite filter_app, IH.
  unfold projects_events. by destruct (Js.str_eq _ _).
Qed.

Lemma filter_generate_enrich (l : list MatchResult) :
  filter is_generate ((λ m, EGetProfile (profileId m)) <$> l) = [].
Proof. induction l as [|m l IH]; [done|]. rewrite fmap_cons, filter_cons. simpl. done. Qed.

Lemma pipeline_generate create JSON_parse d currentProfile req :
  filter is_generate (pipeline_events create JSON_parse d currentProfile req)
  = [EGenerateMatches (handed d currentProfile req) (maxResults (query_limit req))].
Proof.
  unfold pipeline_events. rewrite !filter_app.
  rewrite filter_generate_projects, filter_generate_enrich.
  by destruct (Js.str_eq _ _).
Qed.

End TraceFacts.

Import Routes AiMatchingService SuggestionFacts CandidateFacts TraceFacts.

(** ** Suggestions: who can be suggested *)

(** C1 (as amended).  For every answer of the suggestion endpoint that
    carries a result list: every candidate handed to the external scoring
    step is a profile other than the requester, has no match row with the
    requester in either direction and in any state, has a role compatible
    with the requester's (investor or technical for a builder, builder for
    an investor or a technical lead) and, when the [role] query parameter is
    a non-empty string, has that role; the list is empty when no candidate
    is handed over; and, [id] being the key of [profiles], every result
    whose [profileId] names a handed-over candidate carries that candidate's
    profile. *)
Theorem suggestions_from_acceptable_candidates
    NODE_ENV isAuthenticated create JSON_parse req w l :
  json (get_suggestions NODE_ENV isAuthenticated create JSON_parse req w).1 = JSuggestions l →
  only_acceptable req w
    (get_suggestions NODE_ENV isAuthenticated create JSON_parse req w).2 l.
Proof.
  intros Hl.
  apply get_suggestions_inv in Hl as (u & cp & Hauth & Hu & Ht & Hp & Hid & ->).
  rewrite (get_suggestions_served _ _ _ _ req w u cp) by done. cbn [snd db trace].
  exists cp, (handed (db w) cp req), (maxResults (query_limit req)),
    (EGetProfileByUserId u :: pipeline_events create JSON_parse (db w) cp req).
  split_and!.
  - unfold Storage.getProfileByUserId in Hp.
    apply head_Some_elem_of, list_elem_of_filter in Hp. tauto.
  - done.
  - done.
  - rewrite filter_cons. simpl. apply pipeline_generate.
  - intros c Hc. by apply handed_acceptable in Hc as [_ ?].
  - intros Hnil. unfold suggestions, aiMatches. by rewrite Hnil.
  - intros Hkey s Hs Hnamed.
    apply list_elem_of_fmap in Hs as (m & -> & Hm). cbn [result enriched] in *.
    apply list_elem_of_fmap in Hnamed as (c & Hmc & Hc). cbn in Hmc.
    apply handed_acceptable in Hc as [Hin Hacc].
    exists (MatchCandidate.profile c). split; [|done].
    rewrite Hmc. by apply getProfile_keyed.
Qed.

(** The service is free to name any profile.  Here it answers Alice's
    request with Alice herself and with Dave, to whom she has a pending
    request; both are returned, each with its full profile.  And a request
    whose [role] parameter is present but empty is served as one without. *)
Lemma suggestions_may_name_requester :
  ∃ l, json (Demo.run_suggestions Demo.answer_self).1 = JSuggestions l
       ∧ (∃ s, s ∈ l ∧ profileId (result s) = param Demo.alice_request
               ∧ enriched s = Some Demo.alice)
       ∧ (∃ s, s ∈ l ∧ enriched s = Some Demo.dave
               ∧ connected Demo.store (param Demo.alice_request) (Profile.id Demo.dave))
       ∧ query_role Demo.alice_request_empty_role = Some EmptyString
       ∧ (get_suggestions Demo.NODE_ENV Demo.isAuthenticated Demo.create
            (Demo.reads_as Demo.answer_bob) Demo.alice_request_empty_role Demo.world).1
         = mkResponse 200
             (JSuggestions [mkSuggestion (mkResult "p-bob" 85 "shared interest in AI"
                                            "investment") (Some Demo.bob)])
       ∧ Profile.role Demo.bob ≠ EmptyString.
Proof.
  eexists. split; [by vm_compute|]. split_and!.
  - eexists. split; [apply list_elem_of_here|]. done.
  - eexists. split; [apply list_elem_of_further, list_elem_of_here|]. split; [done|].
    exists Demo.alice_dave. split; [apply list_elem_of_here|]. by left.
  - done.
  - by vm_compute.
  - done.
Qed.

Lemma suggestions_from_acceptable_candidates_witness :
  json (Demo.run_suggestions Demo.answer_bob).1
  = JSuggestions [mkSuggestion (mkResult "p-bob" 85 "shared interest in AI" "investment")
                    (Some Demo.bob)]
  ∧ only_acceptable Demo.alice_request Demo.world (Demo.run_suggestions Demo.answer_bob).2
      [mkSuggestion (mkResult "p-bob" 85 "shared interest in AI" "investment")
         (Some Demo.bob)].
Proof.
  split; [by vm_compute|].
  apply (suggestions_from_acceptable_candidates Demo.NODE_ENV Demo.isAuthenticated
           Demo.create (Demo.reads_as Demo.answer_bob) Demo.alice_request Demo.world).
  by vm_compute.
Defined.

(** ** Suggestions: the pre-ranking *)

Module RankingFacts.
Import Routes AiMatchingService SuggestionFacts.








Lemma get_suggestions_outcome NODE_ENV isAuthenticated create JSON_parse req w :
  ∃ r evs,
    get_suggestions NODE_ENV isAuthenticated create JSON_parse req w
    = (r, mkWorld (db w) (trace w ++ evs))
    ∧ outcome NODE_ENV isAuthenticated create JSON_parse req (db w) r evs.
Proof.
  destruct (isAuthenticated req) eqn:Hauth.
  2:{ exists unauthenticated, []. split; [|by constructor].
      unfold get_suggestions. rewrite Hauth, app_nil_r. by destruct w. }
  destruct (Js.truthy_opt (currentUserId NODE_ENV req)) eqn:Htr.
  2:{ eexists _, []. split; [|by apply out_unauthorized].
      unfold get_suggestions. rewrite Hauth. cbn [negb]. cbv zeta.
      fold (currentUserId NODE_ENV req). rewrite Htr, app_nil_r. by destruct w. }
  destruct (currentUserId NODE_ENV req) as [u|] eqn:Hu; [|done]. cbn in Htr.
  destruct (Storage.getProfileByUserId (db w) u) as [cp|] eqn:Hp.
  2:{ eexists _, _. split; [|by apply (out_not_found _ _ _ _ _ _ u)].
      unfold get_suggestions. rewrite Hauth. cbn [negb]. cbv zeta.
      fold (currentUserId NODE_ENV req). rewrite Hu.
      cbn [Js.truthy_opt default from_option id]. rewrite Htr. cbn [negb].
      by rewrite route_query, Hp. }
  destruct (decide (Profile.id cp = param req)) as [Hid|Hid].
  - eexists _, _. split; [|by apply (out_served _ _ _ _ _ _ u cp)].
    by apply (get_suggestions_served _ _ _ _ req w u cp).
  - eexists _, _. split; [|by apply (out_forbidden _ _ _ _ _ _ u cp)].
    by apply (get_suggestions_403 _ _ _ _ req w u cp).
Qed.

End RankingFacts.

Import RankingFacts.




(** The example of the specification: one shared tag and the same location
    score 15, no shared tag and another location score 0. *)
Example score_alice_bob_carol :
  score Demo.alice Demo.bob = 15 ∧ score Demo.alice Demo.carol = 0.
Proof. by vm_compute. Qed.

(** A tag the candidate lists twice counts twice. *)
Example score_counts_repeated_tag : score Demo.alice Demo.heidi = 20.
Proof. by vm_compute. Qed.

(** ** Suggestions: the service's post-filter and the result limit *)

Module ServiceFacts.
Import Routes AiMatchingService SuggestionFacts.

Lemma maxResults_range limit : 1 ≤ maxResults limit ≤ 20.
Proof. unfold maxResults. lia. Qed.

Lemma is_ws_spec c : Js.is_ws c = true ↔ is_space c.
Proof.
  unfold Js.is_ws, is_space, white_space. split.
  - rewrite !orb_true_iff, !andb_true_iff, !N.leb_le, !N.eqb_eq. intros H.
    assert (c = 9 ∨ c = 10 ∨ c = 11 ∨ c = 12 ∨ c = 13 ∨ c = 32 ∨ c = 160 ∨ c = 5760
            ∨ c = 8192 ∨ c = 8193 ∨ c = 8194 ∨ c = 8195 ∨ c = 8196 ∨ c = 8197
            ∨ c = 8198 ∨ c = 8199 ∨ c = 8200 ∨ c = 8201 ∨ c = 8202 ∨ c = 8232
            ∨ c = 8233 ∨ c = 8239 ∨ c = 8287 ∨ c = 12288 ∨ c = 65279)%N as Hc by lia.
    clear H. repeat (destruct Hc as [->|Hc]; [set_solver|]). subst. set_solver.
  - intros H. repeat (apply elem_of_cons in H as [->|H]; [reflexivity|]).
    by apply elem_of_nil in H.
Qed.

Lemma digit_of_spec c :
  (is_digit c → Js.digit_of c = Some (Z.of_N c - 48))
  ∧ (¬ is_digit c → Js.digit_of c = None).
Proof.
  unfold Js.digit_of, is_digit.
  destruct ((48 <=? c)%N && (c <=? 57)%N) eqn:E.
  - apply andb_true_iff in E as [?%N.leb_le ?%N.leb_le]. split; [done|lia].
  - apply andb_false_iff in E as [?%N.leb_gt|?%N.leb_gt]; split; lia || done.
Qed.

Lemma skip_ws_app ws r :
  Forall is_space ws → ¬ starts_with is_space r → Js.skip_ws (ws ++ r) = r.
Proof.
  intros Hws Hr. induction Hws as [|c ws Hc _ IH]; cbn.
  - destruct r as [|c r]; [done|]. cbn in Hr |- *.
    destruct (Js.is_ws c) eqn:E; [by apply is_ws_spec in E|done].
  - by rewrite (proj2 (is_ws_spec c) Hc).
Qed.

Lemma digits_stop r acc : ¬ starts_with is_digit r → Js.digits r acc = acc.
Proof.
  destruct r as [|c r]; [done|]. cbn. intros Hc.
  by rewrite (proj2 (digit_of_spec c) Hc).
Qed.

Lemma digits_app ds r acc :
  Forall is_digit ds → ¬ starts_with is_digit r →
  Js.digits (ds ++ r) acc
  = match ds with
    | [] => acc
    | _ :: _ => Some (foldl (λ n c, 10 * n + (Z.of_N c - 48)) (default 0 acc) ds)
    end.
Proof.
  intros Hds Hr. revert acc. induction Hds as [|c ds Hc _ IH]; intros acc.
  - by apply digits_stop.
  - cbn [app Js.digits]. rewrite (proj1 (digit_of_spec c) Hc), IH.
    by destruct ds.
Qed.

Lemma parseInt_spec s ws sign ds rest :
  reads_as_number s ws sign ds rest →
  Js.parseInt s
  = match ds with
    | [] => None
    | _ :: _ => Some (if decide (sign = [45%N]) then - decimal ds else decimal ds)
    end.
Proof.
  intros (-> & Hws & Hsign & Hds & Hrest & Hcanon). unfold Js.parseInt.
  assert (¬ is_space 45 ∧ ¬ is_space 43) as [H45 H43].
  { unfold is_space, white_space. split; set_solver. }
  rewrite skip_ws_app; [|done|].
  2:{ destruct Hsign as [->|[->| ->]]; [|done..]. cbn [app].
      destruct ds as [|d ds].
      - destruct rest as [|c r]; [done|]. cbn in *. intros Hc. apply Hcanon; auto.
      - cbn. apply Forall_cons in Hds as [Hd _]. intros Hc.
        unfold is_space, white_space, is_digit in *.
        repeat (apply elem_of_cons in Hc as [->|Hc]; [lia|]). by apply elem_of_nil in Hc. }
  destruct Hsign as [->|[->| ->]]; cbn [app].
  - destruct ds as [|d ds]; cbn [app].
    + destruct rest as [|c r]; [done|].
      assert (c ≠ 45%N ∧ c ≠ 43%N) as [Hm Hp].
      { split; intros ->; apply Hcanon; try done; right; [by left|by right]. }
      rewrite (proj2 (N.eqb_neq c 45) Hm), (proj2 (N.eqb_neq c 43) Hp).
      by apply digits_stop.
    + apply Forall_cons in Hds as Hd. destruct Hd as [Hd _]. unfold is_digit in Hd.
      rewrite (proj2 (N.eqb_neq d 45)), (proj2 (N.eqb_neq d 43)) by lia.
      change (d :: ds ++ rest)%list with ((d :: ds) ++ rest)%list.
      rewrite (digits_app (d :: ds) rest None) by done. done.
  - cbn. rewrite digits_app by done. destruct ds; [done|]. cbn [fmap option_fmap option_map].
    by rewrite decide_True.
  - cbn. rewrite digits_app by done. destruct ds; [done|].
    by rewrite decide_False.
Qed.

Lemma maxResults_reads s ws sign ds rest :
  reads_as_number s ws sign ds rest → maxResults (Some s) = claimed_limit sign ds.
Proof.
  intros Hs. unfold maxResults, claimed_limit.
  destruct s as [|c s]; cbn [Js.truthy_units].
  - destruct Hs as (Hs & _). symmetry in Hs.
    apply app_eq_nil in Hs as (_ & Hs). apply app_eq_nil in Hs as (_ & Hs).
    apply app_eq_nil in Hs as (-> & _). done.
  - cbn [default from_option id]. rewrite (parseInt_spec _ _ _ _ _ Hs). by destruct ds.
Qed.

(** Cutting a string where a run of characters ends. *)
Lemma span (P : N → Prop) `{!∀ c, Decision (P c)} (s : list N) :
  ∃ a b, s = (a ++ b)%list ∧ Forall P a ∧ ¬ starts_with P b.
Proof.
  induction s as [|c s (a & b & -> & Ha & Hb)].
  - exists [], []. split_and!; [done | constructor | by intros []].
  - destruct (decide (P c)) as [Hc|Hc].
    + exists (c :: a), b. split_and!; [done | by constructor | done].
    + exists [], (c :: a ++ b)%list. split_and!; [done | constructor | exact Hc].
Qed.

#[local] Instance is_space_dec c : Decision (is_space c).
Proof. unfold is_space. apply _. Defined.
#[local] Instance is_digit_dec c : Decision (is_digit c).
Proof. unfold is_digit. apply _. Defined.

(** Every string reads as a number or as none. *)
Lemma reads_as_number_total s : ∃ ws sign ds rest, reads_as_number s ws sign ds rest.
Proof.
  destruct (span is_space s) as (ws & r & -> & Hws & Hr).
  assert (∃ sign r', r = (sign ++ r')%list
                     ∧ (sign = [] ∨ sign = [45%N] ∨ sign = [43%N])
                     ∧ (sign = [] → ¬ starts_with (λ c, is_space c ∨ is_sign c) r'))
    as (sign & r' & -> & Hsign & Hr').
  { destruct r as [|c r]; [exists [], []; by split_and!; auto|].
    destruct (decide (c = 45%N)) as [->|H45]; [exists [45%N], r; split_and!; auto; done|].
    destruct (decide (c = 43%N)) as [->|H43]; [exists [43%N], r; split_and!; auto; done|].
    exists [], (c :: r). split_and!; auto. intros _ [Hc|[Hc|Hc]]; done. }
  destruct (span is_digit r') as (ds & rest & -> & Hds & Hrest).
  exists ws, sign, ds, rest. split_and!; try done.
  intros Hs ->. by apply Hr'.
Qed.

Lemma post_filter_spec l limit :
  0 ≤ limit →
  ∃ kept,
    kept ≡ₚ filter (λ m, 50 ≤ matchScore m) l
    ∧ StronglySorted (desc matchScore) kept
    ∧ (∀ k, filter (λ m, matchScore m = k) kept
            = filter (λ m, matchScore m = k) (filter (λ m, 50 ≤ matchScore m) l))
    ∧ post_filter l limit = take (Z.to_nat limit) kept.
Proof.
  intros Hl. exists (sort_desc matchScore (filter (λ m, 50 ≤ matchScore m) l)).
  split_and!.
  - apply sort_desc_perm.
  - apply sort_desc_sorted.
  - intros k. apply sort_desc_stable.
  - unfold post_filter. by rewrite slice0_take.
Qed.

Lemma post_filter_bounds l limit :
  0 ≤ limit →
  Forall (λ m, 50 ≤ matchScore m) (post_filter l limit)
  ∧ StronglySorted (desc matchScore) (post_filter l limit)
  ∧ (length (post_filter l limit) ≤ Z.to_nat limit)%nat.
Proof.
  intros Hl. unfold post_filter. rewrite slice0_take by done. split_and!.
  - apply Forall_take. rewrite sort_desc_perm. apply Forall_forall.
    intros m Hm. by apply list_elem_of_filter in Hm as [? _].
  - apply sorted_take, sort_desc_sorted.
  - rewrite length_take. lia.
Qed.

(** Either the service call yields nothing, or the answer was read as a
    list that went through the post-filter. *)
Lemma generateMatches_cases create JSON_parse cu ps cands limit :
  generateMatches create JSON_parse cu ps cands limit = []
  ∨ ∃ content l,
      cands ≠ [] ∧ create cu ps cands = Resolved (Some content)
      ∧ content ≠ EmptyString ∧ JSON_parse content = Matches l
      ∧ generateMatches create JSON_parse cu ps cands limit = post_filter l limit.
Proof.
  unfold generateMatches. destruct cands as [|c cands]; [by left|].
  destruct (create cu ps (c :: cands)) as [|[content|]]; [by left| |by left].
  simpl. destruct content as [|a content]; [by left|]. simpl.
  destruct (JSON_parse (String a content)) as [| | |l] eqn:E; [by left|by left| |].
  - left. unfold post_filter, slice0. rewrite filter_nil. simpl.
    destruct (0 <=? limit); [apply take_nil | done].
  - right. by exists (String a content), l.
Qed.

Lemma generateMatches_bounds create JSON_parse cu ps cands limit :
  0 ≤ limit →
  Forall (λ m, 50 ≤ matchScore m) (generateMatches create JSON_parse cu ps cands limit)
  ∧ StronglySorted (desc matchScore) (generateMatches create JSON_parse cu ps cands limit)
  ∧ (length (generateMatches create JSON_parse cu ps cands limit) ≤ Z.to_nat limit)%nat.
Proof.
  intros Hl.
  destruct (generateMatches_cases create JSON_parse cu ps cands limit)
    as [->|(content & l & _ & _ & _ & _ & ->)].
  - split_and!; [constructor | constructor | simpl; lia].
  - by apply post_filter_bounds.
Qed.

End ServiceFacts.

Import ServiceFacts.

(** C3.  The result limit is within [1, 20].  It is 10 when the [limit]
    parameter is absent; a parameter that is given reads, in one way, as
    white space, an optional sign, decimal digits and a rest, and the limit
    is 10 when there are no digits and otherwise the number the digits
    denote, negated after a minus sign, clamped to [1, 20].  Of an answer of
    the external scoring step that is read as a list, the service keeps the
    results with [matchScore >= 50], in descending order of [matchScore],
    and returns the first [limit] of them.  The endpoint calls the service
    once, with the limit of the request, and answers with what the service
    returns for that limit: no result has a [matchScore] below 50, the
    results are in descending order, and they are the first [limit], so no
    more than 20, of the results kept. *)
Theorem results_filtered_sorted_limited NODE_ENV isAuthenticated create JSON_parse :
  (∀ limit, 1 ≤ maxResults limit ≤ 20)
  ∧ maxResults None = 10
  ∧ (∀ s, ∃ ws sign ds rest, reads_as_number s ws sign ds rest)
  ∧ (∀ s ws sign ds rest,
       reads_as_number s ws sign ds rest → maxResults (Some s) = claimed_limit sign ds)
  ∧ (∀ currentUser currentUserProjects candidates content l limit,
       candidates ≠ [] →
       create currentUser currentUserProjects candidates = Resolved (Some content) →
       content ≠ EmptyString → JSON_parse content = Matches l → 0 ≤ limit →
       ∃ kept,
         kept ≡ₚ filter (λ m, 50 ≤ matchScore m) l
         ∧ StronglySorted (desc matchScore) kept
         ∧ generateMatches create JSON_parse currentUser currentUserProjects candidates limit
           = take (Z.to_nat limit) kept)
  ∧ (∀ req w l,
       json (get_suggestions NODE_ENV isAuthenticated create JSON_parse req w).1
       = JSuggestions l →
       Forall (λ s, 50 ≤ matchScore (result s)) l
       ∧ StronglySorted (desc matchScore) (result <$> l)
       ∧ (length l ≤ Z.to_nat (maxResults (query_limit req)))%nat
       ∧ (length l ≤ 20)%nat
       ∧ ∃ currentProfile candidates evs,
           trace (get_suggestions NODE_ENV isAuthenticated create JSON_parse req w).2
           = (trace w ++ evs)%list
           ∧ filter is_generate evs
             = [EGenerateMatches candidates (maxResults (query_limit req))]
           ∧ result <$> l
             = generateMatches create JSON_parse currentProfile
                 (ownProjects (db w) currentProfile req) candidates
                 (maxResults (query_limit req))
           ∧ ∀ content answer,
               candidates ≠ [] →
               create currentProfile (ownProjects (db w) currentProfile req) candidates
               = Resolved (Some content) →
               content ≠ EmptyString → JSON_parse content = Matches answer →
               ∃ kept,
                 kept ≡ₚ filter (λ m, 50 ≤ matchScore m) answer
                 ∧ StronglySorted (desc matchScore) kept
                 ∧ result <$> l = take (Z.to_nat (maxResults (query_limit req))) kept).
Proof.
  assert (∀ currentUser currentUserProjects candidates content l limit,
            candidates ≠ [] →
            create currentUser currentUserProjects candidates = Resolved (Some content) →
            content ≠ EmptyString → JSON_parse content = Matches l → 0 ≤ limit →
            ∃ kept,
              kept ≡ₚ filter (λ m, 50 ≤ matchScore m) l
              ∧ StronglySorted (desc matchScore) kept
              ∧ generateMatches create JSON_parse currentUser currentUserProjects candidates
                  limit
                = take (Z.to_nat limit) kept) as Hservice.
  { intros cu ps cands content l limit Hc Hcreate Hcontent Hparse Hl.
    destruct (post_filter_spec l limit Hl) as (kept & Hperm & Hsorted & _ & Hpf).
    exists kept. split_and!; [done..|]. rewrite <- Hpf.
    unfold generateMatches. destruct cands; [done|]. rewrite Hcreate. simpl.
    destruct content; [done|]. simpl. by rewrite Hparse. }
  split; [apply maxResults_range|]. split; [done|].
  split; [apply reads_as_number_total|]. split; [apply maxResults_reads|].
  split; [exact Hservice|].
  intros req w l Hl.
  apply get_suggestions_inv in Hl as (u & cp & Hauth & Hu & Ht & Hp & Hid & ->).
  pose proof (maxResults_range (query_limit req)) as Hr.
  destruct (generateMatches_bounds create JSON_parse cp (ownProjects (db w) cp req)
              (handed (db w) cp req) (maxResults (query_limit req))) as (H50 & Hs & Hlen);
    [lia|].
  assert (result <$> suggestions create JSON_parse (db w) cp req
          = generateMatches create JSON_parse cp (ownProjects (db w) cp req)
              (handed (db w) cp req) (maxResults (query_limit req))) as Hres.
  { unfold suggestions, aiMatches. rewrite <- list_fmap_compose. apply list_fmap_id. }
  split; [|split; [|split; [|split]]].
  - unfold suggestions, aiMatches. apply Forall_fmap. eapply Forall_impl; [exact H50|]. done.
  - by rewrite Hres.
  - unfold suggestions, aiMatches. by rewrite length_fmap.
  - unfold suggestions, aiMatches. rewrite length_fmap. lia.
  - eexists cp, (handed (db w) cp req), _.
    rewrite (get_suggestions_served NODE_ENV isAuthenticated create JSON_parse req w u cp)
      by done.
    cbn [snd trace]. split; [done|]. split.
    + rewrite filter_cons. cbn. apply TraceFacts.pipeline_generate.
    + split; [exact Hres|]. intros content answer Hc Hcreate Hcontent Hparse.
      rewrite Hres. apply (Hservice cp _ _ content answer); [done..|lia].
Qed.

Lemma results_filtered_sorted_limited_witness :
  reads_as_number (Js.units " 2nd") [32%N] [] [50%N] (Js.units "nd")
  ∧ maxResults (query_limit Demo.alice_request_limit) = 2
  ∧ json (get_suggestions Demo.NODE_ENV Demo.isAuthenticated Demo.create
            (Demo.reads_as Demo.answer_four) Demo.alice_request_limit Demo.world).1
    = JSuggestions [mkSuggestion (mkResult "p-bob" 85 "shared interest in AI" "investment")
                      (Some Demo.bob);
                    mkSuggestion (mkResult "p-erin" 70 "builder" "collaboration")
                      (Some Demo.erin)]
  ∧ (length [mkSuggestion (mkResult "p-bob" 85 "shared interest in AI" "investment")
               (Some Demo.bob);
             mkSuggestion (mkResult "p-erin" 70 "builder" "collaboration")
               (Some Demo.erin)]
     ≤ Z.to_nat (maxResults (query_limit Demo.alice_request_limit)))%nat.
Proof.
  assert (reads_as_number (Js.units " 2nd") [32%N] [] [50%N] (Js.units "nd")) as Hreads.
  { split; [reflexivity|]. split; [repeat constructor; unfold is_space, white_space; set_solver|].
    split; [by left|]. split; [repeat constructor; unfold is_digit; lia|].
    split; [cbn; unfold is_digit; lia|]. done. }
  pose proof (results_filtered_sorted_limited Demo.NODE_ENV Demo.isAuthenticated Demo.create
                (Demo.reads_as Demo.answer_four)) as (_ & _ & _ & Hlimit & _ & Hserved).
  split; [exact Hreads|]. split; [exact (Hlimit _ _ _ _ _ Hreads)|].
  split; [by vm_compute|].
  refine (proj1 (proj2 (proj2 (Hserved Demo.alice_request_limit Demo.world _ _)))).
  by vm_compute.
Defined.

(** Readings of the [limit] parameter. *)
Example maxResults_examples :
  maxResults None = 10 ∧ maxResults (Some (Js.units "50")) = 20
  ∧ maxResults (Some (Js.units "0")) = 1 ∧ maxResults (Some (Js.units "-3")) = 1
  ∧ maxResults (Some (Js.units "abc")) = 10 ∧ maxResults (Some (Js.units " 7")) = 7
  ∧ maxResults (Some []) = 10 ∧ maxResults (Some (Js.units "12abc")) = 12
  ∧ maxResults (Some [65279; 8232; 43; 52]%N) = 4
  ∧ maxResults (Some (Js.units "- 5")) = 10.
Proof. by vm_compute. Qed.

(** ** Suggestions: failure of the external service *)

(** C8.  When the external text-generation call fails, returns no content
    or returns content that cannot be parsed, [generateMatches] returns the
    empty list; the suggestion endpoint then answers the owner of the
    requested profile with status 200 and an empty result list, not with an
    error. *)
Theorem upstream_failure_gives_empty_result NODE_ENV isAuthenticated create JSON_parse :
  (∀ currentUser currentUserProjects candidates limit,
     upstream_failure create JSON_parse currentUser currentUserProjects candidates →
     generateMatches create JSON_parse currentUser currentUserProjects candidates limit = [])
  ∧ (∀ req w u currentProfile,
       isAuthenticated req = true →
       currentUserId NODE_ENV req = Some u → u ≠ EmptyString →
       Storage.getProfileByUserId (db w) u = Some currentProfile →
       Profile.id currentProfile = param req →
       upstream_failure create JSON_parse currentProfile
         (ownProjects (db w) currentProfile req) (handed (db w) currentProfile req) →
       (get_suggestions NODE_ENV isAuthenticated create JSON_parse req w).1
       = mkResponse 200 (JSuggestions [])).
Proof.
  assert (∀ cu ps cands limit,
            upstream_failure create JSON_parse cu ps cands →
            generateMatches create JSON_parse cu ps cands limit = []) as Hempty.
  { intros cu ps cands limit. unfold upstream_failure, generateMatches.
    destruct cands as [|c cands]; [done|].
    destruct (create cu ps (c :: cands)) as [|[content|]]; [done| |done].
    intros [->|[H|H]]; [done|..]; simpl;
      (destruct (Js.truthy_str content); [by rewrite H | done]). }
  split; [exact Hempty|].
  intros req w u cp Hauth Hu Ht Hp Hid Hfail.
  apply truthy_str_true in Ht.
  rewrite (get_suggestions_served _ _ _ _ req w u cp) by done. cbn [fst].
  unfold suggestions, aiMatches. by rewrite Hempty.
Qed.

Lemma upstream_failure_gives_empty_result_witness :
  Demo.isAuthenticated Demo.alice_request = true
  ∧ currentUserId Demo.NODE_ENV Demo.alice_request = Some "u-alice"
  ∧ Storage.getProfileByUserId (db Demo.world) "u-alice" = Some Demo.alice
  ∧ upstream_failure Demo.unreachable (Demo.reads_as Demo.answer_bob) Demo.alice
      (ownProjects (db Demo.world) Demo.alice Demo.alice_request)
      (handed (db Demo.world) Demo.alice Demo.alice_request)
  ∧ (get_suggestions Demo.NODE_ENV Demo.isAuthenticated Demo.unreachable
       (Demo.reads_as Demo.answer_bob) Demo.alice_request Demo.world).1
    = mkResponse 200 (JSuggestions []).
Proof.
  split_and!; [reflexivity | reflexivity | reflexivity | exact I |].
  apply (proj2 (upstream_failure_gives_empty_result Demo.NODE_ENV Demo.isAuthenticated
                  Demo.unreachable (Demo.reads_as Demo.answer_bob))
           Demo.alice_request Demo.world "u-alice" Demo.alice);
    [reflexivity | reflexivity | by vm_compute | reflexivity | reflexivity | exact I].
Defined.

(** ** Suggestions: only for the caller's own profile *)

(** C9.  When the caller's profile, looked up by the caller's user id, has
    an id other than the [profileId] of the path, the endpoint answers 403;
    the lookup of that profile is the only call it makes: no profiles or
    matches are read to build candidates and the matching service is not
    called. *)
Theorem suggestions_only_for_own_profile
    NODE_ENV isAuthenticated create JSON_parse req w u currentProfile :
  isAuthenticated req = true →
  currentUserId NODE_ENV req = Some u → u ≠ EmptyString →
  Storage.getProfileByUserId (db w) u = Some currentProfile →
  Profile.id currentProfile ≠ param req →
  ∃ r evs,
    get_suggestions NODE_ENV isAuthenticated create JSON_parse req w
    = (r, mkWorld (db w) (trace w ++ evs))
    ∧ status r = 403
    ∧ r = mkResponse 403 (JError "Forbidden: Cannot access another user's suggestions")
    ∧ evs = [EGetProfileByUserId u]
    ∧ Forall (λ e, is_pipeline_call e = false) evs.
Proof.
  intros Hauth Hu Ht Hp Hid. apply truthy_str_true in Ht.
  eexists _, _. split; [by apply (get_suggestions_403 _ _ _ _ req w u currentProfile)|].
  split_and!; try done. by repeat constructor.
Qed.

Lemma suggestions_only_for_own_profile_witness :
  Demo.isAuthenticated Demo.bob_asks_for_alice = true
  ∧ currentUserId Demo.NODE_ENV Demo.bob_asks_for_alice = Some "u-bob"
  ∧ Storage.getProfileByUserId (db Demo.world) "u-bob" = Some Demo.bob
  ∧ Profile.id Demo.bob ≠ param Demo.bob_asks_for_alice
  ∧ ∃ r evs,
      get_suggestions Demo.NODE_ENV Demo.isAuthenticated Demo.create
        (Demo.reads_as Demo.answer_bob) Demo.bob_asks_for_alice Demo.world
      = (r, mkWorld (db Demo.world) (trace Demo.world ++ evs))
      ∧ status r = 403
      ∧ r = mkResponse 403 (JError "Forbidden: Cannot access another user's suggestions")
      ∧ evs = [EGetProfileByUserId "u-bob"]
      ∧ Forall (λ e, is_pipeline_call e = false) evs.
Proof.
  split_and!; [reflexivity | reflexivity | reflexivity | by vm_compute |].
  apply (suggestions_only_for_own_profile Demo.NODE_ENV Demo.isAuthenticated Demo.create
           (Demo.reads_as Demo.answer_bob) Demo.bob_asks_for_alice Demo.world
           "u-bob" Demo.bob); [reflexivity | reflexivity | by vm_compute | reflexivity
                               | by vm_compute].
Defined.

(** ** Match requests *)

Module MatchFacts.
Import Routes SuggestionFacts CandidateFacts SpecMore.

(** Running a handler whose first step goes on with [a]. *)
Lemma route_bind {A} (m : Handler A) (k : A → Handler Response) c w a w1 :
  m w = (Continue a, w1) → route (m ≫= k) c w = route (k a) c w1.
Proof. intros H. unfold route, mbind, handler_bind. by rewrite H. Qed.

Lemma is_pending_between_spec a b m :
  is_pending_between a b m = true ↔
  Match.status m = "pending"
  ∧ ((Match.initiatorId m = a ∧ Match.receiverId m = b)
     ∨ (Match.initiatorId m = b ∧ Match.receiverId m = a)).
Proof.
  unfold is_pending_between.
  rewrite orb_true_iff, !andb_true_iff, !str_eq_true. tauto.
Qed.

Lemma hasPendingMatch_spec d a b :
  existsb (is_pending_between a b) (Storage.getMatches d a) = true ↔ pending_between d a b.
Proof.
  rewrite existsb_exists. unfold pending_between, Storage.getMatches. split.
  - intros (m & Hin & Hp). apply list_elem_of_In, list_elem_of_filter in Hin as [_ Hin].
    apply is_pending_between_spec in Hp. by exists m.
  - intros (m & Hin & Hs & Hends). exists m. split.
    + apply list_elem_of_In, list_elem_of_filter. split; [tauto | done].
    + by apply is_pending_between_spec.
Qed.

Lemma varchar_short n s : (String.length s ≤ n)%nat → Storage.varchar n s = Some s.
Proof.
  revert n. induction s as [|c s IH]; intros n Hn; [by destruct n|].
  destruct n as [|n]; cbn in Hn; [lia|].
  change (Storage.varchar (S n) (String c s)) with (String c <$> Storage.varchar n s).
  rewrite IH by lia. done.
Qed.

Lemma z_string_Some max v s :
  z_string max v = Some s
  ↔ v = Some (Json.Str s) ∧ ∀ n, max = Some n → (String.length s ≤ n)%nat.
Proof.
  unfold z_string. destruct v as [[|s'|b t]|]; try (split; [done|by intros [[=] _]]).
  destruct max as [n|].
  - destruct (decide _) as [Hn|Hn].
    + split; [intros [= <-]; split; [done|by intros ? [= <-]]|by intros [[= <-] _]].
    + split; [done|]. intros [[= <-] Hb]. by specialize (Hb n eq_refl).
  - split; [intros [= <-]; split; [done|by intros ? [=]]|by intros [[= <-] _]].
Qed.

Lemma z_optional_Some max v o :
  z_optional max v = Some o
  ↔ match o with
    | Some s => v = Some (Json.Str s) ∧ ∀ n, max = Some n → (String.length s ≤ n)%nat
    | None => v = None
    end.
Proof.
  unfold z_optional. destruct v as [v|].
  - destruct (z_string max (Some v)) as [s|] eqn:E; cbn.
    + apply z_string_Some in E. destruct o as [s'|]; [|done].
      split; [by intros [= <-]|]. intros [Hv _]. destruct E as [E _]. congruence.
    + destruct o as [s'|]; [|done]. split; [done|]. intros Hs.
      apply z_string_Some in Hs. congruence.
  - destruct o; [split; [done|by intros [[=] _]]|done].
Qed.

Lemma z_nullable_Some v o :
  z_nullable v = Some o
  ↔ match o with
    | Some s => v = Some (Json.Str s)
    | None => v = None ∨ v = Some Json.Null
    end.
Proof.
  unfold z_nullable, z_string.
  destruct v as [[|s'|b t]|], o as [s|]; cbn; split; try done; try tauto;
    try (by intros [= <-]); try (by intros [[=]|[=]]); by intros [= <-].
Qed.

Lemma parse_accepted body md :
  insertMatchSchema_parse body = Some md ↔ accepted_body body md.
Proof.
  unfold insertMatchSchema_parse, accepted_body. split.
  - intros H.
    destruct (z_string None (mb_initiatorId body)) as [i|] eqn:Ei; [|done].
    destruct (z_string None (mb_receiverId body)) as [r|] eqn:Er; [|done].
    destruct (z_optional (Some 20%nat) (mb_status body)) as [st|] eqn:Es; [|done].
    destruct (z_string (Some 20%nat) (mb_matchType body)) as [mt|] eqn:Et; [|done].
    destruct (z_nullable (mb_matchReason body)) as [mr|] eqn:Em; [|done].
    destruct (z_nullable (mb_message body)) as [ms|] eqn:Eg; [|done].
    cbn in H. injection H as <-. cbn.
    apply z_string_Some in Ei as [Ei _]. apply z_string_Some in Er as [Er _].
    apply z_string_Some in Et as [Et Hmt]. apply z_optional_Some in Es.
    apply z_nullable_Some in Em. apply z_nullable_Some in Eg.
    split; [done|]. split; [done|]. split.
    { destruct st as [s|]; [|done]. destruct Es as [Es Hs]. split; [done|by apply Hs]. }
    split; [split; [done|by apply Hmt]|]. by split.
  - destruct md as [i r st mt mr ms]. cbn. intros (Hi & Hr & Hs & [Ht Hmt] & Hm & Hg).
    rewrite (proj2 (z_string_Some None (mb_initiatorId body) i))
      by (split; [done|by intros ? [=]]).
    rewrite (proj2 (z_string_Some None (mb_receiverId body) r))
      by (split; [done|by intros ? [=]]).
    rewrite (proj2 (z_optional_Some (Some 20%nat) (mb_status body) st)).
    2:{ destruct st as [s|]; [|done]. destruct Hs as [Hs Hl]. split; [done|].
        by intros ? [= <-]. }
    rewrite (proj2 (z_string_Some (Some 20%nat) (mb_matchType body) mt))
      by (split; [done|by intros ? [= <-]]).
    rewrite (proj2 (z_nullable_Some (mb_matchReason body) mr)) by done.
    rewrite (proj2 (z_nullable_Some (mb_message body) ms)) by done. done.
Qed.

(** What the schema has accepted fits its columns. *)
Lemma parse_fits body md :
  insertMatchSchema_parse body = Some md →
  Storage.varchar 20 (default "pending" (InsertMatch.status md))
  = Some (default "pending" (InsertMatch.status md))
  ∧ Storage.varchar 20 (InsertMatch.matchType md) = Some (InsertMatch.matchType md).
Proof.
  intros (_ & _ & Hs & [_ Hmt] & _)%parse_accepted. split.
  - destruct (InsertMatch.status md) as [s|]; [|done]. apply varchar_short. tauto.
  - by apply varchar_short.
Qed.

End MatchFacts.

Import MatchFacts.

(** C4.  A well-formed request to create a match between two profiles that
    already have a pending match, whichever of the two is named as
    initiator, is answered 409; the handler has read the initiator's matches
    and nothing else, and the database is as before. *)
Theorem duplicate_pending_match_is_conflict body newId now w matchData :
  insertMatchSchema_parse body = Some matchData →
  pending_between (db w) (InsertMatch.initiatorId matchData) (InsertMatch.receiverId matchData)
  ∨ pending_between (db w) (InsertMatch.receiverId matchData) (InsertMatch.initiatorId matchData) →
  post_match body newId now w
  = (mkResponse 409 (JError "A pending match request already exists between these users"),
     mkWorld (db w) (trace w ++ [EGetMatches (InsertMatch.initiatorId matchData)])).
Proof.
  intros Hparse Hpending.
  assert (pending_between (db w) (InsertMatch.initiatorId matchData)
            (InsertMatch.receiverId matchData)) as Hp.
  { destruct Hpending as [?|(m & ? & ? & ?)]; [done|]. exists m. tauto. }
  apply hasPendingMatch_spec in Hp.
  unfold post_match. rewrite Hparse, route_query. by rewrite Hp.
Qed.

Lemma duplicate_pending_match_is_conflict_witness :
  insertMatchSchema_parse Demo.dave_asks_alice = Some Demo.dave_asks_alice_data
  ∧ (pending_between (db Demo.world) "p-dave" "p-alice"
     ∨ pending_between (db Demo.world) "p-alice" "p-dave")
  ∧ post_match Demo.dave_asks_alice "m2" 2000 Demo.world
    = (mkResponse 409 (JError "A pending match request already exists between these users"),
       mkWorld (db Demo.world) (trace Demo.world ++ [EGetMatches "p-dave"])).
Proof.
  assert (pending_between (db Demo.world) "p-alice" "p-dave") as Hp.
  { exists Demo.alice_dave. split; [apply list_elem_of_here|]. split; [reflexivity|].
    left. split; reflexivity. }
  split; [reflexivity|]. split; [by right|].
  apply (duplicate_pending_match_is_conflict Demo.dave_asks_alice "m2" 2000 Demo.world
           Demo.dave_asks_alice_data); [reflexivity | by right].
Defined.

(** Without a pending match between two existing profiles the request
    creates one, in state 'pending' unless the body says otherwise. *)
Lemma post_match_creates body newId now w matchData :
  insertMatchSchema_parse body = Some matchData →
  ¬ pending_between (db w) (InsertMatch.initiatorId matchData) (InsertMatch.receiverId matchData) →
  Storage.profile_exists (db w) (InsertMatch.initiatorId matchData) = true →
  Storage.profile_exists (db w) (InsertMatch.receiverId matchData) = true →
  ∃ row,
    (post_match body newId now w).1 = mkResponse 201 (JMatch row)
    ∧ matches (db (post_match body newId now w).2) = (matches (db w) ++ [row])%list
    ∧ Match.id row = newId
    ∧ Match.initiatorId row = InsertMatch.initiatorId matchData
    ∧ Match.receiverId row = InsertMatch.receiverId matchData
    ∧ Match.status row = default "pending" (InsertMatch.status matchData)
    ∧ Match.respondedAt row = None.
Proof.
  intros Hparse Hnone Hi Hr.
  unfold post_match. rewrite Hparse, route_query.
  destruct (existsb _ _) eqn:E; [by apply hasPendingMatch_spec in E|].
  destruct (parse_fits _ _ Hparse) as [Hs Ht].
  unfold route, mbind, handler_bind, exec, Storage.createMatch. cbn [db trace].
  rewrite Hi, Hr, Hs. cbn [andb mbind option_bind]. rewrite Ht.
  cbn [mbind option_bind]. eexists. split_and!; reflexivity.
Qed.

(** ** Member access *)

Module MemberFacts.
Import Routes SuggestionFacts CandidateFacts MatchFacts.

Lemma updateProjectMember_access_set d id b :
  access_set id b d (Storage.updateProjectMember d id b).2.
Proof.
  unfold Storage.updateProjectMember, access_set. cbn [snd]. split_and!.
  - by repeat split.
  - cbn. by rewrite length_fmap.
  - intros i row Hrow. cbn [projectMembers Storage.with_projectMembers].
    rewrite list_lookup_fmap, Hrow. cbn.
    eexists. split; [done|].
    destruct (decide (ProjectMember.id row = id)) as [Heq|Hne]; by repeat split.
Qed.

Lemma updateProjectMember_found d id b member :
  Storage.getProjectMember d id = Some member →
  (Storage.updateProjectMember d id b).1 = Some (Storage.set_hasAccess b member).
Proof.
  unfold Storage.getProjectMember, Storage.updateProjectMember. cbn [fst].
  induction (projectMembers d) as [|m l IH]; [done|].
  rewrite fmap_cons, !filter_cons.
  destruct (decide (ProjectMember.id m = id)) as [Heq|Hne].
  - cbn. rewrite decide_True by done. by intros [= ->].
  - rewrite decide_False by done. done.
Qed.

Lemma patch_project_member_outcome req body w :
  ∃ r d', (patch_project_member req body w).1 = r
          ∧ db (patch_project_member req body w).2 = d'
          ∧ member_outcome req body (db w) r d'.
Proof.
  unfold patch_project_member. cbv zeta.
  destruct (Js.truthy_opt (x_user_id req)) eqn:Hu; cbn [negb].
  2:{ eexists _, _. split_and!; [done..|]. by constructor. }
  destruct (updateSchema_parse body) as [b|] eqn:Hb.
  2:{ eexists _, _. split_and!; [done..|]. by constructor. }
  rewrite route_query.
  destruct (Storage.getProjectMember (db w) (param req)) as [member|] eqn:Hm.
  2:{ eexists _, _. split_and!; [done..|]. by apply (mo_no_member _ _ _ b). }
  rewrite route_query. cbn [db].
  destruct (Storage.getProject (db w) (ProjectMember.projectId member)) as [project|] eqn:Hp.
  2:{ eexists _, _. split_and!; [done..|]. by apply (mo_no_project _ _ _ b member). }
  unfold Js.opt_eq.
  destruct (decide (x_user_id req = Some (Project.vibeCodeId project))) as [Ho|Ho].
  - rewrite bool_decide_eq_true_2 by done. cbn [negb].
    unfold route, mbind, handler_bind, exec. cbn [db trace].
    pose proof (updateProjectMember_found (db w) (param req) b member Hm) as Hrow.
    destruct (Storage.updateProjectMember (db w) (param req) b) as [o d'] eqn:E.
    cbn [fst] in Hrow. subst o. cbn.
    eexists _, _. split_and!; [done..|].
    replace d' with (Storage.updateProjectMember (db w) (param req) b).2 by by rewrite E.
    apply (mo_updated _ _ _ b member project); try done.
    by apply updateProjectMember_found.
  - rewrite bool_decide_eq_false_2 by done. cbn [negb].
    eexists _, _. split_and!; [done..|]. by apply (mo_forbidden _ _ _ b member project).
Qed.

End MemberFacts.

Import MemberFacts.

(** C7.  [PATCH /api/project-members/:id] succeeds only when the caller is
    the owner of the project the member belongs to; a request by any other
    caller fails and leaves every record as it was, with 403 when the
    request is otherwise well-formed; on success the [hasAccess] field of
    the addressed row is set, in place, and every other field of that row,
    every other row and every other table are unchanged. *)
Theorem member_access_owner_only req body w r w' :
  patch_project_member req body w = (r, w') → owner_only req body w r w'.
Proof.
  intros Hrun.
  destruct (patch_project_member_outcome req body w) as (r0 & d0 & Hr & Hd & Hout).
  rewrite Hrun in Hr, Hd. cbn in Hr, Hd. subst r0 d0.
  unfold owner_only. split_and!.
  - intros Hok. destruct Hout as [| | | | |b member project row Hb Hm Hp Ho Hrow];
      try (cbn in Hok; lia).
    exists member, project, b. split_and!; try done.
    apply updateProjectMember_access_set.
  - intros Hfail. by destruct Hout.
  - intros caller b member project Hc Hne Hb Hm Hp.
    destruct Hout as [Hu|? Hnone|? ? ? Hnone|? ? ? ? Hm' Hnone
                      |? ? ? ? ? Hm' Hp' Ho|? ? ? ? ? Hm' Hp' Ho];
      unfold updateSchema_parse in *.
    + rewrite Hc in Hu. cbn in Hu. apply truthy_str_true in Hne. congruence.
    + congruence.
    + congruence.
    + rewrite Hm in Hm'. injection Hm' as <-. congruence.
    + rewrite Hm in Hm'. injection Hm' as <-. rewrite Hp in Hp'. injection Hp' as <-.
      split; [done|]. intros ->. congruence.
    + rewrite Hm in Hm'. injection Hm' as <-. rewrite Hp in Hp'. injection Hp' as <-.
      split; [|done]. intros Hneq. congruence.
Qed.

Lemma member_access_owner_only_witness :
  patch_project_member Demo.alice_grants_dave Demo.grant Demo.world
  = (mkResponse 200 (JMember (Storage.set_hasAccess true Demo.dave_member)),
     mkWorld (Storage.with_projectMembers Demo.store
                [Storage.set_hasAccess true Demo.dave_member; Demo.bob_member])
       [EGetProjectMember "mem-dave"; EGetProject "prj-atlas";
        EUpdateProjectMember "mem-dave"])
  ∧ owner_only Demo.alice_grants_dave Demo.grant Demo.world
      (mkResponse 200 (JMember (Storage.set_hasAccess true Demo.dave_member)))
      (mkWorld (Storage.with_projectMembers Demo.store
                  [Storage.set_hasAccess true Demo.dave_member; Demo.bob_member])
         [EGetProjectMember "mem-dave"; EGetProject "prj-atlas";
          EUpdateProjectMember "mem-dave"]).
Proof.
  split; [by vm_compute|].
  apply member_access_owner_only. by vm_compute.
Defined.

(** Bob, a member with full access, tries the same and is refused. *)
Example member_access_refused_to_member :
  patch_project_member Demo.bob_grants_dave Demo.grant Demo.world
  = (mkResponse 403 (JError "Only the project owner can update member access"),
     mkWorld Demo.store [EGetProjectMember "mem-dave"; EGetProject "prj-atlas"]).
Proof. by vm_compute. Qed.

(** ** Answering a match request *)

Module ResponseFacts.
Import Routes SuggestionFacts CandidateFacts MatchFacts.

Lemma filter_key_absent {A} (f : A → string) (P : A → Prop) `{!∀ x, Decision (P x)}
    (l : list A) k :
  k ∉ f <$> l → filter (λ y, f y = k) (filter P l) = [].
Proof.
  induction l as [|y l IH]; [done|]. rewrite fmap_cons, not_elem_of_cons.
  intros [Hy Hl]. rewrite filter_cons. destruct (decide (P y)).
  - rewrite filter_cons, decide_False by done. by apply IH.
  - by apply IH.
Qed.

(** [rows.find(r => r.id === x.id)] among the rows that satisfy [P]. *)
Lemma find_keyed {A} (f : A → string) (P : A → Prop) `{!∀ x, Decision (P x)}
    (l : list A) x :
  NoDup (f <$> l) → x ∈ l →
  head (filter (λ y, f y = f x) (filter P l)) = if decide (P x) then Some x else None.
Proof.
  induction l as [|y l IH]; intros Hnd Hx; [by apply elem_of_nil in Hx|].
  rewrite fmap_cons in Hnd. apply NoDup_cons in Hnd as [Hy Hnd].
  apply elem_of_cons in Hx as [->|Hx].
  - rewrite filter_cons. destruct (decide (P y)).
    + by rewrite filter_cons, decide_True.
    + by rewrite filter_key_absent.
  - assert (f y ≠ f x) as Hne.
    { intros Heq. apply Hy. rewrite Heq. apply list_elem_of_fmap. by exists x. }
    rewrite filter_cons. destruct (decide (P y)).
    + rewrite filter_cons, decide_False by done. by apply IH.
    + by apply IH.
Qed.

Section resolve.
Variable NODE_ENV : option string.
Variable inserted_profile : string → option Profile.t.

(** Looking the caller up may add a profile; it touches no other table. *)
Lemma resolve_keeps_matches req w s w1 :
  resolveCurrentProfile NODE_ENV inserted_profile req w = (s, w1) →
  matches (db w1) = matches (db w).
Proof.
  unfold resolveCurrentProfile. cbv zeta.
  destruct (if _ : bool then x_user_id req else _) as [userId|].
  2:{ by intros [= _ <-]. }
  unfold mbind, handler_bind, query. cbn [db trace].
  destruct (Storage.getProfileByUserId (db w) userId).
  { by intros [= _ <-]. }
  destruct (_ && _).
  2:{ by intros [= _ <-]. }
  unfold exec. cbn [db trace]. destruct (inserted_profile userId); cbn.
  - by intros [= _ <-].
  - by intros [= _ <-].
Qed.

Variable isAuthenticated : Request → bool.

(** The handler, case by case, for a caller resolved to [currentProfile] and
    a path that names the row [m]. *)
Lemma patch_match_cases req body now w currentProfile w1 m :
  isAuthenticated req = true →
  resolveCurrentProfile NODE_ENV inserted_profile req w = (Continue (Some currentProfile), w1) →
  matches_keyed (db w) → m ∈ matches (db w) → Match.id m = param req →
  patch_match NODE_ENV isAuthenticated inserted_profile req body now w
  = let w2 := mkWorld (db w1) (trace w1 ++ [EGetMatches (Profile.id currentProfile)]) in
    if decide (Match.initiatorId m = Profile.id currentProfile
               ∨ Match.receiverId m = Profile.id currentProfile) then
      if leaves_pending (MatchUpdate.status body)
         && negb (Js.str_eq (Match.receiverId m) (Profile.id currentProfile))
      then (mkResponse 403 (JError "Forbidden: Only the match receiver can accept or reject"), w2)
      else
        match Storage.updateMatch (db w1) (param req) (updateData body now) with
        | Some (Some m', d') =>
            (mkResponse 200 (JMatch m'),
             mkWorld d' (trace w2 ++ [EUpdateMatch (param req)]))
        | Some (None, d') =>
            (mkResponse 404 (JError "Match not found"),
             mkWorld d' (trace w2 ++ [EUpdateMatch (param req)]))
        | None =>
            (mkResponse 400 (JError "Failed to update match"),
             mkWorld (db w1) (trace w2 ++ [EUpdateMatch (param req)]))
        end
    else (mkResponse 404 (JError "Match not found"), w2).
Proof.
  intros Hauth Hres Hkey Hm Hid. cbv zeta.
  pose proof (resolve_keeps_matches req w _ w1 Hres) as Hsame.
  unfold patch_match. rewrite Hauth. cbn [negb].
  rewrite (route_bind _ _ _ w (Some currentProfile) w1 Hres).
  rewrite route_query. cbn [db].
  unfold Storage.getMatches. rewrite Hsame, <- Hid.
  rewrite (find_keyed Match.id
             (λ x, Match.initiatorId x = Profile.id currentProfile
                   ∨ Match.receiverId x = Profile.id currentProfile)) by done.
  destruct (decide _) as [Hparty|Hparty]; [|done].
  destruct (_ && _); [done|].
  unfold route, mbind, handler_bind, exec. cbn [db trace].
  rewrite Hid.
  by destruct (Storage.updateMatch (db w1) (param req) (updateData body now))
    as [[[m'|] d']|].
Qed.

End resolve.

End ResponseFacts.

Module UpdateFacts.
Import Routes ResponseFacts MatchFacts.

Lemma filter_key_none (l : list Match.t) k :
  k ∉ Match.id <$> l → filter (λ y, Match.id y = k) l = [].
Proof.
  induction l as [|y l IH]; [done|]. rewrite fmap_cons, not_elem_of_cons.
  intros [Hy Hl]. rewrite filter_cons, decide_False by done. by apply IH.
Qed.

(** [id] being the key, one row has the id of [m]. *)
Lemma filter_key (l : list Match.t) m :
  NoDup (Match.id <$> l) → m ∈ l → filter (λ y, Match.id y = Match.id m) l = [m].
Proof.
  induction l as [|y l IH]; intros Hnd Hm; [by apply elem_of_nil in Hm|].
  rewrite fmap_cons in Hnd. apply NoDup_cons in Hnd as [Hy Hnd].
  rewrite filter_cons. apply elem_of_cons in Hm as [->|Hm].
  - rewrite decide_True by done. by rewrite filter_key_none.
  - rewrite decide_False; [by apply IH|].
    intros Heq. apply Hy. rewrite Heq. apply list_elem_of_fmap. by exists m.
Qed.

Lemma updateMatch_keyed d id u m :
  matches_keyed d → m ∈ matches d → Match.id m = id →
  Storage.updateMatch d id u
  = if negb (Storage.no_values u) && Storage.plannable u && Storage.constraints_ok d id u
    then Some (Some (Storage.apply_update u m),
               Storage.with_matches d (updated id u <$> matches d))
    else None.
Proof.
  intros Hkey Hm Hid. unfold Storage.updateMatch. cbv zeta.
  destruct (Storage.no_values u); [done|]. cbn [negb andb].
  destruct (Storage.plannable u); [|done]. cbn [negb andb].
  rewrite bool_decide_eq_true_2.
  2:{ apply Exists_exists. by exists m. }
  cbn [negb]. destruct (Storage.constraints_ok d id u); [|done].
  fold (updated id u). rewrite <- Hid, filter_key by done. done.
Qed.

(** The handler's test of the status, and what it stands for. *)
Lemma leaves_pending_spec body :
  leaves_pending (MatchUpdate.status body) = true ↔ asks_other_status body.
Proof.
  unfold leaves_pending, asks_other_status.
  destruct (MatchUpdate.status body) as [[|s|b t]|]; cbn.
  - split; [done|]. by intros [(s & [=] & _)|(t & [=])].
  - rewrite andb_true_iff, negb_true_iff, bool_decide_eq_false, CandidateFacts.truthy_str_true.
    split.
    + intros [Hs Hp]. left. exists s. split_and!; [done..|]. congruence.
    + intros [(s' & [= <-] & Hs & Hp)|(t & [=])]. split; [done|]. congruence.
  - rewrite andb_true_iff, negb_true_iff, bool_decide_eq_false. split.
    + intros [-> _]. right. by exists t.
    + intros [(s' & [=] & _)|(t' & [= -> _])]. done.
  - split; [done|]. by intros [(s & [=] & _)|(t & [=])].
Qed.

(** What an update that the driver can send leaves in the row. *)
Lemma accepted_update body now m :
  Storage.plannable (updateData body now) = true →
  (MatchUpdate.status body = None
   → Match.status (Storage.apply_update (updateData body now) m) = Match.status m)
  ∧ (∀ s, MatchUpdate.status body = Some (Json.Str s) → (String.length s ≤ 20)%nat →
          Match.status (Storage.apply_update (updateData body now) m) = s)
  ∧ (∀ t, MatchUpdate.respondedAt body = Some (TJson true (Some t)) →
          Match.respondedAt (Storage.apply_update (updateData body now) m) = Some t)
  ∧ MatchUpdate.respondedAt body ≠ Some (TJson true None)
  ∧ (no_response_time body → asks_other_status body →
     Match.respondedAt (Storage.apply_update (updateData body now) m) = Some now)
  ∧ (¬ asks_other_status body →
     (MatchUpdate.respondedAt body = None →
      Match.respondedAt (Storage.apply_update (updateData body now) m) = Match.respondedAt m)
     ∧ (MatchUpdate.respondedAt body = Some TNull →
        Match.respondedAt (Storage.apply_update (updateData body now) m) = None)
     ∧ ∀ date, MatchUpdate.respondedAt body ≠ Some (TJson false date)).
Proof.
  intros Hplan.
  assert (Storage.encodable (MatchUpdate.respondedAt (updateData body now)) = true) as Henc.
  { unfold Storage.plannable in Hplan. by repeat (apply andb_true_iff in Hplan as [Hplan ?]). }
  unfold Storage.apply_update, updateData in *. cbn [Match.status Match.respondedAt
    MatchUpdate.status MatchUpdate.respondedAt] in *.
  split; [by intros ->|]. split.
  { intros s -> Hs. unfold Storage.sent. cbn [mbind option_bind Json.text].
    by rewrite varchar_short. }
  split; [by intros t ->|]. split.
  { intros Hr. by rewrite Hr in Henc. }
  split.
  { intros Hno Hasks. apply leaves_pending_spec in Hasks. rewrite Hasks.
    by destruct Hno as [->|[->|[d ->]]]. }
  intros Hasks.
  destruct (leaves_pending (MatchUpdate.status body)) eqn:E.
  { by apply leaves_pending_spec in E. }
  split; [by intros ->|]. split; [by intros ->|].
  intros date Hr. by rewrite Hr in Henc.
Qed.

End UpdateFacts.

Import ResponseFacts UpdateFacts.

(** C5 (as amended).  A request to change a match is answered 404 when the
    caller is no party to the match, and every answer other than 200 leaves
    the match rows as they were.  A request whose status is truthy and is
    not 'pending' (such as 'accepted' or 'rejected') succeeds only when the
    caller is the receiver of the match; the initiator is answered 403.  A
    request with any other status, the empty string among them, is not
    checked against the receiver.  A successful request writes the status of
    the body and a response time: the time the body supplies if that is
    truthy, otherwise the time of the request when the status is truthy and
    not 'pending', and otherwise what the body says ([null], or nothing). *)
Theorem match_status_set_by_receiver_only
    NODE_ENV isAuthenticated inserted_profile req body now w currentProfile w1 m r w' :
  isAuthenticated req = true →
  resolveCurrentProfile NODE_ENV inserted_profile req w = (Continue (Some currentProfile), w1) →
  matches_keyed (db w) → m ∈ matches (db w) → Match.id m = param req →
  patch_match NODE_ENV isAuthenticated inserted_profile req body now w = (r, w') →
  receiver_rule currentProfile m body now w r w'.
Proof.
  intros Hauth Hres Hkey Hm Hid Hrun.
  rewrite (patch_match_cases _ _ _ req body now w currentProfile w1 m) in Hrun by done.
  pose proof (resolve_keeps_matches _ _ req w _ w1 Hres) as Hsame.
  cbv zeta in Hrun. unfold receiver_rule.
  destruct (decide _) as [Hparty|Hparty] in Hrun.
  2:{ injection Hrun as <- <-. cbn. split_and!; try done. intros _. split; [done|]. tauto. }
  destruct (leaves_pending (MatchUpdate.status body)
            && negb (Js.str_eq (Match.receiverId m) (Profile.id currentProfile))) eqn:Hchk.
  { injection Hrun as <- <-. cbn. split_and!; try done. tauto. }
  assert (asks_other_status body → Match.receiverId m = Profile.id currentProfile) as Hrule.
  { intros Hasks%leaves_pending_spec. rewrite Hasks in Hchk. cbn in Hchk.
    by apply negb_false_iff, str_eq_true in Hchk. }
  rewrite (updateMatch_keyed (db w1) (param req) _ m) in Hrun
    by (by rewrite ?Hid, ?Hsame || by unfold matches_keyed; rewrite Hsame).
  destruct (negb _ && Storage.plannable _ && _) eqn:Hok in Hrun; injection Hrun as <- <-; cbn.
  2:{ split_and!; try done; try tauto. }
  apply andb_true_iff in Hok as [Hok _]. apply andb_true_iff in Hok as [_ Hplan].
  split; [done|]. split; [tauto|]. split.
  { intros Hasks. split; [by intros _; apply Hrule|].
    intros _ Hne. by destruct Hne, (Hrule Hasks). }
  intros _. eexists. split; [done|]. split; [done|]. split; [by rewrite Hsame, Hid|].
  apply (accepted_update body now m Hplan).
Qed.

(** Alice, the initiator, stamps her own pending request with a response
    time; it stays pending.  Dave, the receiver, accepts the request and
    later rejects it: the response time is written both times.  Bob, who
    is no party to the request, is told that there is no such match.  And
    Alice, who may not accept her own request, takes it out of the state
    'pending' by setting its status to the empty string. *)
Lemma respondedAt_written_while_pending_and_twice :
  (Match.receiverId Demo.alice_dave ≠ Profile.id Demo.alice
   ∧ Match.status Demo.alice_dave = "pending"
   ∧ Match.respondedAt Demo.alice_dave = None
   ∧ ∃ m' w',
       Demo.patch Demo.alice_on_m1 Demo.stamp 2000 Demo.world
       = (mkResponse 200 (JMatch m'), w')
       ∧ matches (db w') = [m']
       ∧ Match.status m' = "pending"
       ∧ Match.respondedAt m' = Some 1500)
  ∧ (∃ m1 w1 m2 w2,
       Demo.patch Demo.dave_on_m1 Demo.accept 2000 Demo.world
       = (mkResponse 200 (JMatch m1), w1)
       ∧ Match.status m1 = "accepted" ∧ Match.respondedAt m1 = Some 2000
       ∧ Demo.patch Demo.dave_on_m1 Demo.reject 3000 w1
         = (mkResponse 200 (JMatch m2), w2)
       ∧ Match.status m2 = "rejected" ∧ Match.respondedAt m2 = Some 3000)
  ∧ (Demo.patch Demo.bob_on_m1 Demo.accept 2000 Demo.world).1
    = mkResponse 404 (JError "Match not found")
  ∧ ((Demo.patch Demo.alice_on_m1 Demo.accept 2000 Demo.world).1
     = mkResponse 403 (JError "Forbidden: Only the match receiver can accept or reject")
     ∧ ∃ m' w',
         Demo.patch Demo.alice_on_m1 Demo.blank 2000 Demo.world
         = (mkResponse 200 (JMatch m'), w')
         ∧ matches (db w') = [m']
         ∧ Match.status m' = EmptyString
         ∧ Match.respondedAt m' = None).
Proof.
  split; [|split; [|split]].
  - split_and!; [by vm_compute | done | done |].
    eexists _, _. split; [by vm_compute|]. done.
  - eexists _, _, _, _. split; [by vm_compute|].
    split; [done|]. split; [done|]. split; [by vm_compute|]. done.
  - by vm_compute.
  - split; [by vm_compute|]. eexists _, _. split; [by vm_compute|]. done.
Qed.

Lemma match_status_set_by_receiver_only_witness :
  Demo.isAuthenticated Demo.dave_on_m1 = true
  ∧ resolveCurrentProfile Demo.NODE_ENV Demo.no_insert Demo.dave_on_m1 Demo.world
    = (Continue (Some Demo.dave), mkWorld Demo.store [EGetProfileByUserId "u-dave"])
  ∧ matches_keyed (db Demo.world)
  ∧ Demo.alice_dave ∈ matches (db Demo.world)
  ∧ Match.id Demo.alice_dave = param Demo.dave_on_m1
  ∧ Demo.patch Demo.dave_on_m1 Demo.accept 2000 Demo.world
    = (mkResponse 200 (JMatch (Demo.accepted_at 2000)),
       mkWorld (Storage.with_matches Demo.store [Demo.accepted_at 2000])
         [EGetProfileByUserId "u-dave"; EGetMatches "p-dave"; EUpdateMatch "m1"])
  ∧ receiver_rule Demo.dave Demo.alice_dave Demo.accept 2000 Demo.world
      (mkResponse 200 (JMatch (Demo.accepted_at 2000)))
      (mkWorld (Storage.with_matches Demo.store [Demo.accepted_at 2000])
         [EGetProfileByUserId "u-dave"; EGetMatches "p-dave"; EUpdateMatch "m1"]).
Proof.
  assert (matches_keyed (db Demo.world)) as Hkey by apply NoDup_singleton.
  split_and!; [reflexivity | by vm_compute | exact Hkey | apply list_elem_of_here
               | reflexivity | by vm_compute |].
  apply (match_status_set_by_receiver_only Demo.NODE_ENV Demo.isAuthenticated Demo.no_insert
           Demo.dave_on_m1 Demo.accept 2000 Demo.world Demo.dave
           (mkWorld Demo.store [EGetProfileByUserId "u-dave"]) Demo.alice_dave);
    [reflexivity | by vm_compute | exact Hkey | apply list_elem_of_here | reflexivity
     | by vm_compute].
Defined.

(** ** Reading a project's sub-resources *)

Module AccessFacts.
Import Routes.

(** The tier logic of the dashboard page. *)
Lemma visibleTasks_full tasks currentUserId :
  Client.visibleTasks true tasks currentUserId = tasks.
Proof. done. Qed.

Lemma visibleTasks_limited tasks currentUserId t :
  t ∈ Client.visibleTasks false tasks currentUserId
  ↔ t ∈ tasks ∧ Task.assignedTo t = Some currentUserId.
Proof. unfold Client.visibleTasks. rewrite list_elem_of_filter. tauto. Qed.

Lemma visibleMembers_limited members currentUserId m :
  m ∈ Client.visibleMembers false members currentUserId
  ↔ m ∈ members ∧ ProjectMember.profileId m = currentUserId.
Proof. unfold Client.visibleMembers. rewrite list_elem_of_filter. tauto. Qed.

(** The four read handlers answer with every row of the project, whatever
    the request says about the caller. *)
Lemma project_reads_serve_all req w :
  get_project_tasks req w
  = (mkResponse 200 (JTasks (Storage.getTasksByProject (db w) (param req))),
     mkWorld (db w) (trace w ++ [EGetTasksByProject (param req)]))
  ∧ get_project_members req w
    = (mkResponse 200 (JMembers (Storage.getProjectMembers (db w) (param req))),
       mkWorld (db w) (trace w ++ [EGetProjectMembers (param req)]))
  ∧ get_project_repositories req w
    = (mkResponse 200 (JRepositories (Storage.getCodeRepositoriesByProject (db w) (param req))),
       mkWorld (db w) (trace w ++ [EGetCodeRepositoriesByProject (param req)]))
  ∧ get_project_contributions req w
    = (mkResponse 200 (JContributions (Storage.getContributionsByProject (db w) (param req))),
       mkWorld (db w) (trace w ++ [EGetContributionsByProject (param req)])).
Proof. done. Qed.

End AccessFacts.

(** C6, evaluated.  Erin is neither owner nor member of Atlas, Dave is a
    member without access to whom one of its two tasks is assigned.  The
    page computes their tiers and what they may see; the server answers both
    with status 200, all tasks and the whole team. *)
Theorem project_reads_not_filtered_by_tier :
  Client.isTeamMember "p-erin" Demo.atlas (Storage.getProjectMembers Demo.store "prj-atlas")
  = false
  ∧ (get_project_tasks Demo.erin_reads_atlas Demo.world).1
    = mkResponse 200 (JTasks [Demo.task_dave; Demo.task_bob])
  ∧ (get_project_members Demo.erin_reads_atlas Demo.world).1
    = mkResponse 200 (JMembers [Demo.dave_member; Demo.bob_member])
  ∧ Client.isTeamMember "p-dave" Demo.atlas (Storage.getProjectMembers Demo.store "prj-atlas")
    = true
  ∧ Client.hasFullAccess "p-dave" Demo.atlas (Storage.getProjectMembers Demo.store "prj-atlas")
    = false
  ∧ Client.visibleTasks false [Demo.task_dave; Demo.task_bob] "p-dave" = [Demo.task_dave]
  ∧ (get_project_tasks Demo.dave_reads_atlas Demo.world).1
    = mkResponse 200 (JTasks [Demo.task_dave; Demo.task_bob])
  ∧ (get_project_members Demo.dave_reads_atlas Demo.world).1
    = mkResponse 200 (JMembers [Demo.dave_member; Demo.bob_member]).
Proof. by vm_compute. Qed.

(** ** The value distribution of the dashboard *)

Module ShareFacts.
Import Client.

Lemma foldl_sum (cs : list Contribution.t) (a : Z) :
  foldl (λ sum c, sum + value_of c) a cs = a + Zsum (value_of <$> cs).
Proof.
  revert a. induction cs as [|c cs IH]; intros a.
  - unfold Zsum. simpl. lia.
  - rewrite fmap_cons. simpl. rewrite IH. unfold Zsum. simpl. lia.
Qed.

Lemma totalValue_spec cs : totalValue (Some cs) = Zsum (value_of <$> cs).
Proof. unfold totalValue. simpl. by rewrite foldl_sum. Qed.

Lemma earned_cons id c cs :
  earned id (c :: cs)
  = if decide (Contribution.contributorId c = id)
    then value_of c + earned id cs else earned id cs.
Proof. unfold earned. rewrite filter_cons. by destruct (decide _). Qed.

Lemma earned_absent id cs : id ∉ Contribution.contributorId <$> cs → earned id cs = 0.
Proof.
  induction cs as [|c cs IH]; [done|].
  rewrite fmap_cons, not_elem_of_cons. intros [Hne Hcs].
  rewrite earned_cons. destruct (decide _); [congruence | by apply IH].
Qed.

Lemma foldl_step_lookup (cs : list Contribution.t) (acc : gmap string Z) k :
  foldl step acc cs !! k
  = if decide (k ∈ Contribution.contributorId <$> cs)
    then Some (default 0 (acc !! k) + earned k cs)
    else acc !! k.
Proof.
  revert acc. induction cs as [|c cs IH]; intros acc.
  - destruct (decide _) as [H|H]; [by apply elem_of_nil in H | done].
  - cbn [foldl]. rewrite IH, earned_cons, fmap_cons. unfold step.
    destruct (decide (Contribution.contributorId c = k)) as [->|Hne].
    + rewrite lookup_insert_eq. cbn [default from_option id].
      rewrite (decide_True (P := k ∈ k :: _)) by apply list_elem_of_here.
      destruct (decide (k ∈ Contribution.contributorId <$> cs)) as [Hin|Hin].
      * f_equal. lia.
      * rewrite earned_absent by done. f_equal. lia.
    + rewrite lookup_insert_ne by done.
      destruct (decide (k ∈ Contribution.contributorId <$> cs)) as [Hin|Hin].
      * rewrite decide_True; [done|]. by apply list_elem_of_further.
      * rewrite decide_False; [done|]. rewrite not_elem_of_cons. by split.
Qed.

Lemma contributorValues_lookup cs id :
  contributorValues (Some cs) !! id
  = if decide (id ∈ Contribution.contributorId <$> cs) then Some (earned id cs) else None.
Proof.
  unfold contributorValues. simpl. fold step. rewrite foldl_step_lookup, lookup_empty.
  simpl. destruct (decide _); [f_equal; lia | done].
Qed.

(** The entries of the page's list: one per contributor that has a
    contribution, with the contributor's sum. *)
Lemma contributorPercentages_elem contributions sh :
  sh ∈ contributorPercentages contributions ↔
  ∃ cs, contributions = Some cs
        ∧ contributorId sh ∈ Contribution.contributorId <$> cs
        ∧ value sh = earned (contributorId sh) cs
        ∧ percentage sh
          = if 0 <? totalValue contributions
            then (inject_Z (value sh) / inject_Z (totalValue contributions) * 100)%Q
            else 0%Q.
Proof.
  unfold contributorPercentages. cbv zeta. rewrite list_elem_of_fmap. split.
  - intros ([id v] & -> & Hin). apply elem_of_map_to_list in Hin.
    destruct contributions as [cs|].
    2:{ unfold contributorValues in Hin. cbn [from_option] in Hin.
        by rewrite lookup_empty in Hin. }
    rewrite contributorValues_lookup in Hin.
    destruct (decide _) as [Hc|Hc] in Hin; [|done]. injection Hin as <-.
    exists cs. by cbn.
  - intros (cs & -> & Hin & Hv & Hp). exists (contributorId sh, value sh). split.
    + destruct sh as [id p v]. cbn in *. by rewrite Hp.
    + apply elem_of_map_to_list. rewrite contributorValues_lookup.
      rewrite decide_True by done. by rewrite Hv.
Qed.

End ShareFacts.

Import Client ShareFacts.

(** C10 (as amended).  A contribution without a [valueScore] counts 0.
    Every entry of the distribution belongs to a contributor of the project
    and carries the sum of that contributor's scores; its percentage is 0
    when the total of all scores is 0 or negative, and is the contributor's
    sum divided by the total, times 100, when the total is positive. *)
Theorem distribution_is_division_safe contributions sh :
  sh ∈ contributorPercentages contributions →
  ∃ cs,
    contributions = Some cs
    ∧ (∀ c, Contribution.valueScore c = None → value_of c = 0)
    ∧ totalValue contributions = Zsum (value_of <$> cs)
    ∧ contributorId sh ∈ Contribution.contributorId <$> cs
    ∧ value sh = earned (contributorId sh) cs
    ∧ (totalValue contributions ≤ 0 → percentage sh = 0%Q)
    ∧ (0 < totalValue contributions →
       percentage sh
       = (inject_Z (value sh) / inject_Z (totalValue contributions) * 100)%Q).
Proof.
  intros Hsh. apply contributorPercentages_elem in Hsh as (cs & -> & Hin & Hv & Hp).
  exists cs. split_and!; try done.
  - intros c Hc. unfold value_of. by rewrite Hc.
  - apply totalValue_spec.
  - intros Hle. rewrite Hp. by rewrite (proj2 (Z.ltb_ge 0 _) Hle).
  - intros Hlt. rewrite Hp. by rewrite (proj2 (Z.ltb_lt 0 _) Hlt).
Qed.

Lemma distribution_is_division_safe_witness :
  mkShare "p-dave" (inject_Z 30 / inject_Z 40 * 100)%Q 30 ∈ contributorPercentages Demo.ledger
  ∧ ∃ cs,
      Demo.ledger = Some cs
      ∧ (∀ c, Contribution.valueScore c = None → value_of c = 0)
      ∧ totalValue Demo.ledger = Zsum (value_of <$> cs)
      ∧ "p-dave" ∈ Contribution.contributorId <$> cs
      ∧ 30 = earned "p-dave" cs
      ∧ (totalValue Demo.ledger ≤ 0 → (inject_Z 30 / inject_Z 40 * 100)%Q = 0%Q)
      ∧ (0 < totalValue Demo.ledger →
         (inject_Z 30 / inject_Z 40 * 100)%Q
         = (inject_Z 30 / inject_Z (totalValue Demo.ledger) * 100)%Q).
Proof.
  assert (mkShare "p-dave" (inject_Z 30 / inject_Z 40 * 100)%Q 30
          ∈ contributorPercentages Demo.ledger) as Hin.
  { apply contributorPercentages_elem. eexists. split; [reflexivity|].
    split; [apply list_elem_of_here|]. split; reflexivity. }
  split; [exact Hin|].
  apply (distribution_is_division_safe Demo.ledger
           (mkShare "p-dave" (inject_Z 30 / inject_Z 40 * 100)%Q 30) Hin).
Defined.

(** One contribution, of score -5: the total is -5, not 0, and the only
    contributor's share is shown as 0, while the sum divided by the total,
    times 100, is 100. *)
Lemma negative_total_shows_zero :
  totalValue Demo.debit = -5
  ∧ contributorPercentages Demo.debit = [mkShare "p-dave" 0%Q (-5)]
  ∧ ¬ (0 == inject_Z (-5) / inject_Z (totalValue Demo.debit) * 100)%Q.
Proof. split_and!; [by vm_compute | by vm_compute | by vm_compute]. Qed.

(** Three contributions, one without a score. *)
Example ledger_shares :
  totalValue Demo.ledger = 40
  ∧ contributorValues Demo.ledger !! "p-dave" = Some 30
  ∧ contributorValues Demo.ledger !! "p-bob" = Some 10.
Proof. by vm_compute. Qed.

(** * Further properties *)

Import SpecMore.

(** ** The persistence layer: what is written can be read back *)

Module StorageFacts.

Lemma with_projectMembers_same d : Storage.with_projectMembers d (projectMembers d) = d.
Proof. by destruct d. Qed.

Lemma with_matches_same d : Storage.with_matches d (matches d) = d.
Proof. by destruct d. Qed.

Lemma createMatch_row d newId now m row d' :
  Storage.createMatch d newId now m = Some (row, d') →
  (∃ status matchType,
     Storage.varchar 20 (default "pending" (InsertMatch.status m)) = Some status
     ∧ Storage.varchar 20 (InsertMatch.matchType m) = Some matchType
     ∧ row = Match.mk newId (InsertMatch.initiatorId m) (InsertMatch.receiverId m)
               status matchType
               (InsertMatch.matchReason m) (InsertMatch.message m) (Some now) None)
  ∧ d' = Storage.with_matches d (matches d ++ [row])
  ∧ Storage.profile_exists d (InsertMatch.initiatorId m) = true
  ∧ Storage.profile_exists d (InsertMatch.receiverId m) = true.
Proof.
  unfold Storage.createMatch.
  destruct (Storage.profile_exists d (InsertMatch.initiatorId m)); [|done].
  destruct (Storage.profile_exists d (InsertMatch.receiverId m)); [|done]. cbn [andb].
  destruct (Storage.varchar 20 (default "pending" (InsertMatch.status m))) as [st|]; [|done].
  destruct (Storage.varchar 20 (InsertMatch.matchType m)) as [mt|]; [|done].
  cbn. intros [= <- <-]. split; [by exists st, mt|]. done.
Qed.

(** The rows listed for [pid] after an insert. *)
Lemma createMatch_getMatches d newId now m row d' pid :
  Storage.createMatch d newId now m = Some (row, d') →
  Storage.getMatches d' pid
  = (Storage.getMatches d pid
     ++ if decide (InsertMatch.initiatorId m = pid ∨ InsertMatch.receiverId m = pid)
        then [row] else [])%list.
Proof.
  intros ((st & mt & _ & _ & ->) & -> & _)%createMatch_row.
  unfold Storage.getMatches. cbn [matches Storage.with_matches].
  rewrite filter_app. by f_equal.
Qed.


Lemma getProjectMember_updated l id id' b :
  head (filter (λ m, ProjectMember.id m = id') (set_access id b <$> l))
  = set_access id b <$> head (filter (λ m, ProjectMember.id m = id') l).
Proof.
  induction l as [|m l IH]; [done|].
  rewrite fmap_cons, !filter_cons.
  assert (ProjectMember.id (set_access id b m) = ProjectMember.id m) as ->.
  { unfold set_access. by destruct (decide _). }
  destruct (decide (ProjectMember.id m = id')); [done | exact IH].
Qed.

Lemma set_access_miss l id b :
  head (filter (λ m, ProjectMember.id m = id) l) = None → set_access id b <$> l = l.
Proof.
  induction l as [|m l IH]; [done|]. rewrite filter_cons, fmap_cons.
  destruct (decide (ProjectMember.id m = id)) as [Heq|Hne]; [done|].
  intros Hl. unfold set_access at 1. rewrite decide_False by done. by rewrite IH.
Qed.

Lemma set_access_twice id b b' m : set_access id b' (set_access id b m) = set_access id b' m.
Proof.
  unfold set_access. destruct (decide (ProjectMember.id m = id)) as [Heq|Hne].
  - by rewrite decide_True by done.
  - by rewrite decide_False by done.
Qed.

End StorageFacts.

Import StorageFacts.

(** X1.  A match that has been inserted is listed for its initiator and for
    its receiver, together with the rows that were listed before; for every
    other profile the list is as before. *)
Theorem created_match_is_listed_for_both d newId now m row d' :
  Storage.createMatch d newId now m = Some (row, d') →
  Match.id row = newId ∧ Match.respondedAt row = None
  ∧ Storage.getMatches d' (InsertMatch.initiatorId m)
    ≡ₚ row :: Storage.getMatches d (InsertMatch.initiatorId m)
  ∧ Storage.getMatches d' (InsertMatch.receiverId m)
    ≡ₚ row :: Storage.getMatches d (InsertMatch.receiverId m)
  ∧ ∀ pid, pid ≠ InsertMatch.initiatorId m → pid ≠ InsertMatch.receiverId m →
           Storage.getMatches d' pid = Storage.getMatches d pid.
Proof.
  intros Hc.
  pose proof (createMatch_row _ _ _ _ _ _ Hc) as ((st & mt & _ & _ & Hrow) & _ & _).
  split_and!.
  - by rewrite Hrow.
  - by rewrite Hrow.
  - rewrite (createMatch_getMatches _ _ _ _ _ _ _ Hc). rewrite decide_True by by left.
    by rewrite <- Permutation_cons_append.
  - rewrite (createMatch_getMatches _ _ _ _ _ _ _ Hc). rewrite decide_True by by right.
    by rewrite <- Permutation_cons_append.
  - intros pid Hi Hr. rewrite (createMatch_getMatches _ _ _ _ _ _ _ Hc).
    rewrite decide_False; [by rewrite app_nil_r|]. intros [?|?]; congruence.
Qed.

Lemma created_match_is_listed_for_both_witness :
  Storage.createMatch Demo.store "m2" 2000 Demo.bob_asks_alice_data
  = Some (Demo.bob_alice, Storage.with_matches Demo.store [Demo.alice_dave; Demo.bob_alice])
  ∧ Storage.getMatches (Storage.with_matches Demo.store [Demo.alice_dave; Demo.bob_alice])
      "p-alice"
    ≡ₚ Demo.bob_alice :: Storage.getMatches Demo.store "p-alice".
Proof.
  split; [by vm_compute|].
  refine (proj1 (proj2 (proj2 (proj2
    (created_match_is_listed_for_both Demo.store "m2" 2000 Demo.bob_asks_alice_data
       Demo.bob_alice (Storage.with_matches Demo.store [Demo.alice_dave; Demo.bob_alice])
       _))))).
  by vm_compute.
Defined.

(** X2.  Setting the access flag of a member: when a row has the id, the
    statement returns that row with the new flag, a later lookup of the id
    finds it, and lookups of other ids find what they found before; when no
    row has the id, nothing is returned and the database is as before.  Of
    two updates of one id the later one decides. *)
Theorem member_update_reads_back d id b :
  match Storage.getProjectMember d id with
  | Some member =>
      (Storage.updateProjectMember d id b).1 = Some (Storage.set_hasAccess b member)
      ∧ Storage.getProjectMember (Storage.updateProjectMember d id b).2 id
        = Some (Storage.set_hasAccess b member)
  | None =>
      Storage.updateProjectMember d id b = (None, d)
  end
  ∧ (∀ id', id' ≠ id →
       Storage.getProjectMember (Storage.updateProjectMember d id b).2 id'
       = Storage.getProjectMember d id')
  ∧ (∀ b', (Storage.updateProjectMember (Storage.updateProjectMember d id b).2 id b').2
           = (Storage.updateProjectMember d id b').2).
Proof.
  assert (∀ id', Storage.getProjectMember (Storage.updateProjectMember d id b).2 id'
                 = set_access id b <$> Storage.getProjectMember d id') as Hget.
  { intros id'. unfold Storage.getProjectMember, Storage.updateProjectMember.
    cbn [snd projectMembers Storage.with_projectMembers].
    apply (getProjectMember_updated (projectMembers d) id id' b). }
  split_and!.
  - destruct (Storage.getProjectMember d id) as [member|] eqn:Hm.
    + assert (ProjectMember.id member = id) as Hid.
      { unfold Storage.getProjectMember in Hm.
        apply head_Some_elem_of, list_elem_of_filter in Hm. tauto. }
      assert (set_access id b member = Storage.set_hasAccess b member) as Hset.
      { unfold set_access. by rewrite decide_True. }
      split.
      * unfold Storage.updateProjectMember. cbn [fst].
        fold (set_access id b). rewrite (getProjectMember_updated (projectMembers d) id id b).
        unfold Storage.getProjectMember in Hm. rewrite Hm. cbn [fmap option_fmap option_map].
        by rewrite Hset.
      * rewrite Hget, Hm. cbn [fmap option_fmap option_map]. by rewrite Hset.
    + unfold Storage.updateProjectMember. fold (set_access id b).
      unfold Storage.getProjectMember in Hm.
      rewrite (getProjectMember_updated (projectMembers d) id id b), Hm.
      rewrite set_access_miss by done. by rewrite with_projectMembers_same.
  - intros id' Hne. rewrite Hget.
    destruct (Storage.getProjectMember d id') as [m|] eqn:Hm; [|done]. cbn.
    unfold Storage.getProjectMember in Hm.
    apply head_Some_elem_of, list_elem_of_filter in Hm as [Hid _].
    unfold set_access. rewrite decide_False; [done|congruence].
  - intros b'. unfold Storage.updateProjectMember. cbn [snd].
    cbn [projectMembers Storage.with_projectMembers].
    fold (set_access id b) (set_access id b').
    rewrite <- list_fmap_compose.
    assert ((set_access id b' ∘ set_access id b) <$> projectMembers d
            = set_access id b' <$> projectMembers d) as ->.
    { apply list_fmap_ext. intros _ m _. apply set_access_twice. }
    by destruct d.
Qed.

(** ** Updating and creating matches *)

Module MatchStoreFacts.
Import Routes CandidateFacts MatchFacts UpdateFacts.

Lemma set_time_twice new old :
  Storage.set_time new (Storage.set_time new old) = Storage.set_time new old.
Proof. by destruct new as [[|[t|]|b d]|]. Qed.

Lemma apply_update_twice u m :
  Storage.apply_update u (Storage.apply_update u m) = Storage.apply_update u m.
Proof.
  unfold Storage.apply_update. cbn. f_equal; try apply set_time_twice.
  - by destruct (Storage.sent (MatchUpdate.id u)).
  - by destruct (Storage.sent (MatchUpdate.initiatorId u)).
  - by destruct (Storage.sent (MatchUpdate.receiverId u)).
  - by destruct (_ ≫= _).
  - by destruct (_ ≫= _).
  - by destruct (MatchUpdate.matchReason u).
  - by destruct (MatchUpdate.message u).
Qed.

Lemma sent_new_id id u :
  default id (Storage.sent (MatchUpdate.id u)) = new_id id u.
Proof. unfold new_id. by destruct (MatchUpdate.id u) as [[|s|b s]|]. Qed.

Lemma updated_id id u x :
  Match.id (updated id u x) = if decide (Match.id x = id) then new_id id u else Match.id x.
Proof.
  unfold updated. destruct (decide (Match.id x = id)) as [<-|]; [|done].
  unfold Storage.apply_update. cbn. apply sent_new_id.
Qed.

Lemma updated_createdAt id u x :
  MatchUpdate.createdAt u = None → Match.createdAt (updated id u x) = Match.createdAt x.
Proof.
  intros Hc. unfold updated. destruct (decide _); [|done].
  unfold Storage.apply_update. cbn. by rewrite Hc.
Qed.

Lemma updated_absent id u l :
  ¬ Exists (λ m, Match.id m = id) l → updated id u <$> l = l.
Proof.
  induction l as [|m l IH]; [done|]. rewrite Exists_cons. intros Hn.
  rewrite fmap_cons, IH by tauto. unfold updated. rewrite decide_False; [done|tauto].
Qed.

Lemma find_absent id (l : list Match.t) :
  ¬ Exists (λ m, Match.id m = id) l → filter (λ m, Match.id m = id) l = [].
Proof.
  induction l as [|m l IH]; [done|]. rewrite Exists_cons. intros Hn.
  rewrite filter_cons, decide_False by tauto. apply IH. tauto.
Qed.

(** The rows of the id after an update that keeps the id. *)
Lemma filter_updated id u (l : list Match.t) :
  new_id id u = id →
  filter (λ m, Match.id m = id) (updated id u <$> l)
  = Storage.apply_update u <$> filter (λ m, Match.id m = id) l.
Proof.
  intros Hid. induction l as [|x l IH]; [done|].
  rewrite fmap_cons, !filter_cons, updated_id.
  destruct (decide (Match.id x = id)) as [Hx|Hx].
  - rewrite decide_True by done. rewrite fmap_cons, IH. f_equal.
    unfold updated. by rewrite decide_True.
  - by rewrite decide_False.
Qed.

(** No row has the id after an update that changes it. *)
Lemma renamed_away id u (l : list Match.t) :
  new_id id u ≠ id → ¬ Exists (λ m, Match.id m = id) (updated id u <$> l).
Proof.
  intros Hid. rewrite Exists_exists. intros (y & Hy & Hyid).
  apply list_elem_of_fmap in Hy as (x & -> & _). rewrite updated_id in Hyid.
  by destruct (decide (Match.id x = id)).
Qed.

(** What a statement that the database accepts has passed, and leaves
    behind. *)
Lemma updateMatch_rows d id u o d' :
  Storage.updateMatch d id u = Some (o, d') →
  d' = Storage.with_matches d (updated id u <$> matches d)
  ∧ o = head (Storage.apply_update u <$> filter (λ m, Match.id m = id) (matches d))
  ∧ Storage.no_values u = false ∧ Storage.plannable u = true
  ∧ (Exists (λ m, Match.id m = id) (matches d) → Storage.constraints_ok d id u = true).
Proof.
  unfold Storage.updateMatch. cbv zeta. destruct (Storage.no_values u); [done|].
  destruct (Storage.plannable u); [|done]. cbn [negb].
  destruct (bool_decide (Exists (λ m, Match.id m = id) (matches d))) eqn:E; cbn [negb].
  - destruct (Storage.constraints_ok d id u); [|done]. intros [= <- <-].
    by fold (updated id u).
  - apply bool_decide_eq_false in E. intros [= <- <-].
    rewrite updated_absent, find_absent by done.
    by rewrite StorageFacts.with_matches_same.
Qed.

Lemma pk_ok_spec d id u :
  Storage.pk_ok d id (MatchUpdate.id u) = true →
  new_id id u = id ∨ new_id id u ∉ Match.id <$> matches d.
Proof.
  unfold Storage.pk_ok, new_id, Storage.sent.
  destruct (MatchUpdate.id u) as [[|s|b s]|]; cbn; try (by left);
    by intros ?%bool_decide_eq_true.
Qed.

Lemma constraints_pk d id u :
  Storage.constraints_ok d id u = true →
  new_id id u = id ∨ new_id id u ∉ Match.id <$> matches d.
Proof.
  unfold Storage.constraints_ok. intros [_ Hpk]%andb_true_iff. by apply pk_ok_spec.
Qed.

(** The frame of an update. *)
Lemma updateMatch_frame d id u o d' :
  Storage.updateMatch d id u = Some (o, d') →
  length (matches d') = length (matches d)
  ∧ (∀ m, m ∈ matches d → Match.id m ≠ id → m ∈ matches d')
  ∧ Match.id <$> matches d'
    = (λ i, if decide (i = id) then new_id id u else i) <$> (Match.id <$> matches d)
  ∧ (matches_keyed d → matches_keyed d')
  ∧ (MatchUpdate.createdAt u = None
     → Match.createdAt <$> matches d' = Match.createdAt <$> matches d)
  ∧ (∀ m', o = Some m' → m' ∈ matches d' ∧ Match.id m' = new_id id u).
Proof.
  intros (-> & -> & _ & _ & Hok)%updateMatch_rows. cbn [matches Storage.with_matches].
  assert (Match.id <$> (updated id u <$> matches d)
          = (λ i, if decide (i = id) then new_id id u else i) <$> (Match.id <$> matches d))
    as Hids.
  { rewrite <- !list_fmap_compose. apply list_fmap_ext. intros _ x _. apply updated_id. }
  split; [by rewrite length_fmap|]. split.
  { intros m Hm Hne. apply list_elem_of_fmap. exists m. split; [|done].
    unfold updated. by rewrite decide_False. }
  split; [exact Hids|]. split.
  { unfold matches_keyed. cbn [matches Storage.with_matches]. intros Hkey.
    destruct (decide (Exists (λ m, Match.id m = id) (matches d))) as [Hex|Hex].
    2:{ by rewrite updated_absent. }
    rewrite Hids. apply NoDup_fmap_2_strong; [|done].
    destruct (constraints_pk d id u (Hok Hex)) as [Hn|Hn].
    - intros i j _ _. rewrite Hn. by destruct (decide (i = id)), (decide (j = id)); subst.
    - intros i j Hi Hj.
      destruct (decide (i = id)), (decide (j = id)); subst; try done.
      + intros Heq. by rewrite Heq in Hn.
      + intros Heq. by rewrite <- Heq in Hn. }
  split.
  { intros Hc. rewrite <- !list_fmap_compose. apply list_fmap_ext. intros _ x _.
    by apply updated_createdAt. }
  intros m' Hm'. apply head_Some_elem_of, list_elem_of_fmap in Hm' as (x & -> & Hx).
  apply list_elem_of_filter in Hx as [Hid Hx]. split.
  - apply list_elem_of_fmap. exists x. split; [|done]. unfold updated. by rewrite decide_True.
  - unfold Storage.apply_update. cbn. rewrite Hid. apply sent_new_id.
Qed.

Lemma constraints_ok_updated d id u l :
  new_id id u = id → Storage.constraints_ok d id u = true →
  Storage.constraints_ok (Storage.with_matches d l) id u = true.
Proof.
  unfold Storage.constraints_ok, Storage.fk_ok, Storage.profile_exists, Storage.pk_ok.
  cbn [profiles Storage.with_matches matches]. intros Hid Hok.
  apply andb_true_iff in Hok as [-> _]. cbn [andb].
  pose proof (sent_new_id id u) as Hs. rewrite Hid in Hs.
  destruct (Storage.sent (MatchUpdate.id u)) as [s|]; [|done]. cbn in Hs |- *.
  apply bool_decide_eq_true. by left.
Qed.

(** The handler, case by case. *)
Lemma post_match_cases body newId now w :
  post_match body newId now w
  = match insertMatchSchema_parse body with
    | None => (mkResponse 400 (JError "Invalid match data"), w)
    | Some matchData =>
        let w1 := mkWorld (db w) (trace w ++ [EGetMatches (InsertMatch.initiatorId matchData)]) in
        if existsb (is_pending_between (InsertMatch.initiatorId matchData)
                      (InsertMatch.receiverId matchData))
             (Storage.getMatches (db w) (InsertMatch.initiatorId matchData))
        then (mkResponse 409
                (JError "A pending match request already exists between these users"), w1)
        else match Storage.createMatch (db w) newId now matchData with
             | Some (row, d') =>
                 (mkResponse 201 (JMatch row), mkWorld d' (trace w1 ++ [ECreateMatch]))
             | None =>
                 (mkResponse 400 (JError "Invalid match data"),
                  mkWorld (db w) (trace w1 ++ [ECreateMatch]))
             end
    end.
Proof.
  unfold post_match. destruct (insertMatchSchema_parse body) as [md|]; [|done].
  rewrite route_query. cbv zeta. destruct (existsb _ _); [done|].
  unfold route, mbind, handler_bind, exec. cbn [db trace].
  by destruct (Storage.createMatch (db w) newId now md) as [[row d']|].
Qed.



Lemma pending_between_sym d a b : pending_between d a b ↔ pending_between d b a.
Proof. unfold pending_between. split; intros (m & ? & ? & ?); exists m; tauto. Qed.

End MatchStoreFacts.

Import MatchStoreFacts.

(** X3.  An update of a match that the database accepts adds and removes no
    row and leaves every row of another id, and every other table, as it
    was.  The rows of the id take the id that the update object carries, if
    it carries one, and otherwise keep theirs; the id stays a key; the
    creation times are as before unless the object carries one.  The row
    returned, if any, is a row of the table and has the new id. *)
Theorem match_update_keeps_key d id u o d' :
  Storage.updateMatch d id u = Some (o, d') →
  length (matches d') = length (matches d)
  ∧ (∀ m, m ∈ matches d → Match.id m ≠ id → m ∈ matches d')
  ∧ Match.id <$> matches d'
    = (λ i, if decide (i = id) then new_id id u else i) <$> (Match.id <$> matches d)
  ∧ (MatchUpdate.id u = None → Match.id <$> matches d' = Match.id <$> matches d)
  ∧ (matches_keyed d → matches_keyed d')
  ∧ (MatchUpdate.createdAt u = None
     → Match.createdAt <$> matches d' = Match.createdAt <$> matches d)
  ∧ (profiles d' = profiles d ∧ projects d' = projects d
     ∧ projectMembers d' = projectMembers d ∧ codeRepositories d' = codeRepositories d
     ∧ tasks d' = tasks d ∧ contributions d' = contributions d)
  ∧ (∀ m', o = Some m' → m' ∈ matches d' ∧ Match.id m' = new_id id u).
Proof.
  intros Hu.
  destruct (updateMatch_frame _ _ _ _ _ Hu) as (Hlen & Hother & Hids & Hkey & Hc & Ho).
  apply updateMatch_rows in Hu as (Hd' & _).
  split; [done|]. split; [done|]. split; [done|]. split.
  { intros Hid. rewrite Hids. unfold new_id. rewrite Hid.
    rewrite <- (list_fmap_id (Match.id <$> matches d)) at 2.
    apply list_fmap_ext. intros _ i _. by destruct (decide _). }
  split; [done|]. split; [done|]. split; [by rewrite Hd'|]. done.
Qed.

Lemma match_update_keeps_key_witness :
  Storage.updateMatch Demo.store "m1" Demo.hijack
  = Some (Some (Match.mk "m-hijack" "p-alice" "p-dave" "accepted" "technical" None None
                  (Some 1000) None),
          Storage.with_matches Demo.store
            [Match.mk "m-hijack" "p-alice" "p-dave" "accepted" "technical" None None
               (Some 1000) None])
  ∧ Match.id <$> matches (Storage.with_matches Demo.store
            [Match.mk "m-hijack" "p-alice" "p-dave" "accepted" "technical" None None
               (Some 1000) None])
    = (λ i, if decide (i = "m1") then new_id "m1" Demo.hijack else i)
      <$> (Match.id <$> matches Demo.store).
Proof.
  split; [by vm_compute|].
  refine (proj1 (proj2 (proj2
    (match_update_keeps_key Demo.store "m1" Demo.hijack
       (Some (Match.mk "m-hijack" "p-alice" "p-dave" "accepted" "technical" None None
                (Some 1000) None)) _ _)))).
  by vm_compute.
Defined.

(** X4.  Sending an accepted update a second time leaves the database as
    the first time left it.  It returns the same row when the update keeps
    the id, and no row when the update has changed the id. *)
Theorem match_update_is_idempotent d id u o d' :
  Storage.updateMatch d id u = Some (o, d') →
  ∃ o', Storage.updateMatch d' id u = Some (o', d')
        ∧ (new_id id u = id → o' = o)
        ∧ (new_id id u ≠ id → o' = None).
Proof.
  intros Hu. apply updateMatch_rows in Hu as (Hd' & Ho & Hnv & Hplan & Hok).
  assert (matches d' = updated id u <$> matches d) as Hrows by by rewrite Hd'.
  unfold Storage.updateMatch. cbv zeta. rewrite Hnv, Hplan. cbn [negb].
  destruct (decide (Exists (λ m, Match.id m = id) (matches d))) as [Hex|Hex].
  2:{ rewrite updated_absent in Hrows by done.
      rewrite bool_decide_eq_false_2 by by rewrite Hrows. cbn [negb].
      rewrite find_absent in Ho by done. exists None. by rewrite Ho. }
  destruct (decide (new_id id u = id)) as [Hid|Hid].
  - rewrite bool_decide_eq_true_2.
    2:{ rewrite Hrows. apply Exists_exists in Hex as (x & Hx & Hxid).
        apply Exists_exists. exists (updated id u x). split.
        - apply list_elem_of_fmap. by exists x.
        - rewrite updated_id, decide_True by done. done. }
    cbn [negb].
    assert (Storage.constraints_ok d' id u = true) as ->.
    { rewrite Hd'. apply constraints_ok_updated; auto. }
    fold (updated id u). eexists. split; [|split; [intros _; reflexivity|done]].
    rewrite Hrows, filter_updated by done. rewrite <- list_fmap_compose.
    assert (updated id u <$> (updated id u <$> matches d) = updated id u <$> matches d)
      as ->.
    { rewrite <- list_fmap_compose. apply list_fmap_ext. intros _ x _. cbn.
      unfold updated at 1. rewrite updated_id.
      destruct (decide (Match.id x = id)) as [Hx|Hx].
      - rewrite decide_True by done. unfold updated. rewrite decide_True by done.
        apply apply_update_twice.
      - by rewrite decide_False. }
    rewrite Ho, <- Hrows. f_equal. f_equal.
    + f_equal. apply list_fmap_ext. intros _ x _. cbn. apply apply_update_twice.
    + by destruct d'.
  - rewrite bool_decide_eq_false_2 by (rewrite Hrows; by apply renamed_away).
    cbn [negb]. exists None. by split.
Qed.

Lemma match_update_is_idempotent_witness :
  ∃ o', Storage.updateMatch
          (Storage.with_matches Demo.store
             [Match.mk "m-hijack" "p-alice" "p-dave" "accepted" "technical" None None
                (Some 1000) None])
          "m1" Demo.hijack
        = Some (o', Storage.with_matches Demo.store
                      [Match.mk "m-hijack" "p-alice" "p-dave" "accepted" "technical" None
                         None (Some 1000) None])
        ∧ (new_id "m1" Demo.hijack = "m1"
           → o' = Some (Match.mk "m-hijack" "p-alice" "p-dave" "accepted" "technical" None
                          None (Some 1000) None))
        ∧ (new_id "m1" Demo.hijack ≠ "m1" → o' = None).
Proof.
  apply (match_update_is_idempotent Demo.store "m1" Demo.hijack). by vm_compute.
Defined.


(** X6.  After a request has created a match in state 'pending', a second
    request for the same two profiles, in either direction, is answered
    409 and changes nothing. *)
Theorem repeated_match_request_is_conflict body newId now w body2 newId2 now2 md md2 :
  insertMatchSchema_parse body = Some md →
  InsertMatch.status md = None ∨ InsertMatch.status md = Some "pending" →
  status (post_match body newId now w).1 = 201 →
  insertMatchSchema_parse body2 = Some md2 →
  (InsertMatch.initiatorId md2 = InsertMatch.initiatorId md
   ∧ InsertMatch.receiverId md2 = InsertMatch.receiverId md)
  ∨ (InsertMatch.initiatorId md2 = InsertMatch.receiverId md
     ∧ InsertMatch.receiverId md2 = InsertMatch.initiatorId md) →
  status (post_match body2 newId2 now2 (post_match body newId now w).2).1 = 409
  ∧ db (post_match body2 newId2 now2 (post_match body newId now w).2).2
    = db (post_match body newId now w).2.
Proof.
  intros Hparse Hstatus H201 Hparse2 Hpair.
  rewrite (post_match_cases body newId now w), Hparse in H201 |- *. cbv zeta in *.
  destruct (existsb _ _); [done|].
  destruct (Storage.createMatch (db w) newId now md) as [[row d']|] eqn:Hc; [|done].
  cbn [fst snd].
  apply createMatch_row in Hc as ((st & mt & Hst & _ & Hrow) & -> & _).
  assert (st = "pending") as ->.
  { destruct Hstatus as [Hs|Hs]; rewrite Hs in Hst; vm_compute in Hst; congruence. }
  assert (pending_between (Storage.with_matches (db w) (matches (db w) ++ [row]))
            (InsertMatch.initiatorId md2) (InsertMatch.receiverId md2)) as Hp.
  { exists row. cbn [matches Storage.with_matches].
    split; [apply elem_of_app; right; apply list_elem_of_here|].
    rewrite Hrow. cbn. split; [done|].
    destruct Hpair as [[-> ->]|[-> ->]]; tauto. }
  apply hasPendingMatch_spec in Hp.
  rewrite post_match_cases, Hparse2. cbv zeta. cbn [db]. by rewrite Hp.
Qed.

Lemma repeated_match_request_is_conflict_witness :
  status (post_match Demo.bob_asks_alice "m2" 2000 Demo.world).1 = 201
  ∧ status (post_match
              (mkMatchBody (Some (Json.Str "p-alice")) (Some (Json.Str "p-bob")) None
                 (Some (Json.Str "investment")) None None)
              "m3" 3000 (post_match Demo.bob_asks_alice "m2" 2000 Demo.world).2).1 = 409.
Proof.
  split; [by vm_compute|].
  apply (repeated_match_request_is_conflict Demo.bob_asks_alice "m2" 2000 Demo.world
           (mkMatchBody (Some (Json.Str "p-alice")) (Some (Json.Str "p-bob")) None
                 (Some (Json.Str "investment")) None None)
           "m3" 3000 Demo.bob_asks_alice_data
           (InsertMatch.mk "p-alice" "p-bob" None "investment" None None)).
  - reflexivity.
  - by left.
  - by vm_compute.
  - reflexivity.
  - right. split; reflexivity.
Defined.

(** ** Who the caller is *)

Module CallerFacts.
Import Routes CandidateFacts.

Lemma truthy_opt_Some u : u ≠ EmptyString → Js.truthy_opt (Some u) = true.
Proof. intros Hu. by apply truthy_str_true. Qed.

End CallerFacts.

Import CallerFacts.

(** X7.  A request that carries a non-empty [x-user-id] header is treated
    as coming from that user: whatever the environment and whoever is signed
    in, the caller is the profile of the user named in the header, and when
    that user has no profile one is inserted. *)
Theorem dev_header_decides_caller NODE_ENV inserted_profile req w u :
  x_user_id req = Some u → u ≠ EmptyString →
  resolveCurrentProfile NODE_ENV inserted_profile req w
  = match Storage.getProfileByUserId (db w) u with
    | Some p => (Continue (Some p), mkWorld (db w) (trace w ++ [EGetProfileByUserId u]))
    | None =>
        match inserted_profile u with
        | Some row =>
            (Continue (Some row),
             mkWorld (Storage.with_profiles (db w) (profiles (db w) ++ [row]))
               (trace w ++ [EGetProfileByUserId u; ECreateProfile u]))
        | None =>
            (Throw, mkWorld (db w) (trace w ++ [EGetProfileByUserId u; ECreateProfile u]))
        end
    end.
Proof.
  intros Hx Hu. apply truthy_opt_Some in Hu.
  unfold resolveCurrentProfile. cbv zeta. rewrite Hx, Hu, orb_true_r. cbn [andb].
  unfold mbind, handler_bind, query. cbn [db trace].
  destruct (Storage.getProfileByUserId (db w) u) as [p|]; [done|].
  unfold exec. cbn [db trace].
  destruct (inserted_profile u) as [row|]; cbn; by rewrite <- app_assoc.
Qed.

Lemma dev_header_decides_caller_witness :
  resolveCurrentProfile (Some "production") Demo.no_insert
    (mkRequest (Some "u-bob") (Some "u-alice") "m1" None None) Demo.world
  = (Continue (Some Demo.bob), mkWorld Demo.store [EGetProfileByUserId "u-bob"]).
Proof.
  apply (dev_header_decides_caller (Some "production") Demo.no_insert
           (mkRequest (Some "u-bob") (Some "u-alice") "m1" None None) Demo.world "u-bob").
  - reflexivity.
  - done.
Defined.

(** X8.  Without the header the caller is looked up by the user id of the
    session, in every environment; no profile is inserted and the database is
    as before, whether or not a profile is found. *)
Theorem session_caller_is_only_looked_up NODE_ENV inserted_profile req w :
  Js.truthy_opt (x_user_id req) = false →
  resolveCurrentProfile NODE_ENV inserted_profile req w
  = match claims_sub req with
    | Some sub =>
        if Js.truthy_str sub
        then (Continue (Storage.getProfileByUserId (db w) sub),
              mkWorld (db w) (trace w ++ [EGetProfileByUserId sub]))
        else (Continue None, w)
    | None => (Continue None, w)
    end.
Proof.
  intros Hx. unfold resolveCurrentProfile. cbv zeta. rewrite Hx, !andb_false_r.
  destruct (claims_sub req) as [sub|]; [|done]. cbn [Js.truthy_opt].
  destruct (Js.truthy_str sub); [|done].
  unfold mbind, handler_bind, query. cbn [db trace].
  by destruct (Storage.getProfileByUserId (db w) sub).
Qed.

Lemma session_caller_is_only_looked_up_witness :
  resolveCurrentProfile (Some "development") (λ _, Some Demo.erin)
    (mkRequest None (Some "u-nobody") "m1" None None) Demo.world
  = (Continue None, mkWorld Demo.store [EGetProfileByUserId "u-nobody"]).
Proof.
  apply (session_caller_is_only_looked_up (Some "development") (λ _, Some Demo.erin)
           (mkRequest None (Some "u-nobody") "m1" None None) Demo.world).
  reflexivity.
Defined.

(** ** What a request leaves behind *)

Module RequestFacts.
Import Routes AiMatchingService SuggestionFacts CandidateFacts MatchFacts ResponseFacts
  TraceFacts MatchStoreFacts.

Lemma route_bind_cases {A} (m : Handler A) (k : A → Handler Response) c w :
  route (m ≫= k) c w
  = match m w with
    | (Continue a, w1) => route (k a) c w1
    | (Reply r, w1) => (r, w1)
    | (Throw, w1) => (c, w1)
    end.
Proof. unfold route, mbind, handler_bind. by destruct (m w) as [[r| |a] w1]. Qed.

Lemma projects_events_read p : Forall (λ e, is_write e = false) (projects_events p).
Proof. unfold projects_events. destruct (Js.str_eq _ _); by repeat constructor. Qed.

Lemma pipeline_events_read create JSON_parse d currentProfile req :
  Forall (λ e, is_write e = false) (pipeline_events create JSON_parse d currentProfile req).
Proof.
  unfold pipeline_events. rewrite !Forall_app. split_and!.
  - destruct (Js.str_eq _ _); by repeat constructor.
  - by repeat constructor.
  - apply Forall_concat, Forall_fmap, Forall_forall. intros p _. apply projects_events_read.
  - by repeat constructor.
  - apply Forall_fmap, Forall_forall. by intros m _.
Qed.

(** A statement that finds no row changes nothing. *)
Lemma updateMatch_none d id u d' : Storage.updateMatch d id u = Some (None, d') → d' = d.
Proof.
  intros (-> & Ho & _)%updateMatch_rows.
  destruct (decide (Exists (λ m, Match.id m = id) (matches d))) as [Hex|Hex].
  - apply Exists_exists in Hex as (x & Hx & Hid).
    assert (x ∈ filter (λ m, Match.id m = id) (matches d)) as Hin
      by by apply list_elem_of_filter.
    destruct (filter _ (matches d)); [by apply elem_of_nil in Hin|done].
  - rewrite updated_absent by done. apply StorageFacts.with_matches_same.
Qed.

(** Where the answer and the database of the final world of a match update
    come from. *)
Lemma patch_match_db NODE_ENV isAuthenticated inserted_profile req body now w :
  let r := (patch_match NODE_ENV isAuthenticated inserted_profile req body now w).1 in
  let w' := (patch_match NODE_ENV isAuthenticated inserted_profile req body now w).2 in
  (status r ≠ 200 ∧ matches (db w') = matches (db w))
  ∨ ∃ d1 m' d', matches d1 = matches (db w)
      ∧ Storage.updateMatch d1 (param req) (updateData body now) = Some (Some m', d')
      ∧ r = mkResponse 200 (JMatch m') ∧ db w' = d'.
Proof.
  cbv zeta. unfold patch_match. destruct (isAuthenticated req); cbn [negb]; [|by left].
  rewrite route_bind_cases.
  destruct (resolveCurrentProfile NODE_ENV inserted_profile req w) as [s w1] eqn:Hres.
  pose proof (resolve_keeps_matches _ _ _ _ _ _ Hres) as Hsame.
  destruct s as [r| |[cp|]]; [|by left | | by left].
  { exfalso. revert Hres. unfold resolveCurrentProfile. cbv zeta.
    destruct (if _ : bool then x_user_id req else _) as [userId|]; [|done].
    unfold mbind, handler_bind, query. cbn [db trace].
    destruct (Storage.getProfileByUserId (db w) userId); [done|].
    destruct (_ && _); [|done]. unfold exec. cbn [db trace].
    by destruct (inserted_profile userId). }
  rewrite route_query.
  destruct (head _) as [m|]; [|by left].
  destruct (_ && _); [by left|].
  unfold route, mbind, handler_bind, exec. cbn [db trace].
  destruct (Storage.updateMatch (db w1) (param req) (updateData body now))
    as [[[m'|] d']|] eqn:Hu; [| |by left].
  - right. by exists (db w1), m', d'.
  - left. apply updateMatch_none in Hu as ->. by cbn.
Qed.

Lemma filter_set_access (P : ProjectMember.t → Prop) `{!∀ m, Decision (P m)} id b
    (l : list ProjectMember.t) :
  (∀ m, P (set_access id b m) ↔ P m) →
  filter P (set_access id b <$> l) = set_access id b <$> filter P l.
Proof.
  intros HP. induction l as [|m l IH]; [done|].
  rewrite fmap_cons, !filter_cons, IH.
  destruct (decide (P m)) as [Hm|Hm].
  - by rewrite decide_True by by apply HP.
  - by rewrite decide_False by by rewrite HP.
Qed.

Lemma set_access_projectId id b m :
  ProjectMember.projectId (set_access id b m) = ProjectMember.projectId m.
Proof. unfold set_access. by destruct (decide _). Qed.

Lemma set_access_profileId id b m :
  ProjectMember.profileId (set_access id b m) = ProjectMember.profileId m.
Proof. unfold set_access. by destruct (decide _). Qed.

Lemma getProjectMembers_updated d id b pid :
  Storage.getProjectMembers (Storage.updateProjectMember d id b).2 pid
  = set_access id b <$> Storage.getProjectMembers d pid.
Proof.
  unfold Storage.getProjectMembers, Storage.updateProjectMember.
  cbn [snd projectMembers Storage.with_projectMembers]. fold (set_access id b).
  apply filter_set_access. intros m. by rewrite set_access_projectId.
Qed.

End RequestFacts.

Import RequestFacts.

(** X9.  Whatever the caller, the body and the answer, [PATCH
    /api/matches/:id] adds and removes no match and leaves every match of
    another id as it was; the id stays a key.  The ids are as before when
    the body has no [id] key, and the creation times when it has no
    [createdAt] key.  The row of a 200 answer is a row of the table, and
    has the id the body carries, if it carries one. *)
Theorem match_patch_keeps_key NODE_ENV isAuthenticated inserted_profile req body now w :
  let r := (patch_match NODE_ENV isAuthenticated inserted_profile req body now w).1 in
  let w' := (patch_match NODE_ENV isAuthenticated inserted_profile req body now w).2 in
  length (matches (db w')) = length (matches (db w))
  ∧ (∀ m, m ∈ matches (db w) → Match.id m ≠ param req → m ∈ matches (db w'))
  ∧ (MatchUpdate.id body = None
     → Match.id <$> matches (db w') = Match.id <$> matches (db w))
  ∧ (MatchUpdate.createdAt body = None
     → Match.createdAt <$> matches (db w') = Match.createdAt <$> matches (db w))
  ∧ (matches_keyed (db w) → matches_keyed (db w'))
  ∧ (status r = 200 →
     ∃ m', json r = JMatch m' ∧ m' ∈ matches (db w')
           ∧ Match.id m' = new_id (param req) body).
Proof.
  cbv zeta.
  destruct (patch_match_db NODE_ENV isAuthenticated inserted_profile req body now w)
    as [[Hr Hsame]|(d1 & m' & d' & Hsame & Hu & Hr & Hd')].
  { unfold matches_keyed. rewrite Hsame. by split_and!. }
  rewrite Hr, Hd'. clear Hr Hd'.
  destruct (updateMatch_frame _ _ _ _ _ Hu) as (Hlen & Hother & Hids & Hkey & Hc & Ho).
  unfold matches_keyed in *. rewrite <- Hsame.
  split; [done|]. split; [done|]. split.
  { intros Hid. rewrite Hids. unfold new_id, updateData. cbn [MatchUpdate.id]. rewrite Hid.
    rewrite <- (list_fmap_id (Match.id <$> matches d1)) at 2.
    apply list_fmap_ext. intros _ i _. by destruct (decide _). }
  split; [done|]. split; [done|].
  intros _. exists m'. split; [done|]. by apply Ho.
Qed.

(** X10.  [GET /api/matches/suggestions/:profileId] changes nothing: the
    database of the final world is that of the initial one and no call the
    handler makes is a write.  The matching service is called once when the
    request is served, and no candidate or match is read, nor the service
    called, when the request is refused. *)
Theorem suggestions_request_only_reads NODE_ENV isAuthenticated create JSON_parse req w :
  let r := (get_suggestions NODE_ENV isAuthenticated create JSON_parse req w).1 in
  let w' := (get_suggestions NODE_ENV isAuthenticated create JSON_parse req w).2 in
  db w' = db w
  ∧ ∃ evs, trace w' = (trace w ++ evs)%list
      ∧ Forall (λ e, is_write e = false) evs
      ∧ (status r = 200 → length (filter is_generate evs) = 1%nat)
      ∧ (status r ≠ 200 → Forall (λ e, is_pipeline_call e = false) evs).
Proof.
  cbv zeta.
  destruct (get_suggestions_outcome NODE_ENV isAuthenticated create JSON_parse req w)
    as (r & evs & -> & Hout).
  cbn [fst snd db trace]. split; [done|]. exists evs. split; [done|].
  destruct Hout as [? | ? ? | u ? ? ? ? | u cp ? ? ? ? ? | u cp ? ? ? ? ?]; cbn [status].
  - split_and!; [constructor | done | constructor].
  - split_and!; [constructor | done | constructor].
  - split_and!; [by repeat constructor | done | by repeat constructor].
  - split_and!; [by repeat constructor | done | by repeat constructor].
  - split_and!.
    + constructor; [done|]. apply pipeline_events_read.
    + intros _. rewrite filter_cons. cbn. by rewrite pipeline_generate.
    + done.
Qed.

(** X11.  After the owner has set a member's access flag, the members
    served for any project are those served before, but for the new flag of
    the member addressed; tasks and contributions are served as before. *)
Theorem granted_access_is_served req body w req2 :
  status (patch_project_member req body w).1 = 200 →
  ∃ b served, b_hasAccess body = Some b
    ∧ (get_project_members req2 (patch_project_member req body w).2).1
      = mkResponse 200 (JMembers served)
    ∧ served ≡ₚ set_access (param req) b <$> Storage.getProjectMembers (db w) (param req2)
    ∧ (get_project_tasks req2 (patch_project_member req body w).2).1
      = (get_project_tasks req2 w).1
    ∧ (get_project_contributions req2 (patch_project_member req body w).2).1
      = (get_project_contributions req2 w).1.
Proof.
  intros H200.
  destruct (MemberFacts.patch_project_member_outcome req body w) as (r & d' & Hr & Hd & Hout).
  rewrite Hr in H200.
  destruct Hout as [| | | | |b member project row Hb Hm Hp Ho Hrow]; try done.
  eexists b, _. split; [done|].
  unfold get_project_members, get_project_tasks, get_project_contributions.
  rewrite !route_query. cbn [fst]. rewrite Hd.
  split_and!.
  - done.
  - by rewrite getProjectMembers_updated.
  - done.
  - done.
Qed.

Lemma granted_access_is_served_witness :
  status (patch_project_member Demo.alice_grants_dave Demo.grant Demo.world).1 = 200
  ∧ ∃ b served, b_hasAccess Demo.grant = Some b
    ∧ (get_project_members Demo.dave_reads_atlas
         (patch_project_member Demo.alice_grants_dave Demo.grant Demo.world).2).1
      = mkResponse 200 (JMembers served)
    ∧ served ≡ₚ set_access (param Demo.alice_grants_dave) b
                 <$> Storage.getProjectMembers (db Demo.world) (param Demo.dave_reads_atlas)
    ∧ (get_project_tasks Demo.dave_reads_atlas
         (patch_project_member Demo.alice_grants_dave Demo.grant Demo.world).2).1
      = (get_project_tasks Demo.dave_reads_atlas Demo.world).1
    ∧ (get_project_contributions Demo.dave_reads_atlas
         (patch_project_member Demo.alice_grants_dave Demo.grant Demo.world).2).1
      = (get_project_contributions Demo.dave_reads_atlas Demo.world).1.
Proof.
  split; [by vm_compute|].
  apply (granted_access_is_served Demo.alice_grants_dave Demo.grant Demo.world
           Demo.dave_reads_atlas).
  by vm_compute.
Defined.

(** ** The candidate filters, seen from both sides *)

Module MutualFacts.
Import Routes AiMatchingService CandidateFacts.

Lemma role_compatible_iff a b : role_compatible a b = true ↔ compatible a b.
Proof.
  split; [apply role_compatible_spec|].
  unfold compatible. intros [[-> [-> | ->]] | [[-> ->] | [-> ->]]]; reflexivity.
Qed.

Lemma compatible_sym a b : compatible a b → compatible b a.
Proof. unfold compatible. intros [[-> [-> | ->]] | [[-> ->] | [-> ->]]]; tauto. Qed.

Lemma compatible_irrefl a : ¬ compatible a a.
Proof. unfold compatible. intros [[-> [? | ?]] | [[-> ?] | [-> ?]]]; done. Qed.

Lemma connected_sym d a b : connected d a b → connected d b a.
Proof. unfold connected. intros (m & ? & ?). exists m. tauto. Qed.

(** The converse of [existingMatchIds_connected]. *)
Lemma connected_existingMatchIds d profileId x :
  x ∈ existingMatchIds profileId (Storage.getMatches d profileId) → connected d profileId x.
Proof.
  unfold existingMatchIds, Storage.getMatches.
  rewrite elem_of_list_to_set, list_elem_of_fmap. intros (m & -> & Hm).
  apply list_elem_of_filter in Hm as [Hends Hm]. exists m. split; [done|].
  destruct (Js.str_eq (Match.initiatorId m) profileId) eqn:E.
  - apply str_eq_true in E. by left.
  - apply str_eq_false in E. right. split; [done|]. tauto.
Qed.

Lemma eligible_unfiltered_iff currentProfile p :
  eligible currentProfile (Profile.id currentProfile) None p = true
  ↔ Profile.id p ≠ Profile.id currentProfile
    ∧ compatible (Profile.role currentProfile) (Profile.role p).
Proof.
  unfold eligible. cbn [Js.truthy_opt andb].
  destruct (Js.str_eq (Profile.id p) (Profile.id currentProfile)) eqn:E.
  - apply str_eq_true in E. split; [done|tauto].
  - apply str_eq_false in E. rewrite role_compatible_iff. tauto.
Qed.

End MutualFacts.

Import MutualFacts.

(** X12.  The role rule pairs a builder with investors and technical leads
    and either of those with builders, and nothing else; it is symmetric, and
    no role is paired with itself. *)
Theorem role_rule_is_symmetric a b :
  (role_compatible a b = true ↔ compatible a b)
  ∧ role_compatible a b = role_compatible b a
  ∧ role_compatible a a = false.
Proof.
  split; [apply role_compatible_iff|]. split.
  - apply eq_true_iff_eq. rewrite !role_compatible_iff.
    split; apply compatible_sym.
  - apply not_true_is_false. rewrite role_compatible_iff. apply compatible_irrefl.
Qed.

(** X13.  Without a role filter, being a candidate is mutual: when the two
    filters keep [q] among the candidates of [p], they keep [p] among the
    candidates of [q], on the same rows. *)
Theorem candidacy_is_mutual d p q :
  p ∈ profiles d →
  q ∈ candidateProfiles p (Profile.id p) None (Storage.getAllProfiles d)
        (Storage.getMatches d (Profile.id p)) →
  p ∈ candidateProfiles q (Profile.id q) None (Storage.getAllProfiles d)
        (Storage.getMatches d (Profile.id q)).
Proof.
  unfold candidateProfiles, Storage.getAllProfiles.
  rewrite !list_elem_of_filter. intros Hp (Hnot & Hel & Hq).
  apply Is_true_true, eligible_unfiltered_iff in Hel as [Hne Hrole].
  split_and!; [| |done].
  - intros Hin. apply Hnot. apply existingMatchIds_connected; [done|].
    by apply connected_sym, connected_existingMatchIds.
  - apply Is_true_true, eligible_unfiltered_iff. split; [done|].
    by apply compatible_sym.
Qed.

Lemma candidacy_is_mutual_witness :
  Demo.bob ∈ candidateProfiles Demo.alice "p-alice" None (Storage.getAllProfiles Demo.store)
               (Storage.getMatches Demo.store "p-alice")
  ∧ Demo.alice ∈ candidateProfiles Demo.bob "p-bob" None (Storage.getAllProfiles Demo.store)
                   (Storage.getMatches Demo.store "p-bob").
Proof.
  assert (Demo.bob ∈ candidateProfiles Demo.alice (Profile.id Demo.alice) None
                       (Storage.getAllProfiles Demo.store)
                       (Storage.getMatches Demo.store (Profile.id Demo.alice))) as Hb.
  { apply list_elem_of_In. vm_compute. tauto. }
  split; [exact Hb|].
  apply (candidacy_is_mutual Demo.store Demo.alice Demo.bob); [|exact Hb].
  apply list_elem_of_here.
Defined.

(** ** The matching service and its limit *)

Module LimitFacts.
Import Routes AiMatchingService ServiceFacts.

Lemma post_filter_take l n n' :
  0 ≤ n ≤ n' → post_filter l n = take (Z.to_nat n) (post_filter l n').
Proof.
  intros Hn. unfold post_filter. rewrite !slice0_take by lia.
  rewrite take_take. f_equal. lia.
Qed.

Lemma filter_take_prefix {A} (P : A → Prop) `{!∀ x, Decision (P x)} (l : list A) n :
  filter P (take n l) `prefix_of` filter P l.
Proof.
  exists (filter P (drop n l)). by rewrite <- filter_app, take_drop.
Qed.

Lemma filter_score_kept k (l : list MatchResult) :
  filter (λ m, matchScore m = k) (filter (λ m, 50 ≤ matchScore m) l)
  `prefix_of` filter (λ m, matchScore m = k) l.
Proof.
  destruct (decide (50 ≤ k)) as [Hk|Hk].
  - replace (filter (λ m, matchScore m = k) (filter (λ m, 50 ≤ matchScore m) l))
      with (filter (λ m, matchScore m = k) l); [done|].
    induction l as [|m l IH]; [done|]. rewrite !filter_cons.
    destruct (decide (matchScore m = k)) as [Hm|Hm].
    + rewrite decide_True by lia. rewrite filter_cons, decide_True by done. by f_equal.
    + destruct (decide (50 ≤ matchScore m)); [|done].
      by rewrite filter_cons, decide_False.
  - replace (filter (λ m, matchScore m = k) (filter (λ m, 50 ≤ matchScore m) l))
      with (@nil MatchResult); [apply prefix_nil|].
    induction l as [|m l IH]; [done|]. rewrite filter_cons.
    destruct (decide (50 ≤ matchScore m)); [|done].
    rewrite filter_cons, decide_False by lia. done.
Qed.

End LimitFacts.

Import LimitFacts.

(** X14.  Asking the matching service for fewer results gives the first
    results of what asking for more gives: a larger limit only appends. *)
Theorem larger_limit_only_appends create JSON_parse currentUser currentUserProjects
    candidates n n' :
  0 ≤ n ≤ n' →
  generateMatches create JSON_parse currentUser currentUserProjects candidates n
  = take (Z.to_nat n)
      (generateMatches create JSON_parse currentUser currentUserProjects candidates n').
Proof.
  intros Hn. unfold generateMatches. destruct candidates as [|c cands]; [by rewrite take_nil|].
  destruct (create _ _ _) as [|content]; [by rewrite take_nil|].
  destruct (Js.truthy_opt content); [|by rewrite take_nil].
  destruct (JSON_parse _); [by rewrite take_nil..| |]; by apply post_filter_take.
Qed.

Lemma larger_limit_only_appends_witness :
  generateMatches Demo.create (Demo.reads_as Demo.answer_mixed) Demo.alice []
    Demo.alice_candidates 1
  = take 1 (generateMatches Demo.create (Demo.reads_as Demo.answer_mixed) Demo.alice []
              Demo.alice_candidates 10).
Proof.
  apply (larger_limit_only_appends Demo.create (Demo.reads_as Demo.answer_mixed) Demo.alice []
           Demo.alice_candidates 1 10).
  lia.
Defined.

(** X15.  Results of equal score are returned in the order in which the
    answer of the scoring step lists them. *)
Theorem equal_scores_keep_answer_order create JSON_parse currentUser currentUserProjects
    candidates content l limit k :
  create currentUser currentUserProjects candidates = Resolved (Some content) →
  JSON_parse content = Matches l → 0 ≤ limit →
  filter (λ m, matchScore m = k)
    (generateMatches create JSON_parse currentUser currentUserProjects candidates limit)
  `prefix_of` filter (λ m, matchScore m = k) l.
Proof.
  intros Hc Hparse Hl. unfold generateMatches.
  destruct candidates as [|c cands]; [apply prefix_nil|]. rewrite Hc.
  destruct (Js.truthy_opt (Some content)) eqn:Ht; [|apply prefix_nil].
  cbn [default from_option id]. rewrite Hparse.
  destruct (post_filter_spec l limit Hl) as (kept & _ & _ & Hstable & ->).
  etrans; [apply filter_take_prefix|]. rewrite Hstable. apply filter_score_kept.
Qed.

Lemma equal_scores_keep_answer_order_witness :
  filter (λ m, matchScore m = 60)
    (generateMatches Demo.create
       (Demo.reads_as [mkResult "p-carol" 60 "first" "investment";
                       mkResult "p-bob" 85 "top" "investment";
                       mkResult "p-dave" 60 "second" "technical"])
       Demo.alice [] Demo.alice_candidates 10)
  `prefix_of`
  filter (λ m, matchScore m = 60)
    [mkResult "p-carol" 60 "first" "investment";
     mkResult "p-bob" 85 "top" "investment";
     mkResult "p-dave" 60 "second" "technical"].
Proof.
  apply (equal_scores_keep_answer_order Demo.create
           (Demo.reads_as [mkResult "p-carol" 60 "first" "investment";
                           mkResult "p-bob" 85 "top" "investment";
                           mkResult "p-dave" 60 "second" "technical"])
           Demo.alice [] Demo.alice_candidates "reply").
  - reflexivity.
  - reflexivity.
  - lia.
Defined.

(** ** The dashboard's tiers *)

Module TierFacts.
Import Client.

(** [members.find(m => m.profileId === uid)] when one row of the project
    belongs to [uid], on the rows served after a change [f] of the rows. *)
Lemma currentMember_single (served members : list ProjectMember.t) uid member
    (f : ProjectMember.t → ProjectMember.t) :
  served ≡ₚ f <$> members →
  (∀ m, ProjectMember.profileId (f m) = ProjectMember.profileId m) →
  member ∈ members → ProjectMember.profileId member = uid →
  (∀ m, m ∈ members → ProjectMember.profileId m = uid → m = member) →
  currentMember uid served = Some (f member).
Proof.
  intros Hperm Hf Hin Huid Honly. unfold currentMember.
  destruct (filter _ served) as [|x l] eqn:E.
  - assert (f member ∈ filter (λ m, ProjectMember.profileId m = uid) served) as Hx.
    { apply list_elem_of_filter. split; [by rewrite Hf|].
      rewrite Hperm. apply list_elem_of_fmap. by exists member. }
    rewrite E in Hx. by apply elem_of_nil in Hx.
  - assert (x ∈ filter (λ m, ProjectMember.profileId m = uid) served) as Hx.
    { rewrite E. apply list_elem_of_here. }
    apply list_elem_of_filter in Hx as [Hxu Hx]. rewrite Hperm in Hx.
    apply list_elem_of_fmap in Hx as (m & -> & Hm). rewrite Hf in Hxu.
    cbn. by rewrite (Honly m Hm Hxu).
Qed.

Lemma head_filter_None {A} (P : A → Prop) `{!∀ x, Decision (P x)} (l : list A) :
  head (filter P l) = None → filter P l = [].
Proof. by destruct (filter P l). Qed.

(** The quotient the pages show, for a part [c] of a whole [t]. *)
Lemma percentage_bounds c t :
  0 ≤ c ≤ t → 0 < t →
  (0 <= inject_Z c / inject_Z t * 100)%Q
  ∧ (inject_Z c / inject_Z t * 100 <= 100)%Q
  ∧ ((inject_Z c / inject_Z t * 100 == 100)%Q ↔ c = t).
Proof.
  intros Hc Ht. destruct t as [|p|p]; [lia| |lia].
  unfold Qle, Qeq, Qdiv, Qmult, Qinv, inject_Z. cbn.
  rewrite ?Pos.mul_1_r, ?Pos.mul_1_l, ?Z.mul_1_r. lia.
Qed.

End TierFacts.

Import TierFacts.

(** X16.  The tiers the dashboard computes are nested: the owner has full
    access, and whoever has full access is a team member.  The rows shown
    are rows that were fetched, in their order; a visitor who is neither
    owner nor member is shown no member row, and only tasks assigned to
    the visitor. *)
Theorem access_tiers_are_nested uid project members tasks :
  (isOwner uid project = true → hasFullAccess uid project members = true)
  ∧ (hasFullAccess uid project members = true → isTeamMember uid project members = true)
  ∧ (isTeamMember uid project members = false →
     visibleMembers (hasFullAccess uid project members) members uid = []
     ∧ ∀ t, t ∈ visibleTasks (hasFullAccess uid project members) tasks uid →
            Task.assignedTo t = Some uid)
  ∧ (∀ full, visibleTasks full tasks uid `sublist_of` tasks
             ∧ visibleMembers full members uid `sublist_of` members).
Proof.
  unfold isTeamMember, hasFullAccess. split; [|split; [|split]].
  - by intros ->.
  - destruct (isOwner uid project); [done|]. cbn [orb].
    destruct (currentMember uid members) as [m|]; [|done]. intros _.
    by apply bool_decide_eq_true.
  - destruct (isOwner uid project); [done|]. cbn [orb]. intros Hno.
    apply bool_decide_eq_false in Hno.
    destruct (currentMember uid members) as [m|] eqn:Hm; [by destruct Hno|].
    cbn [from_option]. split.
    + unfold visibleMembers. by apply head_filter_None.
    + intros t Ht. unfold visibleTasks in Ht. by apply list_elem_of_filter in Ht as [? _].
  - intros full. unfold visibleTasks, visibleMembers.
    destruct full; split; try done; apply sublist_filter.
Qed.

(** X17.  Once the owner has set the access flag of a member's row, the
    dashboard computed from the member rows then served, in whatever order,
    gives a member with a single row in the project full access exactly
    when the flag of that row is set or the member is the owner; the flag
    that decides is the new one for the row addressed and the old one for
    any other row. *)
Theorem grant_opens_full_access d id b member project uid served :
  served ≡ₚ Storage.getProjectMembers (Storage.updateProjectMember d id b).2
              (Project.id project) →
  member ∈ Storage.getProjectMembers d (Project.id project) →
  ProjectMember.profileId member = uid →
  (∀ m, m ∈ Storage.getProjectMembers d (Project.id project) →
        ProjectMember.profileId m = uid → m = member) →
  hasFullAccess uid project served
  = isOwner uid project
    || (if decide (ProjectMember.id member = id) then b else ProjectMember.hasAccess member).
Proof.
  intros Hperm Hin Huid Honly. rewrite getProjectMembers_updated in Hperm.
  unfold hasFullAccess.
  rewrite (currentMember_single served _ uid member (set_access id b) Hperm); try done.
  - cbn. unfold set_access. by destruct (decide _).
  - intros m. apply set_access_profileId.
Qed.

Lemma grant_opens_full_access_witness :
  hasFullAccess "p-dave" Demo.atlas (Storage.getProjectMembers Demo.store "prj-atlas")
  = false
  ∧ hasFullAccess "p-dave" Demo.atlas
      (reverse (Storage.getProjectMembers
                  (Storage.updateProjectMember Demo.store "mem-dave" true).2 "prj-atlas"))
    = true.
Proof.
  split; [reflexivity|].
  apply (grant_opens_full_access Demo.store "mem-dave" true Demo.dave_member Demo.atlas
           "p-dave").
  - apply reverse_Permutation.
  - apply list_elem_of_here.
  - reflexivity.
  - intros m Hm Hp. apply list_elem_of_In in Hm. cbn in Hm.
    destruct Hm as [<-|[<-|[]]]; [done|discriminate].
Defined.

(** ** The task board *)

Module BoardFacts.
Import TaskBoard.

Lemma board_cons t v :
  (todoTasks (t :: v) ++ inProgressTasks (t :: v) ++ completedTasks (t :: v))%list
  ≡ₚ ((if decide (on_board t) then [t] else [])
      ++ (todoTasks v ++ inProgressTasks v ++ completedTasks v))%list.
Proof.
  unfold todoTasks, inProgressTasks, completedTasks, on_board. rewrite !filter_cons.
  destruct (decide (Task.status t = "todo")) as [H1|H1].
  { rewrite H1. rewrite (decide_False (P := "todo" = "in-progress")) by done.
    rewrite (decide_False (P := "todo" = "completed")) by done.
    rewrite decide_True by tauto. done. }
  destruct (decide (Task.status t = "in-progress")) as [H2|H2].
  { rewrite H2. rewrite (decide_False (P := "in-progress" = "completed")) by done.
    rewrite decide_True by tauto. cbn [app].
    by rewrite <- Permutation_middle. }
  destruct (decide (Task.status t = "completed")) as [H3|H3].
  { rewrite decide_True by tauto. cbn [app].
    rewrite app_assoc, <- Permutation_middle. by rewrite <- app_assoc. }
  rewrite decide_False by tauto. done.
Qed.

End BoardFacts.

Import TaskBoard BoardFacts.

(** X18.  The three columns of the board hold, between them, each visible
    task whose status is 'todo', 'in-progress' or 'completed' once, and no
    other task; no task is in two columns. *)
Theorem board_columns_partition (v : list Task.t) :
  (todoTasks v ++ inProgressTasks v ++ completedTasks v)%list ≡ₚ filter on_board v
  ∧ (∀ t, t ∈ todoTasks v → (t ∉ inProgressTasks v) ∧ (t ∉ completedTasks v))
  ∧ (∀ t, t ∈ inProgressTasks v → t ∉ completedTasks v)
  ∧ (length (todoTasks v) + length (inProgressTasks v) + length (completedTasks v)
     ≤ length v)%nat.
Proof.
  assert ((todoTasks v ++ inProgressTasks v ++ completedTasks v)%list ≡ₚ filter on_board v)
    as Hperm.
  { induction v as [|t v IH]; [done|].
    rewrite board_cons, IH, filter_cons. by destruct (decide (on_board t)). }
  split; [done|]. split; [|split].
  - unfold todoTasks, inProgressTasks, completedTasks. intros t.
    rewrite !list_elem_of_filter. intros [Ht _]. rewrite Ht. split; by intros [? _].
  - unfold inProgressTasks, completedTasks. intros t.
    rewrite !list_elem_of_filter. intros [Ht _]. rewrite Ht. by intros [? _].
  - rewrite <- !length_app, <- app_assoc, Hperm. apply length_filter.
Qed.

(** X19.  The progress shown for a project is a percentage: between 0 and
    100, 0 while there are no tasks, and 100 exactly when every task is
    completed. *)
Theorem progress_is_a_percentage tasks :
  (0 <= taskProgress tasks)%Q ∧ (taskProgress tasks <= 100)%Q
  ∧ (totalTasks tasks = 0 → taskProgress tasks = 0%Q)
  ∧ (0 < totalTasks tasks →
     ((taskProgress tasks == 100)%Q ↔ completedCount tasks = totalTasks tasks)).
Proof.
  assert (0 ≤ completedCount tasks ≤ totalTasks tasks) as Hc.
  { unfold completedCount, totalTasks. destruct tasks as [l|]; cbn; [|lia].
    pose proof (length_filter (λ t, Task.status t = "completed") l). lia. }
  unfold taskProgress. destruct (0 <? totalTasks tasks) eqn:E.
  - apply Z.ltb_lt in E.
    destruct (percentage_bounds _ _ Hc E) as (H0 & H100 & Heq).
    split_and!; [done | done | lia | done].
  - apply Z.ltb_ge in E. split_and!; [done | done | done | lia].
Qed.

(** ** The shares of the value distribution, taken together *)

Module WholeFacts.
Import Client ShareFacts.

Lemma Zsum_perm l l' : l ≡ₚ l' → Zsum l = Zsum l'.
Proof.
  unfold Zsum. induction 1 as [|x l l' _ IH|x y l|l l' l'' _ IH1 _ IH2]; cbn; lia.
Qed.

Lemma Zsum_app l l' : Zsum (l ++ l') = Zsum l + Zsum l'.
Proof. unfold Zsum. induction l as [|x l IH]; cbn; lia. Qed.





End WholeFacts.

Import WholeFacts.



(** ** The analytics overview *)

Module OverviewFacts.
Import Analytics.

Lemma foldl_counts (g : list (string * Z)) a :
  foldl (λ sum item, sum + snd item) a g = a + Zsum (g.*2).
Proof.
  revert a. induction g as [|x g IH]; intros a.
  - unfold Zsum. cbn. lia.
  - cbn [foldl]. rewrite IH, fmap_cons. unfold Zsum. cbn. lia.
Qed.

Lemma Zsum_indicator (r : string) (rs : list string) :
  NoDup rs → r ∈ rs → Zsum ((λ x, if decide (r = x) then 1 else 0) <$> rs) = 1.
Proof.
  induction rs as [|x rs IH]; intros Hnd Hin; [by apply elem_of_nil in Hin|].
  apply NoDup_cons in Hnd as [Hx Hnd]. rewrite fmap_cons. unfold Zsum in *. cbn [foldr].
  destruct (decide (r = x)) as [->|Hne].
  - assert (foldr Z.add 0 ((λ y, if decide (x = y) then 1 else 0) <$> rs) = 0) as ->; [|lia].
    clear IH Hin Hnd. induction rs as [|y rs IH]; [done|].
    apply not_elem_of_cons in Hx as [Hy Hx]. rewrite fmap_cons. cbn [foldr].
    rewrite decide_False by done. by rewrite IH.
  - apply elem_of_cons in Hin as [?|Hin]; [done|]. rewrite IH by done. lia.
Qed.

(** Counting the rows role by role counts each row once. *)
Lemma counts_add_up (rs : list string) (l : list Profile.t) :
  NoDup rs → (∀ p, p ∈ l → Profile.role p ∈ rs) →
  Zsum ((λ r, Z.of_nat (length (filter (λ p, Profile.role p = r) l))) <$> rs)
  = Z.of_nat (length l).
Proof.
  intros Hnd. induction l as [|p l IH]; intros Hall.
  - clear. induction rs as [|r rs IHr]; [done|].
    rewrite fmap_cons. unfold Zsum in *. cbn [foldr]. rewrite IHr. cbn. lia.
  - assert (Zsum ((λ r, Z.of_nat (length (filter (λ p, Profile.role p = r) (p :: l)))) <$> rs)
            = Zsum ((λ r, Z.of_nat (length (filter (λ p, Profile.role p = r) l))) <$> rs)
              + Zsum ((λ x, if decide (Profile.role p = x) then 1 else 0) <$> rs)) as ->.
    { clear. induction rs as [|r rs IHr]; [done|]. rewrite !fmap_cons.
      unfold Zsum in *. cbn [foldr]. rewrite IHr, filter_cons.
      destruct (decide (Profile.role p = r)); cbn [length]; lia. }
    rewrite IH, Zsum_indicator; [cbn [length]; lia | done | |].
    + apply Hall, list_elem_of_here.
    + intros q Hq. by apply Hall, list_elem_of_further.
Qed.

Lemma groups_keyed db : NoDup ((getUserCountByRole db).*1).
Proof.
  unfold getUserCountByRole. rewrite <- list_fmap_compose.
  erewrite list_fmap_ext; [|by intros _ r _]. rewrite list_fmap_id.
  apply NoDup_remove_dups.
Qed.

Lemma groups_elem db role n :
  (role, n) ∈ getUserCountByRole db ↔
  role ∈ Profile.role <$> profiles db ∧ n = has_role role db.
Proof.
  unfold getUserCountByRole, has_role. split.
  - intros H. apply list_elem_of_fmap in H as (r & [= -> ->] & Hr).
    rewrite elem_of_remove_dups in Hr. by split.
  - intros [Hr ->]. apply list_elem_of_fmap. exists role. split; [done|].
    by apply elem_of_remove_dups.
Qed.

Lemma find_group (g : list (string * Z)) role n :
  NoDup (g.*1) → (role, n) ∈ g → head (filter (λ r, fst r = role) g) = Some (role, n).
Proof.
  induction g as [|[k v] g IH]; intros Hnd Hin; [by apply elem_of_nil in Hin|].
  rewrite fmap_cons in Hnd. apply NoDup_cons in Hnd as [Hk Hnd]. rewrite filter_cons.
  apply elem_of_cons in Hin as [[= <- <-]|Hin].
  - by rewrite decide_True.
  - rewrite decide_False; [by apply IH|]. cbn. intros ->. apply Hk.
    apply list_elem_of_fmap. by exists (role, n).
Qed.

Lemma find_no_group (g : list (string * Z)) role :
  role ∉ g.*1 → head (filter (λ r, fst r = role) g) = None.
Proof.
  induction g as [|[k v] g IH]; [done|]. rewrite fmap_cons, not_elem_of_cons.
  intros [Hne Hg]. rewrite filter_cons, decide_False; [by apply IH|]. cbn. by intros ->.
Qed.

(** [find] on the groups, in whatever order the database lists them. *)
Lemma count_of_groups db groups role :
  groups ≡ₚ getUserCountByRole db → count_of role groups = has_role role db.
Proof.
  intros Hperm. unfold count_of.
  assert (NoDup (groups.*1)) as Hnd by (rewrite Hperm; apply groups_keyed).
  destruct (decide (role ∈ Profile.role <$> profiles db)) as [Hin|Hin].
  - rewrite (find_group groups role (has_role role db)); [done..|].
    rewrite Hperm. by apply groups_elem.
  - rewrite find_no_group.
    + cbn. unfold has_role. symmetry.
      assert (filter (λ p, Profile.role p = role) (profiles db) = []) as ->; [|done].
      destruct (filter _ _) as [|p l] eqn:E; [done|]. destruct Hin.
      assert (p ∈ filter (λ p, Profile.role p = role) (profiles db)) as Hp.
      { rewrite E. apply list_elem_of_here. }
      apply list_elem_of_filter in Hp as [Hr Hp].
      apply list_elem_of_fmap. by exists p.
    + rewrite Hperm. intros Hr. apply list_elem_of_fmap in Hr as ([k v] & -> & Hkv).
      apply groups_elem in Hkv. tauto.
Qed.

Lemma total_of_groups db groups :
  groups ≡ₚ getUserCountByRole db → Zsum (groups.*2) = Z.of_nat (length (profiles db)).
Proof.
  intros Hperm. rewrite (Zsum_perm _ _ (fmap_Permutation snd _ _ Hperm)).
  unfold getUserCountByRole. rewrite <- list_fmap_compose.
  erewrite list_fmap_ext; [apply counts_add_up|].
  - apply NoDup_remove_dups.
  - intros p Hp. apply elem_of_remove_dups, list_elem_of_fmap. by exists p.
  - by intros _ r _.
Qed.

Lemma three_roles (l : list Profile.t) :
  (length (filter (λ p, Profile.role p = "coder") l)
   + length (filter (λ p, Profile.role p = "investor") l)
   + length (filter (λ p, Profile.role p = "technical") l) ≤ length l)%nat.
Proof.
  induction l as [|p l IH]; [done|]. rewrite !filter_cons.
  destruct (decide (Profile.role p = "coder")) as [H1|H1].
  { rewrite H1. rewrite (decide_False (P := "coder" = "investor")) by done.
    rewrite (decide_False (P := "coder" = "technical")) by done. cbn [length]. lia. }
  destruct (decide (Profile.role p = "investor")) as [H2|H2].
  { rewrite H2. rewrite (decide_False (P := "investor" = "technical")) by done.
    cbn [length]. lia. }
  destruct (decide (Profile.role p = "technical")); cbn [length]; lia.
Qed.

End OverviewFacts.

Import Analytics OverviewFacts.

(** X21.  In whatever order the database lists the role groups, the
    overview reports as total users the number of profiles, and for each of
    the three roles the number of profiles with that role, so that the three
    together are no more than the total; the matches made are the accepted
    ones, no more than the connections, which are all the matches. *)
Theorem overview_counts_rows db groups :
  groups ≡ₚ getUserCountByRole db →
  let o := overview_of groups (getProjectCount db) (getMatchCount db None)
             (getMatchCount db (Some "accepted")) in
  totalUsers o = Z.of_nat (length (profiles db))
  ∧ vibeCoders o
    = Z.of_nat (length (filter (λ p, Profile.role p = "coder") (profiles db)))
  ∧ investors o
    = Z.of_nat (length (filter (λ p, Profile.role p = "investor") (profiles db)))
  ∧ techLeads o
    = Z.of_nat (length (filter (λ p, Profile.role p = "technical") (profiles db)))
  ∧ vibeCoders o + investors o + techLeads o ≤ totalUsers o
  ∧ totalConnections o = Z.of_nat (length (matches db))
  ∧ matchesMade o
    = Z.of_nat (length (filter (λ m, Match.status m = "accepted") (matches db)))
  ∧ 0 ≤ matchesMade o ≤ totalConnections o.
Proof.
  intros Hperm. cbv zeta. unfold overview_of. cbn [totalUsers vibeCoders investors
    techLeads projectsHosted matchesMade totalConnections].
  rewrite foldl_counts, (total_of_groups db groups Hperm).
  rewrite !(count_of_groups db groups) by done. unfold has_role.
  assert (getMatchCount db (Some "accepted")
          = Z.of_nat (length (filter (λ m, Match.status m = "accepted") (matches db)))) as Hacc.
  { unfold getMatchCount. cbn [Js.truthy_opt Js.truthy_str]. f_equal. f_equal.
    apply list_filter_iff. intros m. split; [by intros [= ->] | by intros ->]. }
  rewrite Hacc. unfold getMatchCount. cbn [Js.truthy_opt].
  pose proof (three_roles (profiles db)).
  pose proof (length_filter (λ m, Match.status m = "accepted") (matches db)).
  split; [lia|]. split; [done|]. split; [done|]. split; [done|]. split; [lia|].
  split; [done|]. split; [done|]. lia.
Qed.

Lemma overview_counts_rows_witness :
  reverse (getUserCountByRole Demo.store) ≡ₚ getUserCountByRole Demo.store
  ∧ totalUsers (overview_of (reverse (getUserCountByRole Demo.store))
                  (getProjectCount Demo.store) (getMatchCount Demo.store None)
                  (getMatchCount Demo.store (Some "accepted")))
    = Z.of_nat (length (profiles Demo.store)).
Proof.
  split; [apply reverse_Permutation|].
  apply (overview_counts_rows Demo.store (reverse (getUserCountByRole Demo.store))).
  apply reverse_Permutation.
Defined.

(** ** The matches page *)

Module PageFacts.
Import MatchesPage.

Lemma find_profile_id ps id p : find_profile ps id = Some p → Profile.id p = id.
Proof.
  unfold find_profile. intros H. apply head_Some_elem_of, list_elem_of_filter in H. tauto.
Qed.

Lemma enriched_rows raw ps : row <$> enrichedMatches raw ps = raw.
Proof.
  unfold enrichedMatches. rewrite <- list_fmap_compose. apply list_fmap_id.
Qed.

Lemma enriched_elem raw ps m :
  m ∈ enrichedMatches raw ps →
  row m ∈ raw
  ∧ initiatorProfile m = find_profile ps (Match.initiatorId (row m))
  ∧ receiverProfile m = find_profile ps (Match.receiverId (row m)).
Proof.
  unfold enrichedMatches. intros H. apply list_elem_of_fmap in H as (x & -> & Hx). by cbn.
Qed.

End PageFacts.

Import MatchesPage PageFacts.

(** X22.  The page shows the rows the server lists for the user's profile,
    one entry per row.  Each pending one is among the requests received or
    among the requests sent, and among both only when its initiator is its
    receiver; an accepted one is among neither.  The profile drawn on a card
    is that of the other party of the match. *)
Theorem matches_page_sorts_every_row d me ps :
  let shown := enrichedMatches (Storage.getMatches d (Profile.id me)) ps in
  row <$> shown = Storage.getMatches d (Profile.id me)
  ∧ (∀ m, m ∈ shown → Match.status (row m) = "pending" →
          m ∈ pendingReceived shown me ∨ m ∈ pendingSent shown me)
  ∧ (∀ m, m ∈ pendingReceived shown me → m ∈ pendingSent shown me →
          Match.initiatorId (row m) = Match.receiverId (row m))
  ∧ (∀ m, m ∈ accepted shown → (m ∉ pendingReceived shown me) ∧ (m ∉ pendingSent shown me))
  ∧ (∀ m p, m ∈ shown →
       otherProfile m (Js.str_eq (Match.receiverId (row m)) (Profile.id me)) = Some p →
       (Match.receiverId (row m) = Profile.id me ∧ Profile.id p = Match.initiatorId (row m))
       ∨ (Match.initiatorId (row m) = Profile.id me
          ∧ Match.receiverId (row m) ≠ Profile.id me
          ∧ Profile.id p = Match.receiverId (row m))).
Proof.
  cbv zeta. split; [apply enriched_rows|]. split; [|split; [|split]].
  - intros m Hm Hs. apply enriched_elem in Hm as Hrow. destruct Hrow as (Hrow & _ & _).
    unfold Storage.getMatches in Hrow. apply list_elem_of_filter in Hrow as [[Hi|Hr] _].
    + right. unfold pendingSent. by apply list_elem_of_filter.
    + left. unfold pendingReceived. by apply list_elem_of_filter.
  - unfold pendingReceived, pendingSent. intros m.
    rewrite !list_elem_of_filter. intros [[_ Hr] _] [[_ Hi] _]. congruence.
  - unfold accepted, pendingReceived, pendingSent. intros m.
    rewrite !list_elem_of_filter. intros [Ha _]. rewrite Ha. split; by intros [[? _] _].
  - intros m p Hm. apply enriched_elem in Hm as (Hrow & Hip & Hrp).
    unfold Storage.getMatches in Hrow. apply list_elem_of_filter in Hrow as [Hends _].
    unfold otherProfile.
    destruct (Js.str_eq (Match.receiverId (row m)) (Profile.id me)) eqn:E.
    + apply CandidateFacts.str_eq_true in E. rewrite Hip. intros Hp.
      apply find_profile_id in Hp. by left.
    + apply CandidateFacts.str_eq_false in E. rewrite Hrp. intros Hp.
      apply find_profile_id in Hp. right. destruct Hends as [Hi|Hr]; [done|congruence].
Qed.

(** ** The profile filter *)

Module ToggleFacts.
Import FilterSidebar.

Lemma toggle_in x (l : list string) : x ∈ l → toggle x l = filter (λ y, y ≠ x) l.
Proof. intros H. unfold toggle. by rewrite bool_decide_eq_true_2. Qed.

Lemma toggle_out x (l : list string) : x ∉ l → toggle x l = (l ++ [x])%list.
Proof. intros H. unfold toggle. by rewrite bool_decide_eq_false_2. Qed.

Lemma filter_out_absent (x : string) (l : list string) :
  x ∉ l → filter (λ y, y ≠ x) l = l.
Proof.
  induction l as [|y l IH]; [done|]. rewrite not_elem_of_cons. intros [Hne Hl].
  rewrite filter_cons, decide_True by done. by rewrite IH.
Qed.

End ToggleFacts.

Import FilterSidebar ToggleFacts.

(** X23.  Ticking a box of the filter flips the membership of that entry and
    of no other; a list without repetitions stays without repetitions; and
    ticking twice gives a list with the entries it began with, the very
    list when the entry was not in it. *)
Theorem toggle_flips_one_entry x l :
  (x ∈ toggle x l ↔ x ∉ l)
  ∧ (∀ y, y ≠ x → (y ∈ toggle x l ↔ y ∈ l))
  ∧ (NoDup l → NoDup (toggle x l))
  ∧ (x ∉ l → toggle x (toggle x l) = l)
  ∧ (∀ y, y ∈ toggle x (toggle x l) ↔ y ∈ l).
Proof.
  assert (x ∈ toggle x l ↔ x ∉ l) as Hflip.
  { destruct (decide (x ∈ l)) as [Hin|Hin].
    - rewrite toggle_in by done. rewrite list_elem_of_filter. tauto.
    - rewrite toggle_out by done. rewrite elem_of_app, list_elem_of_singleton. tauto. }
  assert (∀ y, y ≠ x → (y ∈ toggle x l ↔ y ∈ l)) as Hother.
  { intros y Hy. destruct (decide (x ∈ l)) as [Hin|Hin].
    - rewrite toggle_in by done. rewrite list_elem_of_filter. tauto.
    - rewrite toggle_out by done. rewrite elem_of_app, list_elem_of_singleton. tauto. }
  split; [done|]. split; [done|]. split; [|split].
  - intros Hnd. destruct (decide (x ∈ l)) as [Hin|Hin].
    + rewrite toggle_in by done. by apply NoDup_filter.
    + rewrite toggle_out by done. apply NoDup_app. split; [done|]. split.
      * intros y Hy Hx. apply list_elem_of_singleton in Hx. by subst.
      * apply NoDup_singleton.
  - intros Hout. rewrite (toggle_out x l) by done.
    rewrite toggle_in by (apply elem_of_app; right; apply list_elem_of_here).
    rewrite filter_app, filter_out_absent by done.
    rewrite filter_cons, decide_False by (intros H; by apply H). by rewrite app_nil_r.
  - intros y. destruct (decide (x ∈ l)) as [Hin|Hin].
    + rewrite (toggle_in x l) by done.
      rewrite toggle_out by (rewrite list_elem_of_filter; tauto).
      rewrite elem_of_app, list_elem_of_filter, list_elem_of_singleton.
      destruct (decide (y = x)) as [->|Hne]; tauto.
    + rewrite (toggle_out x l) by done.
      rewrite toggle_in by (apply elem_of_app; right; apply list_elem_of_here).
      rewrite list_elem_of_filter, elem_of_app, list_elem_of_singleton.
      destruct (decide (y = x)) as [->|Hne]; tauto.
Qed.

(** ** Suggestions: the profile attached to a result, and the caller's identity *)

(** X24.  The profile attached to a suggestion is the stored profile whose
    id the result names; a result that names no stored profile is returned
    all the same, without a profile. *)
Theorem suggestion_carries_named_profile NODE_ENV isAuthenticated create JSON_parse
    req w l s :
  json (get_suggestions NODE_ENV isAuthenticated create JSON_parse req w).1 = JSuggestions l →
  s ∈ l →
  enriched s = Storage.getProfile (db w) (profileId (result s))
  ∧ (∀ p, enriched s = Some p →
          Profile.id p = profileId (result s) ∧ p ∈ profiles (db w))
  ∧ (profileId (result s) ∉ Profile.id <$> profiles (db w) → enriched s = None).
Proof.
  intros Hl Hs.
  apply SuggestionFacts.get_suggestions_inv in Hl as (u & cp & _ & _ & _ & _ & _ & ->).
  unfold suggestions in Hs. apply list_elem_of_fmap in Hs as (m & -> & _).
  cbn [enriched result].
  assert (∀ p, Storage.getProfile (db w) (profileId m) = Some p →
               Profile.id p = profileId m ∧ p ∈ profiles (db w)) as Hfound.
  { intros p Hp. unfold Storage.getProfile in Hp.
    by apply head_Some_elem_of, list_elem_of_filter in Hp. }
  split; [done|]. split; [done|].
  intros Hno. destruct (Storage.getProfile (db w) (profileId m)) as [p|] eqn:E; [|done].
  destruct (Hfound p eq_refl) as [Hid Hin]. destruct Hno. rewrite <- Hid.
  apply list_elem_of_fmap. by exists p.
Qed.

Lemma suggestion_carries_named_profile_witness :
  enriched (mkSuggestion (mkResult "p-zed" 70 "unknown" "investment") None)
  = Storage.getProfile (db Demo.world) "p-zed".
Proof.
  refine (proj1 (suggestion_carries_named_profile Demo.NODE_ENV Demo.isAuthenticated
                   Demo.create (Demo.reads_as [mkResult "p-zed" 70 "unknown" "investment"])
                   Demo.alice_request Demo.world
                   [mkSuggestion (mkResult "p-zed" 70 "unknown" "investment") None]
                   (mkSuggestion (mkResult "p-zed" 70 "unknown" "investment") None) _ _)).
  - by vm_compute.
  - apply list_elem_of_here.
Defined.

(** X25.  Outside the development and test environments the suggestions
    endpoint does not look at the [x-user-id] header: two requests that
    differ in nothing else, and pass the same authentication, are answered
    alike. *)
Theorem production_suggestions_ignore_header NODE_ENV isAuthenticated create JSON_parse
    req req' w :
  devEnv NODE_ENV = false → same_but_header req req' →
  isAuthenticated req = isAuthenticated req' →
  get_suggestions NODE_ENV isAuthenticated create JSON_parse req w
  = get_suggestions NODE_ENV isAuthenticated create JSON_parse req' w.
Proof.
  intros Hdev (Hc & Hp & Hr & Hl) Ha. unfold get_suggestions.
  by rewrite Ha, Hdev, Hc, Hp, Hr, Hl.
Qed.

Lemma production_suggestions_ignore_header_witness :
  get_suggestions (Some "production") Demo.isAuthenticated Demo.create
    (Demo.reads_as Demo.answer_bob)
    (mkRequest (Some "u-bob") (Some "u-alice") "p-alice" None None) Demo.world
  = get_suggestions (Some "production") Demo.isAuthenticated Demo.create
      (Demo.reads_as Demo.answer_bob)
      (mkRequest None (Some "u-alice") "p-alice" None None) Demo.world.
Proof.
  apply (production_suggestions_ignore_header (Some "production") Demo.isAuthenticated
           Demo.create (Demo.reads_as Demo.answer_bob)
           (mkRequest (Some "u-bob") (Some "u-alice") "p-alice" None None)
           (mkRequest None (Some "u-alice") "p-alice" None None) Demo.world).
  - reflexivity.
  - by repeat split.
  - reflexivity.
Defined.
